(** * Ladder subroutine display: a shallow embedding of [ladsubrdisplib.js]
      and [ladsymbols.js], and the properties of its rendering and
      live-update passes.

    Conventions of the embedding.
    - A JavaScript exception is an explicit result: every function that can
      throw returns a [Completion].
    - Strings are byte strings (UTF-8); the markup is produced character for
      character as the template literals of the source produce it (line
      feeds and indentation included).
    - An optional property of a JSON object is an [option]; numbers used as
      grid coordinates or bounds are the integers ([Z]) a JSON document can
      carry, negative ones included; the numbers of a live snapshot are
      binary64 floats.
    - A JavaScript array or plain object used as a dictionary is the finite
      map from its own keys to its elements; [null] slots are absent keys.
      The snapshot of the live update, which the code reads with [in], is
      an object with the properties it inherits beside its own.
    - Strings and arrays have no size limit: where a statement says that
      markup is produced, the host is one that can hold it.
    - The global [LadSymbols] is a parameter of the display library: the
      page decides which script provides it. The host's number printers
      ([toString], [toFixed]) are parameters of the live update. *)

From Stdlib Require Import ZArith String Ascii DecimalString.
From Stdlib Require PrimFloat FloatOps SpecFloat DecimalZ DecimalPos.
From stdpp Require Import gmap strings list fin_maps sorting.

Local Open Scope Z_scope.

(** ** Completions: normal return or a thrown exception *)

Inductive Exn : Type :=
| TypeError (msg : string)
| RangeError (msg : string).

Inductive Completion (A : Type) : Type :=
| Normal (a : A)
| Throw (e : Exn).
Arguments Normal {A} a.
Arguments Throw {A} e.

#[global] Instance completion_ret : MRet Completion := @Normal.
#[global] Instance completion_bind : MBind Completion := λ A B k m,
  match m with
  | Normal a => k a
  | Throw e => Throw e
  end.

(** [arr.forEach(x => body)] for a body that may throw and threads an
    accumulator. *)
Fixpoint forEachM {A S} (body : S → A → Completion S) (xs : list A) (s : S)
  : Completion S :=
  match xs with
  | [] => Normal s
  | x :: xs' => s' ← body s x ; forEachM body xs' s'
  end.

(** [xs.map(f).join('')] for an [f] that may throw. *)
Fixpoint concatM {A} (f : A → Completion string) (xs : list A) : Completion string :=
  match xs with
  | [] => Normal ""
  | x :: xs' => h ← f x ; t ← concatM f xs' ; Normal (h +:+ t)
  end.

(** ** Strings *)

(** The double quote character, as a one-character string. *)
Definition dq : string := String "034"%char EmptyString.
(** Line feed. *)
Definition lf : string := String "010"%char EmptyString.

Fixpoint spaces (n : nat) : string :=
  match n with
  | O => ""
  | S n' => String " "%char (spaces n')
  end.

(** A line break followed by [n] spaces of indentation, as it occurs inside
    the template literals. *)
Definition nl (n : nat) : string := lf +:+ spaces n.

(** [name="value"] *)
Definition attr (name value : string) : string :=
  name +:+ "=" +:+ dq +:+ value +:+ dq.

(** Template interpolation of an integer: [`${n}`]. *)
Definition Z_toString (n : Z) : string := NilZero.string_of_int (Z.to_int n).

(** [xs.join(sep)] *)
Fixpoint join (sep : string) (xs : list string) : string :=
  match xs with
  | [] => ""
  | [x] => x
  | x :: xs' => x +:+ sep +:+ join sep xs'
  end.

(** Number of occurrences of the character [c] in [s]. *)
Fixpoint occ (c : ascii) (s : string) : nat :=
  match s with
  | EmptyString => O
  | String a s' => (if Ascii.eqb a c then 1 else 0)%nat + occ c s'
  end.

(** Truthiness of a string value: [''] is falsy. *)
Definition truthy (s : string) : bool :=
  match s with
  | EmptyString => false
  | _ => true
  end.

(** [s || d] on an optional string property. *)
Definition str_or (s : option string) (d : string) : string :=
  match s with
  | Some v => if truthy v then v else d
  | None => d
  end.

(** [xs || []] on an optional array property (an array is always truthy). *)
Definition arr_or {A} (xs : option (list A)) : list A :=
  match xs with
  | Some l => l
  | None => []
  end.

(** [n || d] on an optional numeric property: [undefined] and [0] are falsy. *)
Definition num_or (n : option Z) (d : Z) : Z :=
  match n with
  | Some v => if v =? 0 then d else v
  | None => d
  end.

(** ** [escapeHtml] (ladsubrdisplib.js, 366-371)

    [div.textContent = str; return div.innerHTML] serialises one text node:
    the HTML fragment serialisation algorithm replaces [&] by [&amp;],
    U+00A0 by [&nbsp;], [<] by [&lt;] and [>] by [&gt;]; quotes are left as
    they are (they are replaced in attribute mode only). (U+00A0 is the byte
    pair C2 A0.) *)
Fixpoint escapeText (s : string) : string :=
  match s with
  | EmptyString => ""
  | String c s' =>
      if Ascii.eqb c "&" then "&amp;" +:+ escapeText s'
      else if Ascii.eqb c "<" then "&lt;" +:+ escapeText s'
      else if Ascii.eqb c ">" then "&gt;" +:+ escapeText s'
      else if Ascii.eqb c "194" then
        match s' with
        | String c' s'' =>
            if Ascii.eqb c' "160" then "&nbsp;" +:+ escapeText s''
            else String c (escapeText s')
        | EmptyString => String c ""
        end
      else String c (escapeText s')
  end.

Definition escapeHtml (str : string) : string :=
  if truthy str then escapeText str else "".

(** ** The symbol library (ladsymbols.js) *)

Module LadSymbols.

Definition WIDTH : Z := 60.
Definition HEIGHT : Z := 40.
Definition CENTER_Y : Z := HEIGHT / 2.

(** [wrapSvg(content, stateClass)] *)
Definition wrapSvg (content stateClass : string) : string :=
  "<svg " +:+ attr "viewBox" ("0 0 " +:+ Z_toString WIDTH +:+ " " +:+ Z_toString HEIGHT)
  +:+ " " +:+ attr "class" ("ladder-symbol " +:+ stateClass) +:+ ">"
  +:+ nl 12 +:+ content +:+ nl 8 +:+ "</svg>".

(** One primitive of a symbol's template: its tag, the attributes written
    before and after its [class] attribute, and its text content when it
    is not self-closing. Every primitive of every template carries
    [class="${stateClass}"]. *)
Record Prim : Type := mkPrim {
  prim_tag : string;
  prim_before : list (string * string);
  prim_after : list (string * string);
  prim_text : option string
}.

Definition attrs (l : list (string * string)) : string :=
  join " " (map (λ kv, attr kv.1 kv.2) l).

Definition primHtml (stateClass : string) (p : Prim) : string :=
  "<" +:+ prim_tag p +:+ " " +:+ attrs (prim_before p) +:+ " "
  +:+ attr "class" stateClass
  +:+ (match prim_after p with [] => "" | l => " " +:+ attrs l end)
  +:+ (match prim_text p with
       | None => "/>"
       | Some t => ">" +:+ t +:+ "</" +:+ prim_tag p +:+ ">"
       end).

(** The template literal of a symbol: each primitive on a line of its
    own, indented by twelve spaces, the closing back-quote by eight. *)
Definition template (prims : list Prim) (stateClass : string) : string :=
  nl 12 +:+ join (nl 12) (map (primHtml stateClass) prims) +:+ nl 8.

Definition line (x1 y1 x2 y2 : Z) : Prim :=
  mkPrim "line" [("x1", Z_toString x1); ("y1", Z_toString y1);
                 ("x2", Z_toString x2); ("y2", Z_toString y2)] [] None.
Definition circle (cx cy r : Z) : Prim :=
  mkPrim "circle" [("cx", Z_toString cx); ("cy", Z_toString cy); ("r", Z_toString r)] [] None.
Definition letter (size : Z) (bold : bool) (t : string) : Prim :=
  mkPrim "text"
    ([("x", "30"); ("y", "24"); ("text-anchor", "middle"); ("font-size", Z_toString size)]
     ++ (if bold then [("font-weight", "bold")] else [])) [] (Some t).
Definition rect (x y w h : Z) (after : list (string * string)) : Prim :=
  mkPrim "rect" [("x", Z_toString x); ("y", Z_toString y);
                 ("width", Z_toString w); ("height", Z_toString h)] after None.

Definition contact (inner : list Prim) : list Prim :=
  [line 0 CENTER_Y 15 CENTER_Y; line 15 8 15 32; line 45 8 45 32]
  ++ inner ++ [line 45 CENTER_Y WIDTH CENTER_Y].
Definition coil (inner : list Prim) : list Prim :=
  [line 0 CENTER_Y 15 CENTER_Y; circle 30 CENTER_Y 12]
  ++ inner ++ [line 45 CENTER_Y WIDTH CENTER_Y].

Definition noc := contact [].
Definition ncc := contact [line 18 30 42 10].
Definition nocpd := contact [letter 12 true "P"].
Definition nocnd := contact [letter 12 true "N"].
Definition out := coil [].
Definition set := coil [letter 10 true "S"].
Definition rst := coil [letter 10 true "R"].
Definition pd := coil [letter 10 true "P"].
Definition compare : list Prim :=
  [line 0 CENTER_Y 10 CENTER_Y; rect 10 5 40 30 [("fill", "none")];
   letter 8 false "CMP"; line 50 CENTER_Y WIDTH CENTER_Y].
Definition hline : list Prim := [line 0 CENTER_Y WIDTH CENTER_Y].
Definition empty : list Prim := [line 0 CENTER_Y WIDTH CENTER_Y].
Definition il : list Prim :=
  [line 0 CENTER_Y 5 CENTER_Y;
   rect 5 5 50 30 [("fill", "none"); ("stroke-dasharray", "3,2")];
   letter 8 false "IL"; line 55 CENTER_Y WIDTH CENTER_Y].

(** The [symbols] object: the literal's entries, then the aliases of
    [symbols.compare] assigned after it (timers, counters, other blocks). *)
Definition symbols : gmap string (list Prim) :=
  list_to_map
    ([("noc", noc); ("ncc", ncc); ("nocpd", nocpd); ("nocnd", nocnd);
      ("out", out); ("set", set); ("rst", rst); ("pd", pd);
      ("compare", compare); ("hline", hline); ("empty", empty); ("il", il)]
     ++ map (λ n, (n, compare))
          ["tmr"; "tmra"; "tmroff"; "cntu"; "cntd"; "udc";
           "copy"; "cpyblk"; "fill"; "pack"; "unpack"; "shfrg";
           "findeq"; "mathdec"; "mathhex"; "sum";
           "call"; "rt"; "end"; "for"; "next"]).

(** [symbols[symbolName] || symbols.il], for a name that is a key of
    [symbols] or no property of it at all. (The names [symbols] inherits
    from [Object.prototype] are not graphics: they are outside this
    table, see [objectPrototypeNames].) *)
Definition symbolPrims (symbolName : string) : list Prim :=
  default il (symbols !! symbolName).

(** [getSymbol(symbolName, stateClass)] *)
Definition getSymbol (symbolName stateClass : string) : string :=
  wrapSvg (template (symbolPrims symbolName) stateClass) stateClass.

(** [getSymbolNames()]: the keys of [symbols]. *)
Definition getSymbolNames : list string :=
  ["noc"; "ncc"; "nocpd"; "nocnd"; "out"; "set"; "rst"; "pd"; "compare";
   "hline"; "empty"; "il"; "tmr"; "tmra"; "tmroff"; "cntu"; "cntd"; "udc";
   "copy"; "cpyblk"; "fill"; "pack"; "unpack"; "shfrg"; "findeq";
   "mathdec"; "mathhex"; "sum"; "call"; "rt"; "end"; "for"; "next"].

End LadSymbols.

(** The global [LadSymbols] object as the display library sees it: the two
    members it calls, each present or not. Calling a member that the object
    does not have throws a [TypeError]. *)
Record LadSymbolsObject : Type := {
  member_getSymbol : option (string → string → string);
  member_isBlockSymbol : option (string → bool)
}.

(** The object ladsymbols.js returns as its public API:
    [{ getSymbol, getSymbolNames, WIDTH, HEIGHT }]. It has no
    [isBlockSymbol] member. *)
Definition LadSymbols_module : LadSymbolsObject := {|
  member_getSymbol := Some LadSymbols.getSymbol;
  member_isBlockSymbol := None
|}.

(** ** The program description (JSON supplied by the caller) *)

Record Cell : Type := mkCell {
  cell_row : option Z;
  cell_col : option Z;
  cell_symbol : option string;
  cell_type : option string;
  cell_addr : option string;
  cell_addrs : option (list string);
  cell_opcode : option string;
  cell_params : option (list string)
}.

Record Rung : Type := mkRung {
  rungnum : Z;
  rung_cells : option (list Cell);
  rung_comment : option string;
  rung_rows : option Z;
  rung_cols : option Z
}.

Record ProgramData : Type := mkProgram {
  addresses : option (list string);
  subrdata : option (list Rung);
  error : option string
}.

(** ** The earlier variant of the display library (src/unnamed/part_000) *)

Module Legacy.

(** [isBlockSymbol] (part_000, 97-107): membership in a literal array. *)
Definition blockSymbols : list string :=
  ["compare"; "tmr"; "tmra"; "tmroff";
   "cntu"; "cntd"; "udc";
   "copy"; "cpyblk"; "fill";
   "pack"; "unpack"; "shfrg";
   "findeq"; "mathdec"; "mathhex"; "sum";
   "call"; "rt"; "end"; "for"; "next"].

Definition isBlockSymbol (symbol : string) : bool :=
  bool_decide (symbol ∈ blockSymbols).

(** [`${cell.row}`] on a property that may be absent. *)
Definition prop_toString (n : option Z) : string :=
  match n with
  | Some v => Z_toString v
  | None => "undefined"
  end.

Definition isAlnum (c : ascii) : bool :=
  let n := N_of_ascii c in
  ((48 <=? n) && (n <=? 57) || (65 <=? n) && (n <=? 90) || (97 <=? n) && (n <=? 122))%N.

(** [a.replace(/[^a-zA-Z0-9]/g, '_')] (part_000, 77). The pattern has no
    [u] flag, so every UTF-16 code unit that is not an ASCII letter or
    digit becomes one underscore. On the UTF-8 bytes of the string: a
    character of two or three bytes is one code unit, a character of four
    bytes is a surrogate pair; continuation bytes (80-BF) add nothing. *)
Fixpoint replaceNonAlnum (s : string) : string :=
  match s with
  | EmptyString => ""
  | String c s' =>
      let n := N_of_ascii c in
      if isAlnum c then String c (replaceNonAlnum s')
      else if (n <? 128)%N then String "_" (replaceNonAlnum s')
      else if (n <? 192)%N then replaceNonAlnum s'
      else if (n <? 240)%N then String "_" (replaceNonAlnum s')
      else String "_" (String "_" (replaceNonAlnum s'))
  end.

Definition rowOf (cell : Cell) : Z := num_or (cell_row cell) 0.
Definition colOf (cell : Cell) : Z := num_or (cell_col cell) 0.

(** [cells.forEach(cell => { ... cellsByRow[row].push(cell) })]
    (part_000, 124-131; the same lines are part_001, 122-129). *)
Definition pushByRow (cellsByRow : gmap Z (list Cell)) (cell : Cell) : gmap Z (list Cell) :=
  let row := rowOf cell in
  <[row := default [] (cellsByRow !! row) ++ [cell]]> cellsByRow.

Definition groupByRow (cells : list Cell) : gmap Z (list Cell) :=
  foldl pushByRow ∅ cells.

(** [rowCells.sort((a, b) => (a.col || 0) - (b.col || 0))]
    (part_000, 137; part_001, 135). [Array.prototype.sort] is stable
    (ECMAScript 2019), and for a comparator that is a total preorder the
    stable sorted arrangement is unique: an insertion sort computes it. *)
Fixpoint insertByCol (cell : Cell) (sorted : list Cell) : list Cell :=
  match sorted with
  | [] => [cell]
  | c :: rest =>
      if colOf cell - colOf c <=? 0 then cell :: c :: rest
      else c :: insertByCol cell rest
  end.

Definition sortByCol (cells : list Cell) : list Cell := foldr insertByCol [] cells.

(** The rows the loop [for (let row = 0; row < rows; row++)] writes, each
    with its cells in the order they are written (part_000, 134-137;
    part_001, 132-135). *)
Definition rowGroups (rung : Rung) : list (Z * list Cell) :=
  let cells := arr_or (rung_cells rung) in
  let rows := num_or (rung_rows rung) 1 in
  let cellsByRow := groupByRow cells in
  map (λ row, (row, sortByCol (default [] (cellsByRow !! row)))) (seqZ 0 rows).

Section Renderer.

(** The global [LadSymbols] the page has loaded. *)
Variable LadSymbols : LadSymbolsObject.

Definition call_getSymbol (name stateClass : string) : Completion string :=
  match member_getSymbol LadSymbols with
  | Some f => Normal (f name stateClass)
  | None => Throw (TypeError "LadSymbols.getSymbol is not a function")
  end.

(** [createCellHtml(cell)] (part_000, 42-90) *)
Definition createCellHtml (cell : Cell) : Completion string :=
  let symbol := str_or (cell_symbol cell) "il" in
  let address := str_or (cell_addr cell) "" in
  let addresses := arr_or (cell_addrs cell) in
  let opcode := str_or (cell_opcode cell) "" in
  let params := arr_or (cell_params cell) in
  let cellType := str_or (cell_type cell) "unknown" in
  let isBlock := bool_decide (cellType = "block") || isBlockSymbol symbol in
  let cellClass := if isBlock then "ladder-block" else "ladder-cell" in
  let cellId := "cell-" +:+ prop_toString (cell_row cell)
                +:+ "-" +:+ prop_toString (cell_col cell) in
  svgHtml ← call_getSymbol symbol "MB_ladderoff";
  let addressDisplay :=
    if truthy address then
      "<span " +:+ attr "class" "cell-address" +:+ ">" +:+ escapeHtml address +:+ "</span>"
    else "" in
  let paramsDisplay :=
    if isBlock then
      let displayParams := join " " (take 3 params) in
      nl 16 +:+ "<span " +:+ attr "class" "block-title" +:+ ">"
            +:+ escapeHtml opcode +:+ "</span>"
      +:+ nl 16 +:+ "<span " +:+ attr "class" "block-params" +:+ ">"
            +:+ escapeHtml displayParams +:+ "</span>"
      +:+ nl 12
    else "" in
  let dataAttrs :=
    join " " (map (λ a, attr ("data-addr-" +:+ replaceNonAlnum a) "true") addresses) in
  Normal (
    nl 12 +:+ "<div " +:+ attr "id" cellId +:+ " "
          +:+ attr "class" (cellClass +:+ " MB_ladderoff")
    +:+ nl 17 +:+ attr "data-addresses" (escapeHtml (join "," addresses))
    +:+ nl 17 +:+ attr "data-opcode" (escapeHtml opcode)
    +:+ nl 17 +:+ dataAttrs +:+ ">"
    +:+ nl 16 +:+ (if isBlockSymbol symbol then "" else svgHtml)
    +:+ nl 16 +:+ paramsDisplay
    +:+ nl 16 +:+ addressDisplay
    +:+ nl 16 +:+ "<span " +:+ attr "class" "cell-value" +:+ " "
          +:+ attr "style" "display:none;" +:+ "></span>"
    +:+ nl 12 +:+ "</div>"
    +:+ nl 8).

(** One pass of the row loop (part_000, 134-157). *)
Definition rowHtml (row : Z * list Cell) : Completion string :=
  cellsHtml ← concatM createCellHtml row.2;
  Normal ("<div " +:+ attr "class" "ladder-row" +:+ " "
          +:+ attr "data-row" (Z_toString row.1) +:+ ">"
          +:+ (if row.1 =? 0 then "<div " +:+ attr "class" "power-rail left" +:+ "></div>"
               else "")
          +:+ cellsHtml
          +:+ (if row.1 =? 0 then "<div " +:+ attr "class" "power-rail right" +:+ "></div>"
               else "")
          +:+ "</div>").

Definition rungHtml (rung : Rung) (cellsHtml : string) : string :=
  let rungNum := Z_toString (rungnum rung) in
  let comment := str_or (rung_comment rung) "" in
  nl 12 +:+ "<div " +:+ attr "class" "ladder-rung" +:+ " "
        +:+ attr "id" ("rung-" +:+ rungNum) +:+ " "
        +:+ attr "data-rungnum" rungNum +:+ ">"
  +:+ nl 16 +:+ "<div " +:+ attr "class" "rung-header" +:+ ">"
  +:+ nl 20 +:+ "<span " +:+ attr "class" "rung-number" +:+ ">Network " +:+ rungNum +:+ "</span>"
  +:+ nl 20 +:+ (if truthy comment then
                   "<span " +:+ attr "class" "rung-comment" +:+ ">"
                   +:+ escapeHtml comment +:+ "</span>"
                 else "")
  +:+ nl 16 +:+ "</div>"
  +:+ nl 16 +:+ "<div " +:+ attr "class" "ladder-grid" +:+ ">"
  +:+ nl 20 +:+ cellsHtml
  +:+ nl 16 +:+ "</div>"
  +:+ nl 12 +:+ "</div>"
  +:+ nl 8.

(** [createRungHtml(rung)] (part_000, 114-171) *)
Definition createRungHtml (rung : Rung) : Completion string :=
  cellsHtml ← concatM rowHtml (rowGroups rung);
  Normal (rungHtml rung cellsHtml).

End Renderer.

End Legacy.

(** ** The variant with row grouping and block cells (src/unnamed/part_001, 1-308)

    Its [createRungHtml] groups and sorts the cells as the earlier
    variant does; its [createCellHtml] asks [LadSymbols.isBlockSymbol]. *)

Module Grouped.

Section Renderer.

Variable LadSymbols : LadSymbolsObject.

Definition BLOCK_CELL_WIDTH : Z := 140.
Definition BLOCK_CELL_HEIGHT : Z := 80.

Definition call_getSymbol (name stateClass : string) : Completion string :=
  match member_getSymbol LadSymbols with
  | Some f => Normal (f name stateClass)
  | None => Throw (TypeError "LadSymbols.getSymbol is not a function")
  end.

(** [isBlockSymbol(symbol)] (part_001, 43-45) *)
Definition isBlockSymbol (symbol : string) : Completion bool :=
  match member_isBlockSymbol LadSymbols with
  | Some f => Normal (f symbol)
  | None => Throw (TypeError "LadSymbols.isBlockSymbol is not a function")
  end.

(** [createCellHtml(cell)] (part_001, 52-105) *)
Definition createCellHtml (cell : Cell) : Completion string :=
  let symbol := str_or (cell_symbol cell) "il" in
  let address := str_or (cell_addr cell) "" in
  let addresses := arr_or (cell_addrs cell) in
  let opcode := str_or (cell_opcode cell) "" in
  let params := arr_or (cell_params cell) in
  let cellType := str_or (cell_type cell) "unknown" in
  blk ← isBlockSymbol symbol;
  let isBlock := blk || bool_decide (cellType = "block") in
  let cellId := "cell-" +:+ Legacy.prop_toString (cell_row cell)
                +:+ "-" +:+ Legacy.prop_toString (cell_col cell) in
  let cellClass := if isBlock then "ladder-cell ladder-block-cell" else "ladder-cell" in
  let cellStyle :=
    if isBlock then
      "width: " +:+ Z_toString BLOCK_CELL_WIDTH +:+ "px; height: "
      +:+ Z_toString BLOCK_CELL_HEIGHT +:+ "px;"
    else "" in
  svgHtml ← call_getSymbol symbol "MB_ladderoff";
  let addressDisplay :=
    if truthy address then
      "<span " +:+ attr "class" "cell-address" +:+ ">" +:+ escapeHtml address +:+ "</span>"
    else match addresses with
         | a0 :: _ =>
             "<span " +:+ attr "class" "cell-address" +:+ ">" +:+ escapeHtml a0 +:+ "</span>"
         | [] => ""
         end in
  let paramsDisplay :=
    if isBlock && bool_decide (params ≠ []) then
      let displayParams := join " " (take 4 params) in
      "<span " +:+ attr "class" "block-params" +:+ ">" +:+ escapeHtml displayParams +:+ "</span>"
    else "" in
  let dataAttrs :=
    match addresses with
    | _ :: _ => attr "data-addresses" (escapeHtml (join "," addresses))
    | [] => ""
    end in
  Normal (
    nl 12 +:+ "<div " +:+ attr "id" cellId +:+ " "
          +:+ attr "class" (cellClass +:+ " MB_ladderoff")
    +:+ nl 17 +:+ dataAttrs
    +:+ nl 17 +:+ attr "data-opcode" (escapeHtml opcode)
    +:+ nl 17 +:+ attr "data-symbol" (escapeHtml symbol)
    +:+ nl 17 +:+ attr "style" cellStyle +:+ ">"
    +:+ nl 16 +:+ "<div " +:+ attr "class" "cell-symbol" +:+ ">"
    +:+ nl 20 +:+ svgHtml
    +:+ nl 16 +:+ "</div>"
    +:+ nl 16 +:+ paramsDisplay
    +:+ nl 16 +:+ addressDisplay
    +:+ nl 16 +:+ "<span " +:+ attr "class" "cell-value" +:+ "></span>"
    +:+ nl 12 +:+ "</div>"
    +:+ nl 8).

(** One pass of the row loop (part_001, 132-146). *)
Definition rowHtml (row : Z * list Cell) : Completion string :=
  let rowClass := if row.1 =? 0 then "ladder-row ladder-row-main"
                  else "ladder-row ladder-row-branch" in
  cellsHtml ← concatM createCellHtml row.2;
  Normal ("<div " +:+ attr "class" rowClass +:+ " "
          +:+ attr "data-row" (Z_toString row.1) +:+ ">"
          +:+ cellsHtml +:+ "</div>").

Definition rungHtml (rung : Rung) (cellsHtml : string) : string :=
  let rungNum := Z_toString (rungnum rung) in
  let comment := str_or (rung_comment rung) "" in
  nl 12 +:+ "<div " +:+ attr "class" "ladder-rung" +:+ " "
        +:+ attr "id" ("rung-" +:+ rungNum) +:+ " "
        +:+ attr "data-rungnum" rungNum +:+ ">"
  +:+ nl 16 +:+ "<div " +:+ attr "class" "rung-header" +:+ ">"
  +:+ nl 20 +:+ "<span " +:+ attr "class" "rung-number" +:+ ">Network " +:+ rungNum +:+ "</span>"
  +:+ nl 20 +:+ (if truthy comment then
                   "<span " +:+ attr "class" "rung-comment" +:+ ">"
                   +:+ escapeHtml comment +:+ "</span>"
                 else "")
  +:+ nl 16 +:+ "</div>"
  +:+ nl 16 +:+ "<div " +:+ attr "class" "ladder-grid" +:+ ">"
  +:+ nl 20 +:+ "<div " +:+ attr "class" "power-rail left" +:+ "></div>"
  +:+ nl 20 +:+ cellsHtml
  +:+ nl 20 +:+ "<div " +:+ attr "class" "power-rail right" +:+ "></div>"
  +:+ nl 16 +:+ "</div>"
  +:+ nl 12 +:+ "</div>"
  +:+ nl 8.

(** [createRungHtml(rung)] (part_001, 112-162) *)
Definition createRungHtml (rung : Rung) : Completion string :=
  cellsHtml ← concatM rowHtml (Legacy.rowGroups rung);
  Normal (rungHtml rung cellsHtml).

End Renderer.

End Grouped.

(** ** The display library (src/static/js/ladsubrdisplib.js) *)

Module SubrDispControl.

(** *** Program state: [currentProgram], [currentAddresses] *)

Record State : Type := mkState {
  currentProgram : option ProgramData;
  currentAddresses : list string
}.

(** The state when the script has been loaded. *)
Definition initial : State := mkState None [].

(** [setProgram(programData)] (23-28); [None] is a [null] argument. *)
Definition setProgram (programData : option ProgramData) (st : State) : State :=
  let st1 := mkState programData (currentAddresses st) in
  match programData with
  | Some p =>
      match addresses p with
      | Some l => mkState (currentProgram st1) l
      | None => st1
      end
  | None => st1
  end.

(** [getMonitorAddresses()] (34-36) *)
Definition getMonitorAddresses (st : State) : list string := currentAddresses st.

(** *** Rendering *)

Inductive Entry : Type :=
| ECell (cell : Cell)          (* the placed cell: [createCellHtml(cell)] *)
| ESpacer (r c : Z)            (* [createSpacerHtml(r, c)] *)
| EEmpty (r c : Z).            (* the [ladder-empty] placeholder *)

Record Connector : Type := mkConnector {
  conn_col : Z;
  conn_startRow : Z;
  conn_endRow : Z
}.

Definition rowOf (cell : Cell) : Z := num_or (cell_row cell) 0.
Definition colOf (cell : Cell) : Z := num_or (cell_col cell) 0.

(** [branchCols.add(col)]: a [Set] iterates in insertion order. *)
Definition set_add (x : Z) (s : list Z) : list Z :=
  if bool_decide (x ∈ s) then s else s ++ [x].

Section Renderer.

(** The global [LadSymbols] the page has loaded. *)
Variable LadSymbols : LadSymbolsObject.

(** [LadSymbols.getSymbol(name, stateClass)] *)
Definition call_getSymbol (name stateClass : string) : Completion string :=
  match member_getSymbol LadSymbols with
  | Some f => Normal (f name stateClass)
  | None => Throw (TypeError "LadSymbols.getSymbol is not a function")
  end.

(** [isBlockSymbol(symbol)] (43-45): [return LadSymbols.isBlockSymbol(symbol)] *)
Definition isBlockSymbol (symbol : string) : Completion bool :=
  match member_isBlockSymbol LadSymbols with
  | Some f => Normal (f symbol)
  | None => Throw (TypeError "LadSymbols.isBlockSymbol is not a function")
  end.

(** [createCellHtml(cell)] (52-107) *)
Definition createCellHtml (cell : Cell) : Completion string :=
  let symbol := str_or (cell_symbol cell) "il" in
  let address := str_or (cell_addr cell) "" in
  let addresses := arr_or (cell_addrs cell) in
  let opcode := str_or (cell_opcode cell) "" in
  let params := arr_or (cell_params cell) in
  let cellType := str_or (cell_type cell) "unknown" in
  blk ← isBlockSymbol symbol;
  let isBlock := blk || bool_decide (cellType = "block") in
  let row := rowOf cell in
  let col := colOf cell in
  let cellId := "cell-" +:+ Z_toString row +:+ "-" +:+ Z_toString col in
  let cellClass := if isBlock then "ladder-cell ladder-block-cell" else "ladder-cell" in
  svgHtml ← call_getSymbol symbol "MB_ladderoff";
  let addressDisplay :=
    if truthy address then
      "<span " +:+ attr "class" "cell-address" +:+ ">" +:+ escapeHtml address +:+ "</span>"
    else match addresses with
         | a0 :: _ =>
             "<span " +:+ attr "class" "cell-address" +:+ ">" +:+ escapeHtml a0 +:+ "</span>"
         | [] => ""
         end in
  let paramsDisplay :=
    if isBlock && bool_decide (params ≠ []) then
      let displayParams := join " " (take 4 params) in
      "<span " +:+ attr "class" "block-params" +:+ ">" +:+ escapeHtml displayParams +:+ "</span>"
    else "" in
  let dataAttrs :=
    match addresses with
    | _ :: _ => attr "data-addresses" (escapeHtml (join "," addresses))
    | [] => ""
    end in
  Normal (
    nl 12 +:+ "<div " +:+ attr "id" cellId +:+ " "
          +:+ attr "class" (cellClass +:+ " MB_ladderoff")
    +:+ nl 17 +:+ dataAttrs
    +:+ nl 17 +:+ attr "data-opcode" (escapeHtml opcode)
    +:+ nl 17 +:+ attr "data-symbol" (escapeHtml symbol)
    +:+ nl 17 +:+ attr "data-row" (Z_toString row)
    +:+ nl 17 +:+ attr "data-col" (Z_toString col) +:+ ">"
    +:+ nl 16 +:+ "<div " +:+ attr "class" "cell-symbol" +:+ ">"
    +:+ nl 20 +:+ svgHtml
    +:+ nl 16 +:+ "</div>"
    +:+ nl 16 +:+ paramsDisplay
    +:+ nl 16 +:+ addressDisplay
    +:+ nl 16 +:+ "<span " +:+ attr "class" "cell-value" +:+ "></span>"
    +:+ nl 12 +:+ "</div>"
    +:+ nl 8).

(** [createSpacerHtml(row, col)] (115-119) *)
Definition createSpacerHtml (row col : Z) : Completion string :=
  svg ← call_getSymbol "hline" "MB_ladderoff";
  Normal ("<div " +:+ attr "class" "ladder-spacer" +:+ " "
          +:+ attr "data-row" (Z_toString row) +:+ " "
          +:+ attr "data-col" (Z_toString col) +:+ ">"
          +:+ nl 12 +:+ svg
          +:+ nl 8 +:+ "</div>").

(** [createBranchConnector(col, startRow, endRow)] (128-134) *)
Definition createBranchConnector (col startRow endRow : Z) : string :=
  "<div " +:+ attr "class" "branch-connector"
  +:+ nl 21 +:+ attr "data-col" (Z_toString col)
  +:+ nl 21 +:+ attr "data-start-row" (Z_toString startRow)
  +:+ nl 21 +:+ attr "data-end-row" (Z_toString endRow)
  +:+ nl 21 +:+ attr "style"
        ("--col: " +:+ Z_toString col +:+ "; --start-row: " +:+ Z_toString startRow
         +:+ "; --end-row: " +:+ Z_toString endRow +:+ ";")
  +:+ "></div>".

(** **** The grid of [createRungHtml] (141-217)

    [grid] is an array of row arrays. Reading or writing [grid[r][c]]
    throws when [grid[r]] is undefined; writing at a column that is not
    an index of the row array (a negative one) stores a property on the
    array object, which [grid[r][c]] reads back. *)

Definition gridRow (grid : gmap Z (gmap Z Cell)) (r : Z) : Completion (gmap Z Cell) :=
  match grid !! r with
  | Some arr => Normal arr
  | None => Throw (TypeError "Cannot access a property of undefined")
  end.

(** [new Array(cols).fill(null)] *)
Definition newRow (cols : Z) : Completion (gmap Z Cell) :=
  if (cols <? 0) || (4294967295 <? cols)
  then Throw (RangeError "Invalid array length")
  else Normal ∅.

(** [for (r = 0; r < rows; r++) grid[r] = new Array(cols).fill(null)] *)
Definition buildGrid (rows cols : Z) : Completion (gmap Z (gmap Z Cell)) :=
  forEachM (λ grid r, arr ← newRow cols; Normal (<[r := arr]> grid)) (seqZ 0 rows) ∅.

(** The body of [cells.forEach] (156-166). *)
Definition placeCell (rows cols : Z) (st : gmap Z (gmap Z Cell) * list Z) (cell : Cell)
  : Completion (gmap Z (gmap Z Cell) * list Z) :=
  let row := rowOf cell in
  let col := colOf cell in
  if (row <? rows) && (col <? cols) then
    arr ← gridRow st.1 row;
    Normal (<[row := <[col := cell]> arr]> st.1,
            if 0 <? row then set_add col st.2 else st.2)
  else Normal st.

Definition placeCells (rows cols : Z) (cells : list Cell) (grid : gmap Z (gmap Z Cell))
  : Completion (gmap Z (gmap Z Cell) * list Z) :=
  forEachM (placeCell rows cols) cells (grid, []).

(** The inner loop of the branch rows (184-190). *)
Definition hasLaterContent (arr : gmap Z Cell) (cols c : Z) : bool :=
  existsb (λ cc, bool_decide (is_Some (arr !! cc))) (seqZ (c + 1) (cols - (c + 1))).

(** What the column loop (174-198) emits at [(r, c)]. *)
Definition entryAt (arr : gmap Z Cell) (branchCols : list Z) (cols r c : Z) : Entry :=
  match arr !! c with
  | Some cell => ECell cell
  | None =>
      if r =? 0 then ESpacer r c
      else if hasLaterContent arr cols c || bool_decide (c ∈ branchCols)
           then ESpacer r c
           else EEmpty r c
  end.

Definition rowEntries (grid : gmap Z (gmap Z Cell)) (branchCols : list Z) (cols r : Z)
  : Completion (list Entry) :=
  arr ← gridRow grid r;
  Normal (map (entryAt arr branchCols cols r) (seqZ 0 cols)).

(** The row scan of one branch column (207-213). *)
Definition maxRowOf (grid : gmap Z (gmap Z Cell)) (rows col : Z) : Completion Z :=
  forEachM (λ maxRow r, arr ← gridRow grid r;
                        Normal (if bool_decide (is_Some (arr !! col)) then r else maxRow))
           (seqZ 0 rows) 0.

(** [branchCols.forEach] (205-217) *)
Definition connectors (grid : gmap Z (gmap Z Cell)) (branchCols : list Z) (rows : Z)
  : Completion (list Connector) :=
  forEachM (λ acc col,
              let minRow := 0 in
              maxRow ← maxRowOf grid rows col;
              Normal (if minRow <? maxRow then acc ++ [mkConnector col minRow maxRow] else acc))
           branchCols [].

Record Layout : Type := mkLayout {
  layout_rows : list (Z * list Entry);
  layout_connectors : list Connector
}.

Definition rungRows (rung : Rung) : Z := num_or (rung_rows rung) 1.
Definition rungCols (rung : Rung) : Z := num_or (rung_cols rung) 1.

(** What [createRungHtml] decides to emit, before it is written out as
    markup: for every row the entries of its columns, and the connectors
    in the order they are appended. *)
Definition rungLayout (rung : Rung) : Completion Layout :=
  let cells := arr_or (rung_cells rung) in
  let rows := rungRows rung in
  let cols := rungCols rung in
  grid0 ← buildGrid rows cols;
  placed ← placeCells rows cols cells grid0;
  rws ← forEachM (λ acc r, es ← rowEntries placed.1 placed.2 cols r;
                           Normal (acc ++ [(r, es)])) (seqZ 0 rows) [];
  conns ← connectors placed.1 placed.2 rows;
  Normal (mkLayout rws conns).

(** **** Writing the layout out (170-201, 215, 220-235) *)

Definition emptyHtml (r c : Z) : string :=
  "<div " +:+ attr "class" "ladder-empty" +:+ " "
  +:+ attr "data-row" (Z_toString r) +:+ " "
  +:+ attr "data-col" (Z_toString c) +:+ "></div>".

Definition entryHtml (e : Entry) : Completion string :=
  match e with
  | ECell cell => createCellHtml cell
  | ESpacer r c => createSpacerHtml r c
  | EEmpty r c => Normal (emptyHtml r c)
  end.

Definition rowHtml (row : Z * list Entry) : Completion string :=
  let rowClass := if row.1 =? 0 then "ladder-row ladder-row-main"
                  else "ladder-row ladder-row-branch" in
  rowCellsHtml ← concatM entryHtml row.2;
  Normal ("<div " +:+ attr "class" rowClass +:+ " "
          +:+ attr "data-row" (Z_toString row.1) +:+ ">"
          +:+ rowCellsHtml +:+ "</div>").

Definition connectorHtml (k : Connector) : string :=
  createBranchConnector (conn_col k) (conn_startRow k) (conn_endRow k).

Definition commentHtml (comment : string) : string :=
  if truthy comment then
    "<span " +:+ attr "class" "rung-comment" +:+ ">" +:+ escapeHtml comment +:+ "</span>"
  else "".

Definition rungHtml (rung : Rung) (rowsHtml connectorsHtml : string) : string :=
  let rungNum := Z_toString (rungnum rung) in
  let comment := str_or (rung_comment rung) "" in
  let rows := Z_toString (rungRows rung) in
  let cols := Z_toString (rungCols rung) in
  nl 12 +:+ "<div " +:+ attr "class" "ladder-rung" +:+ " "
        +:+ attr "id" ("rung-" +:+ rungNum) +:+ " "
        +:+ attr "data-rungnum" rungNum +:+ " "
        +:+ attr "data-rows" rows +:+ " "
        +:+ attr "data-cols" cols +:+ ">"
  +:+ nl 16 +:+ "<div " +:+ attr "class" "rung-header" +:+ ">"
  +:+ nl 20 +:+ "<span " +:+ attr "class" "rung-number" +:+ ">Network " +:+ rungNum +:+ "</span>"
  +:+ nl 20 +:+ commentHtml comment
  +:+ nl 16 +:+ "</div>"
  +:+ nl 16 +:+ "<div " +:+ attr "class" "ladder-grid" +:+ " "
        +:+ attr "style" ("--cols: " +:+ cols +:+ "; --rows: " +:+ rows +:+ ";") +:+ ">"
  +:+ nl 20 +:+ "<div " +:+ attr "class" "power-rail left" +:+ "></div>"
  +:+ nl 20 +:+ "<div " +:+ attr "class" "ladder-content" +:+ ">"
  +:+ nl 24 +:+ rowsHtml
  +:+ nl 24 +:+ connectorsHtml
  +:+ nl 20 +:+ "</div>"
  +:+ nl 20 +:+ "<div " +:+ attr "class" "power-rail right" +:+ "></div>"
  +:+ nl 16 +:+ "</div>"
  +:+ nl 12 +:+ "</div>"
  +:+ nl 8.

(** [createRungHtml(rung)] (141-236). The grid is built and filled
    first; the rows are then written out, which is where
    [createCellHtml] can throw; the connector scan reads rows of the
    grid that exist (see [maxRowOf_normal]) and never throws. *)
Definition createRungHtml (rung : Rung) : Completion string :=
  layout ← rungLayout rung;
  rowsHtml ← concatM rowHtml (layout_rows layout);
  let connectorsHtml := String.concat "" (map connectorHtml (layout_connectors layout)) in
  Normal (rungHtml rung rowsHtml connectorsHtml).

Definition noProgramHtml : string :=
  nl 16 +:+ "<div " +:+ attr "class" "no-program" +:+ ">"
  +:+ nl 20 +:+ "<h3>No Program Loaded</h3>"
  +:+ nl 20 +:+ "<p>Start the web server with a program:</p>"
  +:+ nl 20 +:+ "<code>(mblogic-cl-web:quick-start " +:+ dq +:+ "test/plcprog.txt" +:+ dq
        +:+ " :port 8080)</code>"
  +:+ nl 16 +:+ "</div>"
  +:+ nl 12.

Definition errorHtml (message : string) : string :=
  "<div " +:+ attr "class" "error-message" +:+ ">" +:+ escapeHtml message +:+ "</div>".

Definition noRungsHtml : string :=
  "<div " +:+ attr "class" "no-program" +:+ "><p>No rungs in this subroutine</p></div>".

(** [createRungList(programData)] (243-271): the new program state and
    the markup (or the exception). *)
Definition createRungList (programData : option ProgramData) (st : State)
  : State * Completion string :=
  let st' := setProgram programData st in
  (st',
   match programData with
   | None => Normal noProgramHtml
   | Some p =>
       match subrdata p with
       | None => Normal noProgramHtml
       | Some rungs =>
           if truthy (default "" (error p)) then Normal (errorHtml (default "" (error p)))
           else match rungs with
                | [] => Normal noRungsHtml
                | _ => concatM createRungHtml rungs
                end
       end
   end).

End Renderer.

(** *** Live update: [updateCellStates] (289-344), [formatValue] (351-359) *)

(** A value of the address-to-value object. An object that is not a
    primitive is carried with the string [String(value)] gives for it. *)
Inductive JsValue : Type :=
| JUndefined
| JNull
| JBool (b : bool)
| JNum (x : PrimFloat.float)
| JStr (s : string)
| JObject (toStr : string).

(** The object [updateCellStates] is given. [addr in dataValues] and
    [dataValues[addr]] find the properties the object has itself and
    those it inherits through its prototype chain; a property of its own
    hides an inherited one of the same name. *)
Record JsObject : Type := mkObject {
  ownProperties : gmap string JsValue;
  inheritedProperties : gmap string JsValue
}.

(** [dataValues !! addr] is [Some (dataValues[addr])] when
    [addr in dataValues], and [None] when it is not. *)
#[global] Instance JsObject_lookup : Lookup string JsValue JsObject := λ addr dataValues,
  match ownProperties dataValues !! addr with
  | Some value => Some value
  | None => inheritedProperties dataValues !! addr
  end.

(** What an object literal or a result of [JSON.parse] inherits: the
    properties of [Object.prototype]. The methods are functions, whose
    string is the host's; [__proto__] gives [Object.prototype] itself. *)
Definition Object_prototype (Function_toString : string → string) : gmap string JsValue :=
  list_to_map
    [("constructor", JObject (Function_toString "Object"));
     ("hasOwnProperty", JObject (Function_toString "hasOwnProperty"));
     ("isPrototypeOf", JObject (Function_toString "isPrototypeOf"));
     ("propertyIsEnumerable", JObject (Function_toString "propertyIsEnumerable"));
     ("toLocaleString", JObject (Function_toString "toLocaleString"));
     ("toString", JObject (Function_toString "toString"));
     ("valueOf", JObject (Function_toString "valueOf"));
     ("__proto__", JObject "[object Object]");
     ("__defineGetter__", JObject (Function_toString "__defineGetter__"));
     ("__defineSetter__", JObject (Function_toString "__defineSetter__"));
     ("__lookupGetter__", JObject (Function_toString "__lookupGetter__"));
     ("__lookupSetter__", JObject (Function_toString "__lookupSetter__"))].

(** The plain object with the given properties of its own. *)
Definition plainObject (Function_toString : string → string) (own : gmap string JsValue)
  : JsObject :=
  mkObject own (Object_prototype Function_toString).

(** [value !== 0] on a number: IEEE comparison, so [-0] equals [0] and
    [NaN] differs from it. *)
Definition num_nonzero (x : PrimFloat.float) : bool :=
  negb (PrimFloat.eqb x PrimFloat.zero).

(** [Number.isInteger(value)]: finite, with no fractional part. *)
Definition Number_isInteger (x : PrimFloat.float) : bool :=
  match FloatOps.Prim2SF x with
  | SpecFloat.S754_zero _ => true
  | SpecFloat.S754_finite _ m e => (0 <=? e) || (Z.pos m mod 2 ^ (- e) =? 0)
  | _ => false
  end.

(** The part of the page the pass reads and writes. *)
Record Element : Type := mkElement {
  tagName : string;
  classList : list string
}.

Record SvgElement : Type := mkSvg {
  svg_classList : list string;
  svg_descendants : list Element      (* in document order *)
}.

Record ValueElement : Type := mkValue {
  textContent : string;
  style_display : string
}.

(** An element of the page with what [updateCellStates] looks at: its
    classes, its [data-addresses] attribute, its first [svg] descendant
    and its first descendant of class [cell-value]. *)
Record CellElement : Type := mkCellElement {
  cell_classList : list string;
  data_addresses : option string;
  cell_svg : option SvgElement;
  cell_value : option ValueElement
}.

(** [s.split(sep)] on a one-character separator. *)
Fixpoint split (sep : ascii) (s : string) : list string :=
  match s with
  | EmptyString => [""]
  | String a s' =>
      if Ascii.eqb a sep then "" :: split sep s'
      else match split sep s' with
           | h :: t => String a h :: t
           | [] => [String a ""]
           end
  end.

Definition MB_ladderoff : string := "MB_ladderoff".
Definition MB_ladderon : string := "MB_ladderon".

(** [classList.remove(a, b)] *)
Definition classList_remove (a b : string) (cl : list string) : list string :=
  filter (λ c, c ≠ a ∧ c ≠ b) cl.

(** [classList.add(a)]: a token list holds each token once. *)
Definition classList_add (a : string) (cl : list string) : list string :=
  if bool_decide (a ∈ cl) then cl else cl ++ [a].

(** [el.classList.remove('MB_ladderoff', 'MB_ladderon');
     el.classList.add(isOn ? 'MB_ladderon' : 'MB_ladderoff')] *)
Definition setStateClass (isOn : bool) (cl : list string) : list string :=
  classList_add (if isOn then MB_ladderon else MB_ladderoff)
                (classList_remove MB_ladderoff MB_ladderon cl).

(** The selector ['line, circle, rect, text']. *)
Definition isStroke (el : Element) : bool :=
  bool_decide (tagName el ∈ ["line"; "circle"; "rect"; "text"]).

(** The body of [addresses.forEach] (302-314) on [(isOn, displayValue)];
    [addr in dataValues] is a lookup through the prototype chain. *)
Definition scanAddress (dataValues : JsObject)
    (acc : bool * option JsValue) (addr : string) : bool * option JsValue :=
  match dataValues !! addr with
  | None => acc
  | Some value =>
      match value with
      | JBool b => (if b then true else acc.1, acc.2)
      | JNum x => (if num_nonzero x then true else acc.1, Some value)
      | JNull | JUndefined => acc
      | _ => (acc.1, Some value)
      end
  end.

Definition scanAddresses (dataValues : JsObject) (addresses : list string)
  : bool * option JsValue :=
  foldl (scanAddress dataValues) (false, None) addresses.

(** [addressesStr.split(',').filter(a => a)] *)
Definition parseAddresses (addressesStr : string) : list string :=
  filter (λ a, truthy a = true) (split "," addressesStr).

(** The addresses a page element monitors: none when the pass returns
    early on it (291-296). *)
Definition monitored (cell : CellElement) : list string :=
  if bool_decide ("ladder-cell" ∈ cell_classList cell) then
    match data_addresses cell with
    | Some addressesStr => if truthy addressesStr then parseAddresses addressesStr else []
    | None => []
    end
  else [].

Section Host.

(** The host's [Number.prototype.toString] and [Number.prototype.toFixed]. *)
Variable Number_toString : PrimFloat.float → string.
Variable Number_toFixed : PrimFloat.float → Z → string.

(** [formatValue(value)] (351-359); [String(value)] on the values that
    are not numbers. *)
Definition formatValue (value : JsValue) : string :=
  match value with
  | JNum x => if Number_isInteger x then Number_toString x else Number_toFixed x 2
  | JStr s => s
  | JObject toStr => toStr
  | JBool true => "true"
  | JBool false => "false"
  | JNull => "null"
  | JUndefined => "undefined"
  end.

(** The writes of the pass on one cell (316-342): the state class on
    the cell, on its [svg] and on the strokes inside it, and the value
    display. *)
Definition applyState (isOn : bool) (displayValue : option JsValue) (cell : CellElement)
  : CellElement :=
  {| cell_classList := setStateClass isOn (cell_classList cell);
     data_addresses := data_addresses cell;
     cell_svg :=
       (λ svg, {| svg_classList := setStateClass isOn (svg_classList svg);
                  svg_descendants :=
                    map (λ el, if isStroke el
                               then mkElement (tagName el) (setStateClass isOn (classList el))
                               else el)
                        (svg_descendants svg) |}) <$> cell_svg cell;
     cell_value :=
       (λ valueEl,
          match displayValue with
          | Some v => mkValue (formatValue v) "block"
          | None => mkValue (textContent valueEl) "none"
          end) <$> cell_value cell |}.

(** The body of [querySelectorAll('.ladder-cell').forEach] (291-343). *)
Definition updateCell (dataValues : JsObject) (cell : CellElement) : CellElement :=
  match monitored cell with
  | [] => cell
  | addresses =>
      let '(isOn, displayValue) := scanAddresses dataValues addresses in
      applyState isOn displayValue cell
  end.

(** [updateCellStates(dataValues)] on the elements of the page. *)
Definition updateCellStates (dataValues : JsObject) (page : list CellElement)
  : list CellElement :=
  map (updateCell dataValues) page.

End Host.

End SubrDispControl.

(** ** The live update of the earlier variant (src/unnamed/part_000, 224-268)

    The scan of the addresses (237-249) and [formatValue] (275-283) are,
    line for line, those of ladsubrdisplib.js. The writes differ. *)

Module LegacyUpdate.

Import SubrDispControl.

(** The first descendant of class [cell-value]. *)
Record ValueSpan : Type := mkValueSpan {
  span_classList : list string;
  span_text : string;
  span_display : string
}.

(** An element of the page with what the pass looks at: its classes, its
    [data-addresses] attribute, its descendant elements in document order
    (the value span apart) and the value span. *)
Record BlockElement : Type := mkBlockElement {
  block_classList : list string;
  block_data_addresses : option string;
  block_descendants : list Element;
  block_value : option ValueSpan
}.

(** The selector ['.MB_ladderoff, .MB_ladderon']. *)
Definition hasStateClass (cl : list string) : bool :=
  bool_decide (MB_ladderoff ∈ cl) || bool_decide (MB_ladderon ∈ cl).

Definition restate (isOn : bool) (cl : list string) : list string :=
  if hasStateClass cl then setStateClass isOn cl else cl.

(** The addresses an element monitors: none when it is not selected by
    ['.ladder-cell, .ladder-block'] or the pass returns early on it
    (226-231). *)
Definition monitored (cell : BlockElement) : list string :=
  if bool_decide ("ladder-cell" ∈ block_classList cell)
     || bool_decide ("ladder-block" ∈ block_classList cell) then
    match block_data_addresses cell with
    | Some addressesStr => if truthy addressesStr then parseAddresses addressesStr else []
    | None => []
    end
  else [].

Section Host.

Variable Number_toString : PrimFloat.float → string.
Variable Number_toFixed : PrimFloat.float → Z → string.

(** The writes of the pass on one element (251-266). The descendants are
    selected after the element itself has been given its class. *)
Definition applyState (isOn : bool) (displayValue : option JsValue) (cell : BlockElement)
  : BlockElement :=
  {| block_classList := setStateClass isOn (block_classList cell);
     block_data_addresses := block_data_addresses cell;
     block_descendants :=
       map (λ el, mkElement (tagName el) (restate isOn (classList el)))
           (block_descendants cell);
     block_value :=
       (λ valueEl,
          let cl := restate isOn (span_classList valueEl) in
          match displayValue with
          | Some v => mkValueSpan cl (formatValue Number_toString Number_toFixed v) "block"
          | None => mkValueSpan cl (span_text valueEl) (span_display valueEl)
          end) <$> block_value cell |}.

Definition updateCell (dataValues : JsObject) (cell : BlockElement)
  : BlockElement :=
  match monitored cell with
  | [] => cell
  | addresses =>
      let '(isOn, displayValue) := scanAddresses dataValues addresses in
      applyState isOn displayValue cell
  end.

(** [updateCellStates(dataValues)] on the elements of the page. *)
Definition updateCellStates (dataValues : JsObject) (page : list BlockElement)
  : list BlockElement :=
  map (updateCell dataValues) page.

End Host.

End LegacyUpdate.

(** * Vocabulary of the statements, and example inputs *)

Import SubrDispControl.

(** A program without an [addresses] field, and one that has it. *)
Definition program_no_addresses : ProgramData := mkProgram None (Some []) None.
Definition program_X1 : ProgramData := mkProgram (Some ["X1"]) (Some []) None.

(** The state tags among the classes of an element. *)
Definition stateTags (cl : list string) : list string :=
  filter (λ c, c = MB_ladderoff ∨ c = MB_ladderon) cl.

Definition stateTag (isOn : bool) : string := if isOn then MB_ladderon else MB_ladderoff.

(** The element carries the state tag [t] and no other. *)
Definition tagged (t : string) (cl : list string) : Prop := stateTags cl = [t].

(** The value a cell displays: the text of its value element unless that
    element is hidden. *)
Definition shownValue (cell : CellElement) : option string :=
  match cell_value cell with
  | Some v => if bool_decide (style_display v = "none") then None else Some (textContent v)
  | None => None
  end.

(** What of a cell the live update is observed by: its tags and those of
    its graphic, and the value it displays. *)
Definition observe (cell : CellElement) : list string * option SvgElement * option string :=
  (cell_classList cell, cell_svg cell, shownValue cell).

(** A host number printer for running examples. [toString] prints the
    integral values (those [formatValue] passes to it) by their decimal
    digits, as the host does below 2^53; [toFixed] rounds half up at the
    requested digit, as the host does. *)
Module ExampleHost.

(** The sign and magnitude of a finite number as [m * 2^e]. *)
Definition decompose (x : PrimFloat.float) : option (bool * Z * Z) :=
  match FloatOps.Prim2SF x with
  | SpecFloat.S754_zero s => Some (s, 0, 0)
  | SpecFloat.S754_finite s m e => Some (s, Z.pos m, e)
  | _ => None
  end.

Definition toString (x : PrimFloat.float) : string :=
  match decompose x with
  | Some (s, m, e) =>
      let n := if 0 <=? e then m * 2 ^ e else m / 2 ^ (- e) in
      (if s && negb (n =? 0) then "-" else "") +:+ Z_toString n
  | None => "NaN"
  end.

Fixpoint zeros (n : nat) : string :=
  match n with
  | O => ""
  | S n' => String "0"%char (zeros n')
  end.

Definition toFixed (x : PrimFloat.float) (digits : Z) : string :=
  match decompose x with
  | Some (s, m, e) =>
      let scaled := m * 10 ^ digits in
      let n := if 0 <=? e then scaled * 2 ^ e
               else (2 * scaled + 2 ^ (- e)) / (2 * 2 ^ (- e)) in
      let whole := Z_toString (n / 10 ^ digits) in
      let frac := Z_toString (n mod 10 ^ digits) in
      (if s && negb (m =? 0) then "-" else "") +:+ whole +:+ "."
      +:+ zeros (Z.to_nat digits - String.length frac) +:+ frac
  | None => "NaN"
  end.

(** The string of a built-in function. *)
Definition functionToString (name : string) : string :=
  "function " +:+ name +:+ "() { [native code] }".

(** A snapshot as the page receives it: a plain object. *)
Definition snapshot (own : gmap string JsValue) : JsObject :=
  plainObject functionToString own.

End ExampleHost.

(** The element the HTML parser builds from the [svg] markup of
    [LadSymbols.getSymbol(name, 'MB_ladderoff')]: the [svg] with its two
    classes, and one element per primitive with the state class. *)
Definition mountSymbol (symbolName : string) : SvgElement :=
  mkSvg ["ladder-symbol"; MB_ladderoff]
        (map (λ p, mkElement (LadSymbols.prim_tag p) [MB_ladderoff])
             (LadSymbols.symbolPrims symbolName)).

(** The element the HTML parser builds from the markup of [createCellHtml]
    for a cell of the given symbol, drawn as a block or not, with the given
    [data-addresses] attribute. *)
Definition mountCell (isBlock : bool) (symbol : string) (dataAddresses : option string)
  : CellElement :=
  {| cell_classList := if isBlock then ["ladder-cell"; "ladder-block-cell"; MB_ladderoff]
                       else ["ladder-cell"; MB_ladderoff];
     data_addresses := dataAddresses;
     cell_svg := Some (mountSymbol symbol);
     cell_value := Some (mkValue "" "") |}.

(** The cell, its [svg] and every stroke inside it carry the tag [t] and no
    other state tag. *)
Definition uniformlyTagged (t : string) (cell : CellElement) : Prop :=
  tagged t (cell_classList cell)
  ∧ ∀ svg, cell_svg cell = Some svg →
      tagged t (svg_classList svg)
      ∧ Forall (λ el, isStroke el = true → tagged t (classList el)) (svg_descendants svg).

Definition consistent (cell : CellElement) : Prop :=
  uniformlyTagged MB_ladderon cell ∨ uniformlyTagged MB_ladderoff cell.

Section Rendered.

Variable Number_toString : PrimFloat.float → string.
Variable Number_toFixed : PrimFloat.float → Z → string.

(** The pages the component produces: freshly mounted cells, and what
    any number of live updates makes of them. *)
Inductive rendered : list CellElement → Prop :=
| rendered_mount page :
    Forall (λ cell, ∃ isBlock symbol dataAddresses,
              cell = mountCell isBlock symbol dataAddresses) page →
    rendered page
| rendered_update dataValues page :
    rendered page → rendered (updateCellStates Number_toString Number_toFixed dataValues page).

End Rendered.

(** A page of two mounted cells: a contact monitoring [X1] and a timer
    block monitoring [T1] and [T2]. *)
Definition example_page : list CellElement :=
  [mountCell false "noc" (Some "X1"); mountCell true "tmr" (Some "T1,T2")].

(** A value that [addresses.forEach] stores as the value to display: a
    number, or anything else that is neither a boolean nor [null] nor
    [undefined]. *)
Definition displayable (v : JsValue) : bool :=
  match v with
  | JNum _ | JStr _ | JObject _ => true
  | JBool _ | JNull | JUndefined => false
  end.

(** A value that turns a cell on: [true], or a number other than zero. *)
Definition turnsOn (v : JsValue) : bool :=
  match v with
  | JBool b => b
  | JNum x => num_nonzero x
  | _ => false
  end.

(** The value an address contributes to the display, if any. *)
Definition displayedAt (dataValues : JsObject) (addr : string) : option JsValue :=
  v ← dataValues !! addr; if displayable v then Some v else None.

(** A timer block that monitors [T1] and [T2]. *)
Definition example_timer : CellElement := mountCell true "tmr" (Some "T1,T2").

(** What holds of the grid and of [branchCols] when the cells [seen] have
    been placed: the row arrays are those of [0 .. rows-1]; every stored
    cell is one of the cells seen, stored at its own coordinates; every
    cell seen that passed the bounds test is stored or has been overwritten
    by a later one; and [branchCols] holds, once each, the columns of the
    cells that passed the test with a row above 0. *)
Definition placedInv (rows cols : Z) (seen : list Cell)
    (st : gmap Z (gmap Z Cell) * list Z) : Prop :=
  (∀ r, is_Some (st.1 !! r) ↔ 0 ≤ r < rows)
  ∧ (∀ r c arr cell, st.1 !! r = Some arr → arr !! c = Some cell →
       cell ∈ seen ∧ rowOf cell = r ∧ colOf cell = c ∧ c < cols)
  ∧ (∀ cell, cell ∈ seen → rowOf cell < rows → colOf cell < cols →
       ∃ arr, st.1 !! rowOf cell = Some arr ∧ is_Some (arr !! colOf cell))
  ∧ (∀ c, c ∈ st.2 ↔
       ∃ cell, cell ∈ seen ∧ colOf cell = c ∧ 0 < rowOf cell < rows ∧ c < cols)
  ∧ NoDup st.2.

(** The row array of row [r] once the cells are placed. *)
Definition rowArray (st : gmap Z (gmap Z Cell) * list Z) (r : Z) : gmap Z Cell :=
  default ∅ (st.1 !! r).

(** The markup [part] occurs in the markup [whole]. *)
Definition occursIn (part whole : string) : Prop :=
  ∃ before after, whole = before +:+ part +:+ after.

(** The entry the layout holds at row [r], column [c]. *)
Definition layoutEntry (layout : Layout) (r c : Z) : option Entry :=
  row ← layout_rows layout !! Z.to_nat r; row.2 !! Z.to_nat c.

(** A rung of two rows and three columns: a contact at (0,0), a coil at
    (0,2) and a contact on the branch row at (1,1). *)
Definition example_rung : Rung :=
  mkRung 1
    (Some [mkCell (Some 0) (Some 0) (Some "noc") None (Some "X1") (Some ["X1"]) None None;
           mkCell (Some 0) (Some 2) (Some "out") None (Some "Y1") (Some ["Y1"]) None None;
           mkCell (Some 1) (Some 1) (Some "noc") None (Some "X2") (Some ["X2"]) None None])
    (Some "start / stop") (Some 2) (Some 3).


(** A rung with one cell above the grid, at row -1. *)
Definition rung_negative_row : Rung :=
  mkRung 1
    (Some [mkCell (Some (-1)) (Some 0) (Some "noc") None (Some "X1") (Some ["X1"]) None None])
    None (Some 1) (Some 1).

(** A rung of two rows and one column with one cell left of the grid, at
    row 1 and column -1. *)
Definition rung_negative_col : Rung :=
  mkRung 1
    (Some [mkCell (Some 1) (Some (-1)) (Some "noc") None (Some "X1") (Some ["X1"]) None None])
    None (Some 2) (Some 1).

(** The two characters that delimit a tag. *)
Definition angle (ch : ascii) : Prop := ch = "<"%char ∨ ch = ">"%char.

(** The number of occurrences of a tag delimiter in the markup of a symbol. *)
Definition svgMarks (LS : LadSymbolsObject) (ch : ascii) (name : string) : nat :=
  match member_getSymbol LS with
  | Some f => occ ch (f name "MB_ladderoff")
  | None => 0%nat
  end.

(** The cell is drawn as a block: by its symbol or by its type. *)
Definition drawnAsBlock (LS : LadSymbolsObject) (cell : Cell) : bool :=
  match member_isBlockSymbol LS with
  | Some f => f (str_or (cell_symbol cell) "il")
  | None => false
  end || bool_decide (str_or (cell_type cell) "unknown" = "block").

(** The cell markup has a parameter line, an address line. *)
Definition showsParams (LS : LadSymbolsObject) (cell : Cell) : bool :=
  drawnAsBlock LS cell && bool_decide (arr_or (cell_params cell) ≠ []).
Definition showsAddress (cell : Cell) : bool :=
  truthy (str_or (cell_addr cell) "") || bool_decide (arr_or (cell_addrs cell) ≠ []).

(** The number of occurrences of a tag delimiter that the templates write
    for an entry, for a rung: it depends on which elements the templates
    contain and on the markup of the symbols, and on no character of a text
    field. *)
Definition entryMarks (ch : ascii) (LS : LadSymbolsObject) (e : Entry) : nat :=
  match e with
  | ECell cell =>
      6 + svgMarks LS ch (str_or (cell_symbol cell) "il")
      + (if showsParams LS cell then 2 else 0) + (if showsAddress cell then 2 else 0)
  | ESpacer _ _ => 2 + svgMarks LS ch "hline"
  | EEmpty _ _ => 2
  end%nat.

Definition layoutMarks (ch : ascii) (LS : LadSymbolsObject) (hasComment : bool)
    (layout : Layout) : nat :=
  (14 + (if hasComment then 2 else 0)
   + sum_list (map (λ row : Z * list Entry, 2 + sum_list (map (entryMarks ch LS) row.2))
                   (layout_rows layout))
   + 2 * length (layout_connectors layout))%nat.

(** A symbol library object with both members the display library calls:
    the graphics of ladsymbols.js and the classification of the earlier
    variant of the display library. *)
Definition LadSymbols_complete : LadSymbolsObject := {|
  member_getSymbol := Some LadSymbols.getSymbol;
  member_isBlockSymbol := Some Legacy.isBlockSymbol
|}.

(** The cells of [example_rung] with markup in every text field. *)
Definition hostile_rung : Rung :=
  mkRung 1
    (Some [mkCell (Some 0) (Some 0) (Some "noc") None
             (Some "<script>alert(1)</script>") (Some ["<b>"; "X1"]) (Some "<i>") (Some ["<p>"]);
           mkCell (Some 0) (Some 2) (Some "out") None
             (Some "</div>") (Some ["</div><div>"]) None None;
           mkCell (Some 1) (Some 1) (Some "noc") None
             (Some "a<b") (Some ["x>y"]) None None])
    (Some "<h1>start</h1>") (Some 2) (Some 3).

(** A rung of one row. *)
Definition example_single_row : Rung :=
  mkRung 2
    (Some [mkCell (Some 0) (Some 0) (Some "noc") None (Some "X1") (Some ["X1"]) None None;
           mkCell (Some 0) (Some 1) (Some "out") None (Some "Y1") (Some ["Y1"]) None None;
           mkCell (Some 3) (Some 1) (Some "out") None (Some "Y2") (Some ["Y2"]) None None])
    None (Some 1) (Some 2).


(** The classes of an element other than the two state tags. *)
Definition otherClasses (cl : list string) : list string :=
  classList_remove MB_ladderoff MB_ladderon cl.

(** What the pass leaves as it is in a cell: the attribute, every class
    other than the state tags (in order), the presence of the graphic and
    of the value element, and in the graphic the elements, their tag names
    and everything that is not a stroke. *)
Definition sameStructure (cell cell' : CellElement) : Prop :=
  data_addresses cell' = data_addresses cell
  ∧ otherClasses (cell_classList cell') = otherClasses (cell_classList cell)
  ∧ match cell_svg cell, cell_svg cell' with
    | Some svg, Some svg' =>
        otherClasses (svg_classList svg') = otherClasses (svg_classList svg)
        ∧ map tagName (svg_descendants svg') = map tagName (svg_descendants svg)
        ∧ map (λ el, otherClasses (classList el)) (svg_descendants svg')
          = map (λ el, otherClasses (classList el)) (svg_descendants svg)
        ∧ filter (λ el, isStroke el = false) (svg_descendants svg')
          = filter (λ el, isStroke el = false) (svg_descendants svg)
    | None, None => True
    | _, _ => False
    end
  ∧ match cell_value cell, cell_value cell' with
    | Some v, Some v' => style_display v' = "none" → textContent v' = textContent v
    | None, None => True
    | _, _ => False
    end.


(** The cell is written in some row of the rung. *)
Definition writtenCell (rung : Rung) (cell : Cell) : Prop :=
  ∃ r rowCells, (r, rowCells) ∈ Legacy.rowGroups rung ∧ cell ∈ rowCells.

(** The earlier variant draws a cell as a block: by its type or by its
    symbol. *)
Definition legacyBlock (cell : Cell) : bool :=
  bool_decide (str_or (cell_type cell) "unknown" = "block")
  || Legacy.isBlockSymbol (str_or (cell_symbol cell) "il").

(** The number of occurrences of a tag delimiter that the templates of the
    earlier variant write for a cell, for a row, for a rung. *)
Definition legacyCellMarks (ch : ascii) (LS : LadSymbolsObject) (cell : Cell) : nat :=
  (4 + (if Legacy.isBlockSymbol (str_or (cell_symbol cell) "il") then 0
        else svgMarks LS ch (str_or (cell_symbol cell) "il"))
   + (if legacyBlock cell then 4 else 0)
   + (if truthy (str_or (cell_addr cell) "") then 2 else 0))%nat.

Definition legacyRowMarks (ch : ascii) (LS : LadSymbolsObject) (row : Z * list Cell) : nat :=
  (2 + (if (row.1 =? 0)%Z then 4 else 0) + sum_list (map (legacyCellMarks ch LS) row.2))%nat.

Definition legacyRungMarks (ch : ascii) (LS : LadSymbolsObject) (rung : Rung) : nat :=
  (8 + (if truthy (str_or (rung_comment rung) "") then 2 else 0)
   + sum_list (map (legacyRowMarks ch LS) (Legacy.rowGroups rung)))%nat.


(** What the earlier live update shows in a value span. *)
Definition spanShown (cell : LegacyUpdate.BlockElement) : option (string * string) :=
  (λ v, (LegacyUpdate.span_text v, LegacyUpdate.span_display v))
    <$> LegacyUpdate.block_value cell.

(** An element of the earlier markup for a timer, as the page holds it. *)
Definition example_block : LegacyUpdate.BlockElement :=
  LegacyUpdate.mkBlockElement ["ladder-block"; "MB_ladderoff"] (Some "T1")
    [mkElement "span" ["block-title"]; mkElement "span" ["block-params"]]
    (Some (LegacyUpdate.mkValueSpan ["cell-value"] "" "none")).

(** The property names an object literal inherits from
    [Object.prototype]. *)
Definition objectPrototypeNames : list string :=
  ["constructor"; "hasOwnProperty"; "isPrototypeOf"; "propertyIsEnumerable";
   "toLocaleString"; "toString"; "valueOf"; "__proto__";
   "__defineGetter__"; "__defineSetter__"; "__lookupGetter__"; "__lookupSetter__"].

(** The tags of a markup, as a scan of its characters finds them: from a
    [<] outside a tag to the next [>], the text between the two. [cur] is
    the text of the tag the scan is inside of, if it is inside one. *)
Fixpoint tagsFrom (cur : option string) (s : string) : list string :=
  match s with
  | EmptyString => []
  | String a s' =>
      match cur with
      | None => if Ascii.eqb a "<" then tagsFrom (Some "") s' else tagsFrom None s'
      | Some tag => if Ascii.eqb a ">" then tag :: tagsFrom None s'
                    else tagsFrom (Some (tag +:+ String a "")) s'
      end
  end.

Fixpoint endState (cur : option string) (s : string) : option string :=
  match s with
  | EmptyString => cur
  | String a s' =>
      match cur with
      | None => if Ascii.eqb a "<" then endState (Some "") s' else endState None s'
      | Some tag => if Ascii.eqb a ">" then endState None s'
                    else endState (Some (tag +:+ String a "")) s'
      end
  end.

Definition tagsOf (s : string) : list string := tagsFrom None s.

(** The scan of [s] from the state [cur] finds the tags [tags] and ends in
    the state [cur']. *)
Definition Scan (cur : option string) (s : string) (tags : list string)
    (cur' : option string) : Prop :=
  tagsFrom cur s = tags ∧ endState cur s = cur'.

(** The opening tag of the horizontal filler at [(r, c)], and of the inert
    placeholder at [(r, c)], character for character. *)
Definition fillerTag (r c : Z) : string :=
  "div class=" +:+ dq +:+ "ladder-spacer" +:+ dq
  +:+ " data-row=" +:+ dq +:+ Z_toString r +:+ dq
  +:+ " data-col=" +:+ dq +:+ Z_toString c +:+ dq.

Definition placeholderTag (r c : Z) : string :=
  "div class=" +:+ dq +:+ "ladder-empty" +:+ dq
  +:+ " data-row=" +:+ dq +:+ Z_toString r +:+ dq
  +:+ " data-col=" +:+ dq +:+ Z_toString c +:+ dq.

(** The filler element: its tag, the graphic of the horizontal line and
    the closing tag. The placeholder element: its tag and the closing tag,
    with nothing between them. *)
Definition fillerMarkup (hline : string) (r c : Z) : string :=
  "<" +:+ fillerTag r c +:+ ">" +:+ nl 12 +:+ hline +:+ nl 8 +:+ "</div>".

Definition placeholderMarkup (r c : Z) : string :=
  "<" +:+ placeholderTag r c +:+ "></div>".

(** The tag begins as the tag of a filler or of a placeholder does. *)
Definition isGridTag (t : string) : bool :=
  String.prefix ("div class=" +:+ dq +:+ "ladder-spacer" +:+ dq) t
  || String.prefix ("div class=" +:+ dq +:+ "ladder-empty" +:+ dq) t.

Definition gridTags (s : string) : list string := List.filter isGridTag (tagsOf s).

(** Markup that closes every tag it opens and has no tag that begins as
    the tag of a filler or of a placeholder does. *)
Definition plainMarkup (s : string) : Prop :=
  endState None s = None ∧ gridTags s = [].

(** The graphics of the symbol library are such markup. *)
Definition plainGraphics (LS : LadSymbolsObject) : Prop :=
  ∀ getSym name, member_getSymbol LS = Some getSym →
                 plainMarkup (getSym name "MB_ladderoff").

(** The filler or placeholder tag an entry of the layout is written with. *)
Definition entryGridTags (e : Entry) : list string :=
  match e with
  | ECell _ => []
  | ESpacer r c => [fillerTag r c]
  | EEmpty r c => [placeholderTag r c]
  end.

(** A later column of row [r] holds a cell, or column [c] holds a cell on
    a branch row. *)
Definition needsFiller (rung : Rung) (r c : Z) : Prop :=
  (∃ cell, cell ∈ arr_or (rung_cells rung)
           ∧ rowOf cell = r ∧ c < colOf cell < rungCols rung)
  ∨ (∃ cell, cell ∈ arr_or (rung_cells rung)
             ∧ colOf cell = c ∧ 0 < rowOf cell < rungRows rung).

(** * Properties *)

Import PrimFloat.

Example toFixed_half : ExampleHost.toFixed 2.5%float 2 = "2.50". Proof. reflexivity. Qed.
Example toFixed_tie : ExampleHost.toFixed 0.125%float 2 = "0.13". Proof. reflexivity. Qed.
Example toFixed_neg : ExampleHost.toFixed (-0.375)%float 2 = "-0.38". Proof. reflexivity. Qed.
Example toString_5 : ExampleHost.toString 5%float = "5". Proof. reflexivity. Qed.
Example toString_m12 : ExampleHost.toString (-12)%float = "-12". Proof. reflexivity. Qed.
Example toString_0 : ExampleHost.toString (-0)%float = "0". Proof. reflexivity. Qed.

(** ** Symbol classification *)

(** The earlier variant's [isBlockSymbol] is total and true exactly on the
    closed set of block-instruction identifiers. *)
Lemma legacy_isBlockSymbol_spec (name : string) :
  Legacy.isBlockSymbol name = true ↔
  name ∈ ["compare"; "tmr"; "tmra"; "tmroff"; "cntu"; "cntd"; "udc";
          "copy"; "cpyblk"; "fill"; "pack"; "unpack"; "shfrg";
          "findeq"; "mathdec"; "mathhex"; "sum";
          "call"; "rt"; "end"; "for"; "next"].
Proof. unfold Legacy.isBlockSymbol. apply bool_decide_eq_true. Qed.

(** Every member of that set is drawn by ladsymbols.js as the block
    rectangle (an alias of [symbols.compare]). *)
Lemma blockSymbols_drawn_as_compare (name : string) :
  name ∈ Legacy.blockSymbols → LadSymbols.symbols !! name = Some LadSymbols.compare.
Proof.
  unfold Legacy.blockSymbols. intros H.
  repeat (apply elem_of_cons in H as [-> | H]; [vm_compute; reflexivity |]).
  by apply elem_of_nil in H.
Qed.

(** C7 (the code departs from the claim). With the [LadSymbols] object that
    ladsymbols.js exports, [isBlockSymbol] of the display library returns
    for no name at all: the member it delegates to does not exist, and the
    call throws a [TypeError], for the block identifier ["tmr"] as for every
    other name. *)
Theorem isBlockSymbol_delegate_missing :
  isBlockSymbol LadSymbols_module "tmr"
    = Throw (TypeError "LadSymbols.isBlockSymbol is not a function")
  ∧ ∀ name, ∃ e, isBlockSymbol LadSymbols_module name = Throw e.
Proof. split; [reflexivity | intros name; eexists; reflexivity]. Qed.

(** ** Program state and the rung list *)

(** A program that carries rung data and a non-empty error message is
    rendered as the escaped error display alone. *)
Lemma createRungList_error_with_subrdata LS p rungs message st :
  subrdata p = Some rungs → error p = Some message → truthy message = true →
  (createRungList LS (Some p) st).2 = Normal (errorHtml message).
Proof. intros Hs He Ht. unfold createRungList. cbn. by rewrite Hs, He; cbn; rewrite Ht. Qed.

(** C3 (the code departs from the claim). For [{error: "compile failed"}]
    the rung list is the "No Program Loaded" placeholder, which is not the
    error display: the test for missing rung data returns before the error
    field is looked at. *)
Theorem createRungList_error_only_shows_no_program :
  ∀ LS st,
    (createRungList LS (Some (mkProgram None None (Some "compile failed"))) st).2
      = Normal noProgramHtml
    ∧ noProgramHtml ≠ errorHtml "compile failed".
Proof. intros LS st. split; [reflexivity | by vm_compute]. Qed.

(** [setProgram] always stores its argument as the current program. *)
Lemma setProgram_currentProgram p st : currentProgram (setProgram p st) = p.
Proof. unfold setProgram. by destruct p as [[[l|] ? ?]|]. Qed.

(** Without an [addresses] list the monitored addresses are left as they were. *)
Lemma setProgram_keeps_addresses p st :
  (∀ q, p = Some q → addresses q = None) →
  getMonitorAddresses (setProgram p st) = getMonitorAddresses st.
Proof.
  intros H. unfold setProgram, getMonitorAddresses.
  destruct p as [q|]; [|done]. by rewrite (H q eq_refl).
Qed.

(** C9, as stated, fails: after [setProgram] of a program without an
    [addresses] field, [getMonitorAddresses] still answers with the
    addresses of the program set before it. *)
Lemma setProgram_addresses_depend_on_history :
  ¬ (∀ (p : option ProgramData) (s1 s2 : State),
       getMonitorAddresses (setProgram p s1) = getMonitorAddresses (setProgram p s2)).
Proof.
  intros H.
  specialize (H (Some program_no_addresses) initial (setProgram (Some program_X1) initial)).
  discriminate H.
Qed.

(** C9, amended. [setProgram] stores [p] as the current program whatever
    the state before; when [p] carries an [addresses] list, the whole state
    after the call, and with it the list [getMonitorAddresses] returns
    (which is that list), depends on [p] alone. *)
Theorem setProgram_with_addresses_replaces_state :
  ∀ (p : ProgramData) (l : list string) (s1 s2 : State),
    addresses p = Some l →
    setProgram (Some p) s1 = setProgram (Some p) s2
    ∧ getMonitorAddresses (setProgram (Some p) s1) = l
    ∧ currentProgram (setProgram (Some p) s1) = Some p.
Proof.
  intros p l s1 s2 H. unfold setProgram, getMonitorAddresses. by rewrite H.
Qed.

Lemma setProgram_with_addresses_replaces_state_witness :
  addresses program_X1 = Some ["X1"]
  ∧ (setProgram (Some program_X1) initial
       = setProgram (Some program_X1) (setProgram (Some (mkProgram (Some ["Y7"; "C3"]) None None)) initial)
     ∧ getMonitorAddresses (setProgram (Some program_X1) initial) = ["X1"]
     ∧ currentProgram (setProgram (Some program_X1) initial) = Some program_X1).
Proof.
  split; [reflexivity |].
  apply (setProgram_with_addresses_replaces_state program_X1 ["X1"]). reflexivity.
Defined.

(** ** The live update *)

Lemma classList_remove_tags cl :
  stateTags (classList_remove MB_ladderoff MB_ladderon cl) = [].
Proof.
  unfold stateTags, classList_remove. induction cl as [|c cl IH]; [done|].
  rewrite (filter_cons (λ c, c ≠ MB_ladderoff ∧ c ≠ MB_ladderon)).
  destruct (decide (c ≠ MB_ladderoff ∧ c ≠ MB_ladderon)) as [[H1 H2]|H]; [|done].
  rewrite filter_cons_False; [done | intros [?|?]; congruence].
Qed.

Lemma setStateClass_unfold isOn cl :
  setStateClass isOn cl = classList_remove MB_ladderoff MB_ladderon cl ++ [stateTag isOn].
Proof.
  unfold setStateClass, classList_add. fold (stateTag isOn).
  rewrite bool_decide_eq_false_2; [done|].
  intros H. pose proof (classList_remove_tags cl) as Ht.
  eapply (filter_nil_not_elem_of _ _ _ Ht); [|exact H].
  destruct isOn; [by right | by left].
Qed.

Lemma stateTags_setStateClass isOn cl : tagged (stateTag isOn) (setStateClass isOn cl).
Proof.
  unfold tagged. rewrite setStateClass_unfold. unfold stateTags.
  rewrite filter_app. fold (stateTags (classList_remove MB_ladderoff MB_ladderon cl)).
  rewrite classList_remove_tags. by destruct isOn.
Qed.

Lemma classList_remove_app a b l1 l2 :
  classList_remove a b (l1 ++ l2) = classList_remove a b l1 ++ classList_remove a b l2.
Proof. apply filter_app. Qed.

Lemma classList_remove_idem a b cl :
  classList_remove a b (classList_remove a b cl) = classList_remove a b cl.
Proof.
  unfold classList_remove. induction cl as [|c cl IH]; [done|].
  rewrite (filter_cons _ c cl). case_decide; [|done].
  by rewrite filter_cons_True, IH.
Qed.

(** Setting the state class forgets the state class set before. *)
Lemma setStateClass_overrides isOn isOn' cl :
  setStateClass isOn (setStateClass isOn' cl) = setStateClass isOn cl.
Proof.
  rewrite !setStateClass_unfold, classList_remove_app, classList_remove_idem.
  f_equal. replace (classList_remove _ _ [stateTag isOn']) with (@nil string);
    [by rewrite app_nil_r|].
  by destruct isOn'.
Qed.

Lemma elem_of_setStateClass c isOn cl :
  c ≠ MB_ladderoff → c ≠ MB_ladderon → c ∈ setStateClass isOn cl ↔ c ∈ cl.
Proof.
  intros H1 H2. rewrite setStateClass_unfold, elem_of_app, list_elem_of_singleton.
  unfold classList_remove. rewrite list_elem_of_filter.
  split; [intros [[_ ?]| ->]; [done | by destruct isOn] | intros ?; by left].
Qed.

Section LiveUpdate.

Variable Number_toString : PrimFloat.float → string.
Variable Number_toFixed : PrimFloat.float → Z → string.

Local Abbreviation updateCell := (SubrDispControl.updateCell Number_toString Number_toFixed).
Local Abbreviation updateCellStates := (SubrDispControl.updateCellStates Number_toString Number_toFixed).
Local Abbreviation applyState := (SubrDispControl.applyState Number_toString Number_toFixed).
Local Abbreviation formatValue := (SubrDispControl.formatValue Number_toString Number_toFixed).

Lemma updateCell_unmonitored D cell : monitored cell = [] → updateCell D cell = cell.
Proof. intros H. unfold SubrDispControl.updateCell. by rewrite H. Qed.

Lemma updateCell_monitored D cell :
  monitored cell ≠ [] →
  updateCell D cell
    = applyState (scanAddresses D (monitored cell)).1 (scanAddresses D (monitored cell)).2 cell.
Proof.
  intros H. unfold SubrDispControl.updateCell.
  destruct (monitored cell) as [|a l]; [done|]. by destruct (scanAddresses D (a :: l)).
Qed.

(** The pass changes neither the selector class nor the attribute, so a
    cell monitors the same addresses after it. *)
Lemma monitored_applyState isOn dv cell : monitored (applyState isOn dv cell) = monitored cell.
Proof.
  unfold monitored. cbn.
  assert ("ladder-cell" ∈ setStateClass isOn (cell_classList cell)
          ↔ "ladder-cell" ∈ cell_classList cell) as H
    by (by apply elem_of_setStateClass).
  by rewrite (bool_decide_ext _ _ H).
Qed.

Lemma monitored_updateCell D cell : monitored (updateCell D cell) = monitored cell.
Proof.
  destruct (decide (monitored cell = [])) as [H|H].
  - by rewrite updateCell_unmonitored.
  - by rewrite updateCell_monitored, monitored_applyState.
Qed.

Lemma restroke_overrides isOn isOn' (els : list Element) :
  map (λ el, if isStroke el then mkElement (tagName el) (setStateClass isOn (classList el)) else el)
      (map (λ el, if isStroke el then mkElement (tagName el) (setStateClass isOn' (classList el)) else el) els)
  = map (λ el, if isStroke el then mkElement (tagName el) (setStateClass isOn (classList el)) else el) els.
Proof.
  rewrite map_map. apply map_ext. intros el.
  destruct (isStroke el) eqn:E; [|by rewrite E].
  unfold isStroke in *. cbn. rewrite E. cbn. by rewrite setStateClass_overrides.
Qed.

Lemma applyState_idem isOn dv cell :
  applyState isOn dv (applyState isOn dv cell) = applyState isOn dv cell.
Proof.
  unfold SubrDispControl.applyState. cbn. f_equal.
  - apply setStateClass_overrides.
  - destruct (cell_svg cell) as [svg|]; [|done]. cbn. f_equal.
    by rewrite setStateClass_overrides, restroke_overrides.
  - destruct (cell_value cell) as [v|]; [|done]. cbn. by destruct dv.
Qed.

Lemma observe_applyState_overrides isOn dv isOn' dv' cell :
  observe (applyState isOn dv (applyState isOn' dv' cell)) = observe (applyState isOn dv cell).
Proof.
  unfold observe, shownValue, SubrDispControl.applyState. cbn. f_equal; [f_equal|].
  - apply setStateClass_overrides.
  - destruct (cell_svg cell) as [svg|]; [|done]. cbn. f_equal.
    by rewrite setStateClass_overrides, restroke_overrides.
  - destruct (cell_value cell) as [v|]; [|done]. cbn. by destruct dv.
Qed.

(** C5. [updateCellStates] is idempotent on the whole page state, and
    what is observed after a call (the tags of every cell and of its
    graphic, and the displayed values) is the same whatever snapshot was
    applied before it: no history is accumulated. *)
Theorem updateCellStates_idempotent :
  ∀ (dataValues : JsObject) (page : list CellElement),
    updateCellStates dataValues (updateCellStates dataValues page)
      = updateCellStates dataValues page
    ∧ ∀ earlier : JsObject,
        map observe (updateCellStates dataValues (updateCellStates earlier page))
          = map observe (updateCellStates dataValues page).
Proof.
  intros D page. unfold SubrDispControl.updateCellStates. split.
  - rewrite map_map. apply map_ext. intros cell.
    destruct (decide (monitored cell = [])) as [H|H].
    + rewrite (updateCell_unmonitored D cell) by done. by apply updateCell_unmonitored.
    + rewrite (updateCell_monitored D (updateCell D cell)) by (by rewrite monitored_updateCell).
      rewrite monitored_updateCell, updateCell_monitored by done.
      apply applyState_idem.
  - intros D'. rewrite !map_map. apply map_ext. intros cell.
    destruct (decide (monitored cell = [])) as [H|H].
    + by rewrite (updateCell_unmonitored D' cell) by done.
    + rewrite (updateCell_monitored D (updateCell D' cell)) by (by rewrite monitored_updateCell).
      rewrite monitored_updateCell, !updateCell_monitored by done.
      apply observe_applyState_overrides.
Qed.

Local Abbreviation rendered := (rendered Number_toString Number_toFixed).

Lemma mountCell_consistent isBlock symbol dataAddresses :
  uniformlyTagged MB_ladderoff (mountCell isBlock symbol dataAddresses).
Proof.
  split; [by destruct isBlock|].
  intros svg [= <-]. split; [done|]. cbn.
  apply Forall_map, Forall_forall. by intros p _ _.
Qed.

Lemma applyState_uniformlyTagged isOn dv cell :
  uniformlyTagged (stateTag isOn) (applyState isOn dv cell).
Proof.
  split; [apply stateTags_setStateClass|]. cbn.
  destruct (cell_svg cell) as [svg0|]; [|done]. intros svg [= <-]. cbn.
  split; [apply stateTags_setStateClass|].
  apply Forall_map, Forall_forall. intros el _.
  destruct (isStroke el) eqn:E; [|by rewrite E].
  intros _. apply stateTags_setStateClass.
Qed.

Lemma updateCell_consistent D cell : consistent cell → consistent (updateCell D cell).
Proof.
  intros Hc. destruct (decide (monitored cell = [])) as [H|H].
  - by rewrite updateCell_unmonitored.
  - rewrite updateCell_monitored by done.
    destruct (scanAddresses D (monitored cell)).1 eqn:E; [left | right].
    + apply (applyState_uniformlyTagged true).
    + apply (applyState_uniformlyTagged false).
Qed.

Lemma rendered_consistent page : rendered page → Forall consistent page.
Proof.
  induction 1 as [page H|D page _ IH].
  - eapply Forall_impl; [exact H|]. intros cell (b & sy & a & ->).
    right. apply mountCell_consistent.
  - unfold SubrDispControl.updateCellStates. apply Forall_map.
    eapply Forall_impl; [exact IH|]. intros cell Hc. by apply updateCell_consistent.
Qed.

(** C8. After every [updateCellStates] call on a page the component has
    rendered, each cell carries exactly one of the two state tags, and its
    [svg] and every stroke ([line], [circle], [rect], [text]) inside it
    carry that same tag and no other. *)
Theorem updateCellStates_tags_uniform :
  ∀ (dataValues : JsObject) (page : list CellElement),
    rendered page → Forall consistent (updateCellStates dataValues page).
Proof. intros D page H. apply rendered_consistent. by constructor. Qed.

(** A monitored cell is re-tagged by the call whatever it carried before. *)
Lemma updateCell_retags D cell :
  monitored cell ≠ [] →
  uniformlyTagged (stateTag (scanAddresses D (monitored cell)).1) (updateCell D cell).
Proof. intros H. rewrite updateCell_monitored by done. apply applyState_uniformlyTagged. Qed.

End LiveUpdate.

Lemma updateCellStates_tags_uniform_witness :
  rendered ExampleHost.toString ExampleHost.toFixed
    (updateCellStates ExampleHost.toString ExampleHost.toFixed
       (ExampleHost.snapshot {["X1" := JBool true]}) example_page)
  ∧ Forall consistent
      (updateCellStates ExampleHost.toString ExampleHost.toFixed
         (ExampleHost.snapshot {["T2" := JNum 3%float]})
         (updateCellStates ExampleHost.toString ExampleHost.toFixed
            (ExampleHost.snapshot {["X1" := JBool true]}) example_page)).
Proof.
  assert (rendered ExampleHost.toString ExampleHost.toFixed
            (updateCellStates ExampleHost.toString ExampleHost.toFixed
               (ExampleHost.snapshot {["X1" := JBool true]}) example_page)) as H.
  { apply rendered_update, rendered_mount.
    repeat (constructor; [by eexists _, _, _|]). constructor. }
  split; [exact H|].
  exact (updateCellStates_tags_uniform ExampleHost.toString ExampleHost.toFixed _ _ H).
Defined.

Lemma scanAddress_fst D acc a :
  (scanAddress D acc a).1 = acc.1 || from_option turnsOn false (D !! a).
Proof.
  unfold scanAddress. destruct (D !! a) as [[| |[]|x|s|o]|]; cbn;
    try (by rewrite orb_false_r); try (by rewrite orb_true_r).
  destruct (num_nonzero x); [by rewrite orb_true_r | by rewrite orb_false_r].
Qed.

Lemma scanAddress_snd D acc a :
  (scanAddress D acc a).2 = from_option Some acc.2 (displayedAt D a).
Proof.
  unfold scanAddress, displayedAt. by destruct (D !! a) as [[| |[]|x|s|o]|].
Qed.

(** The cell is on when some scanned address holds a value that turns it on. *)
Lemma scan_on D l acc :
  (foldl (scanAddress D) acc l).1 = true ↔
  acc.1 = true ∨ ∃ a v, a ∈ l ∧ D !! a = Some v ∧ turnsOn v = true.
Proof.
  revert acc. induction l as [|a l IH]; intros acc; cbn.
  - split; [by left | intros [?|(? & ? & H & _)]; [done | by apply elem_of_nil in H]].
  - rewrite IH, scanAddress_fst, orb_true_iff. split.
    + intros [[?|H]|(a' & v & ? & ? & ?)]; [by left | | right; exists a', v; by rewrite elem_of_cons; auto].
      right. destruct (D !! a) as [v|] eqn:E; [|done]. exists a, v. by rewrite elem_of_cons; auto.
    + intros [?|(a' & v & [->|?]%elem_of_cons & E & ?)]; [by left; left | |].
      * left; right. by rewrite E.
      * right. by exists a', v.
Qed.

(** The value displayed is the one of the last scanned address that
    contributes one. *)
Lemma scan_display D l acc :
  (foldl (scanAddress D) acc l).2 = from_option Some acc.2 (last (omap (displayedAt D) l)).
Proof.
  induction l as [|a l IH] using rev_ind; [done|].
  rewrite foldl_snoc, scanAddress_snd, IH, omap_app, last_app. cbn.
  by destruct (displayedAt D a).
Qed.

Lemma omap_none {A B} (g : A → option B) (l : list A) :
  (∀ x, x ∈ l → g x = None) → omap g l = [].
Proof.
  induction l as [|x l IH]; [done|]. intros H. cbn.
  rewrite (H x) by (apply elem_of_cons; by left). apply IH. intros y Hy. apply H. apply elem_of_cons; by right.
Qed.

Lemma last_displayed D (l : list string) i a v :
  l !! i = Some a → displayedAt D a = Some v →
  (∀ j a', (i < j)%nat → l !! j = Some a' → displayedAt D a' = None) →
  last (omap (displayedAt D) l) = Some v.
Proof.
  intros Hi Ha Hlater. rewrite <-(take_drop_middle l i a Hi), omap_app. cbn. rewrite Ha.
  replace (omap (displayedAt D) (drop (S i) l)) with (@nil JsValue).
  - by rewrite last_snoc.
  - symmetry. apply omap_none. intros x [k Hk]%list_elem_of_lookup.
    rewrite lookup_drop in Hk. apply (Hlater (S i + k)%nat x); [lia | done].
Qed.

Section DisplayedValue.

Variable Number_toString : PrimFloat.float → string.
Variable Number_toFixed : PrimFloat.float → Z → string.

Local Abbreviation updateCell := (SubrDispControl.updateCell Number_toString Number_toFixed).
Local Abbreviation formatValue := (SubrDispControl.formatValue Number_toString Number_toFixed).

Lemma tagged_on_not_off cl : tagged MB_ladderon cl → tagged MB_ladderoff cl → False.
Proof. unfold tagged. intros -> [=]. Qed.

Lemma shownValue_applyState isOn dv cell valueEl :
  cell_value cell = Some valueEl →
  shownValue (applyState Number_toString Number_toFixed isOn dv cell) = formatValue <$> dv.
Proof. intros H. unfold shownValue. cbn. rewrite H. by destruct dv. Qed.

(** What a pass does to a cell that monitors at least one address, in
    terms of the properties the snapshot has or inherits
    ([dataValues !! a]):
    it is tagged on exactly when some monitored address holds [true] or a
    number other than zero, and off otherwise; the value it displays is
    the one of the last monitored address (in the order of the
    [data-addresses] attribute) that holds a number or another value that
    is neither a boolean nor [null] nor [undefined], a number being
    written by [toString] when it is an integer and by [toFixed(2)] when
    it is not; when no monitored address holds such a value nothing is
    displayed; and when no monitored address is in the snapshot the cell
    is off and displays nothing. *)
Theorem updateCell_state_and_value :
  ∀ (dataValues : JsObject) (cell : CellElement) (valueEl : ValueElement),
    monitored cell ≠ [] →
    cell_value cell = Some valueEl →
    let cell' := updateCell dataValues cell in
    (tagged MB_ladderon (cell_classList cell') ↔
       ∃ a, a ∈ monitored cell
            ∧ (dataValues !! a = Some (JBool true)
               ∨ ∃ x, dataValues !! a = Some (JNum x) ∧ num_nonzero x = true))
    ∧ (tagged MB_ladderon (cell_classList cell') ∨ tagged MB_ladderoff (cell_classList cell'))
    ∧ (∀ i a v,
         monitored cell !! i = Some a → dataValues !! a = Some v → displayable v = true →
         (∀ j a' v', (i < j)%nat → monitored cell !! j = Some a' →
                     dataValues !! a' = Some v' → displayable v' = false) →
         shownValue cell' = Some (formatValue v)
         ∧ ∀ x, v = JNum x →
             formatValue v = if Number_isInteger x then Number_toString x
                             else Number_toFixed x 2)
    ∧ ((∀ a v, a ∈ monitored cell → dataValues !! a = Some v → displayable v = false) →
       shownValue cell' = None)
    ∧ ((∀ a, a ∈ monitored cell → dataValues !! a = None) →
       tagged MB_ladderoff (cell_classList cell') ∧ shownValue cell' = None).
Proof.
  intros D cell valueEl Hm Hv cell'.
  pose proof (updateCell_retags Number_toString Number_toFixed D cell Hm) as [Htag _].
  fold cell' in Htag.
  assert (Hon : (scanAddresses D (monitored cell)).1 = true ↔
                ∃ a, a ∈ monitored cell
                     ∧ (D !! a = Some (JBool true)
                        ∨ ∃ x, D !! a = Some (JNum x) ∧ num_nonzero x = true)).
  { unfold scanAddresses. rewrite scan_on. cbn. split.
    - intros [?|(a & v & Ha & E & Hv')]; [done|]. exists a. split; [done|].
      destruct v as [| |[]|x|s|o]; try done; [by left | right; by exists x].
    - intros (a & Ha & [E|(x & E & Hx)]); right; [by exists a, (JBool true) | by exists a, (JNum x)]. }
  assert (Hshown : shownValue cell'
                   = formatValue <$> last (omap (displayedAt D) (monitored cell))).
  { unfold cell'. rewrite updateCell_monitored by done.
    rewrite (shownValue_applyState _ _ _ valueEl Hv). unfold scanAddresses.
    rewrite scan_display. cbn. by destruct (last _). }
  assert (Hnone : (∀ a v, a ∈ monitored cell → D !! a = Some v → displayable v = false) →
                  shownValue cell' = None).
  { intros H. rewrite Hshown, omap_none; [done|]. intros a Ha. unfold displayedAt.
    destruct (D !! a) as [v|] eqn:E; [|done]. cbn. by rewrite (H a v Ha E). }
  split; [|split; [|split; [|split]]].
  - rewrite <-Hon. destruct (scanAddresses D (monitored cell)).1; [done|].
    split; [|done]. intros H. destruct (tagged_on_not_off _ H Htag).
  - destruct (scanAddresses D (monitored cell)).1; [by left | by right].
  - intros i a v Hi Ha Hd Hlater. split; [|by intros x ->].
    rewrite Hshown, (last_displayed D _ i a v); [done | done | |].
    + unfold displayedAt. by rewrite Ha; cbn; rewrite Hd.
    + intros j a' Hj Ha'. unfold displayedAt. destruct (D !! a') as [v'|] eqn:E; [|done].
      cbn. by rewrite (Hlater j a' v' Hj Ha' E).
  - exact Hnone.
  - intros H. split.
    + destruct (scanAddresses D (monitored cell)).1 eqn:E; [|done].
      destruct (proj1 Hon eq_refl) as (a & Ha & [E'|(x & E' & _)]); by rewrite (H a Ha) in E'.
    + apply Hnone. intros a v Ha E. by rewrite (H a Ha) in E.
Qed.

End DisplayedValue.

Lemma updateCell_state_and_value_witness :
  monitored example_timer = ["T1"; "T2"]
  ∧ tagged MB_ladderon
      (cell_classList (updateCell ExampleHost.toString ExampleHost.toFixed
                         (ExampleHost.snapshot {["T1" := JNum 2.5%float]}) example_timer))
  ∧ shownValue (updateCell ExampleHost.toString ExampleHost.toFixed
                  (ExampleHost.snapshot {["T1" := JNum 2.5%float]}) example_timer) = Some "2.50".
Proof.
  split; [reflexivity|].
  destruct (updateCell_state_and_value ExampleHost.toString ExampleHost.toFixed
              (ExampleHost.snapshot {["T1" := JNum 2.5%float]}) example_timer (mkValue "" "")
              ltac:(by vm_compute) eq_refl) as (Hon & _ & Hshow & _).
  split.
  - apply Hon. exists "T1". split; [apply elem_of_cons; by left|]. right. by exists 2.5%float.
  - apply (Hshow 0%nat "T1" (JNum 2.5%float)); [reflexivity | reflexivity | reflexivity |].
    intros [|[|j]] a' v' Hj Ha' E; [lia | by injection Ha' as <- | done].
Defined.

(** The addresses are scanned in the order of the attribute and each
    value to display replaces the one before: with [T1 = 5] and
    [T2 = "run"] the timer block shows ["run"]. *)
Lemma later_value_replaces_number :
  shownValue (updateCell ExampleHost.toString ExampleHost.toFixed
                (ExampleHost.snapshot {["T1" := JNum 5%float; "T2" := JStr "run"]})
                example_timer)
  = Some "run".
Proof. reflexivity. Qed.

(** C4 (the code departs from the claim). A cell is rendered for the
    address [constructor] and the pass is given the empty snapshot [{}],
    with any host: no monitored address is present in the snapshot, and
    the claim has the cell off with no displayed value. The test of line
    303, [addr in dataValues], also finds what the snapshot inherits from
    [Object.prototype]: the cell is off, and it displays the string of
    the function [Object]. *)
Theorem absent_address_displayed :
  ∀ (Number_toString : PrimFloat.float → string)
    (Number_toFixed : PrimFloat.float → Z → string)
    (Function_toString : string → string),
    let dataValues := plainObject Function_toString ∅ in
    let cell := mountCell false "noc" (Some "constructor") in
    let cell' := updateCell Number_toString Number_toFixed dataValues cell in
    monitored cell = ["constructor"]
    ∧ ownProperties dataValues !! "constructor" = None
    ∧ tagged MB_ladderoff (cell_classList cell')
    ∧ shownValue cell' = Some (Function_toString "Object")
    ∧ (cell_value cell' ≫= λ v, Some (style_display v)) = Some "block".
Proof. intros NtS NtF FtS. cbn zeta. repeat split. Qed.

(** ** The grid and the layout of a rung *)

Lemma bind_Normal {A B} (m : Completion A) (k : A → Completion B) (b : B) :
  (m ≫= k) = Normal b ↔ ∃ a, m = Normal a ∧ k a = Normal b.
Proof.
  destruct m as [a|e]; cbn; split.
  - intros H. by exists a.
  - by intros (a' & [= <-] & H).
  - done.
  - by intros (a' & [=] & _).
Qed.

(** A loop that returns normally has run its body on every element, and an
    invariant of the body holds at the end. *)
Lemma forEachM_inv {A S} (body : S → A → Completion S) (P : list A → S → Prop) xs s0 s' :
  P [] s0 →
  (∀ seen x s t, P seen s → body s x = Normal t → P (seen ++ [x]) t) →
  forEachM body xs s0 = Normal s' → P xs s'.
Proof.
  intros H0 Hstep.
  assert (∀ seen s, P seen s → forEachM body xs s = Normal s' → P (seen ++ xs) s') as Hgen.
  { induction xs as [|x xs IH]; intros seen s Hs Hrun; cbn in Hrun.
    - injection Hrun as <-. by rewrite app_nil_r.
    - apply bind_Normal in Hrun as (t & Hx & Hrun).
      rewrite (cons_middle x seen xs), app_assoc. eapply IH; [|exact Hrun]. by eapply Hstep. }
  apply (Hgen [] s0 H0).
Qed.

(** A loop whose body returns normally on every element returns normally. *)
Lemma forEachM_normal {A S} (body : S → A → Completion S) (P : S → Prop) xs s0 :
  P s0 →
  (∀ x s, x ∈ xs → P s → ∃ t, body s x = Normal t ∧ P t) →
  ∃ s', forEachM body xs s0 = Normal s' ∧ P s'.
Proof.
  revert s0. induction xs as [|x xs IH]; intros s0 H0 Hstep; cbn.
  - by exists s0.
  - destruct (Hstep x s0) as (t & -> & Ht); [by left | done |]. cbn.
    apply IH; [done|]. intros y s Hy. apply Hstep. by right.
Qed.

Lemma forEachM_collect {A B} (body : list B → A → Completion (list B)) (g : A → B) xs acc :
  (∀ acc x, x ∈ xs → body acc x = Normal (acc ++ [g x])) →
  forEachM body xs acc = Normal (acc ++ map g xs).
Proof.
  revert acc. induction xs as [|x xs IH]; intros acc H; cbn.
  - by rewrite app_nil_r.
  - rewrite (H acc x) by (by left). cbn. rewrite IH by (intros a y Hy; apply H; by right).
    by rewrite <-app_assoc.
Qed.

Lemma newRow_Normal cols arr : newRow cols = Normal arr → arr = ∅ ∧ 0 ≤ cols ≤ 4294967295.
Proof.
  unfold newRow. destruct (cols <? 0) eqn:E1; [done|].
  destruct (4294967295 <? cols) eqn:E2; [done|]. cbn. intros [= <-].
  apply Z.ltb_ge in E1, E2. split; [done | lia].
Qed.

(** The grid has a row array, empty at first, for each of [0 .. rows-1],
    and nothing at any other index. *)
Lemma buildGrid_rows rows cols grid :
  buildGrid rows cols = Normal grid →
  ∀ r, grid !! r = if bool_decide (0 ≤ r < rows) then Some ∅ else None.
Proof.
  intros H r.
  pose (P := λ (seen : list Z) (g : gmap Z (gmap Z Cell)),
             g !! r = if bool_decide (r ∈ seen) then Some ∅ else None).
  assert (P (seqZ 0 rows) grid) as HP.
  { eapply (forEachM_inv _ P); [| |exact H].
    - done.
    - intros seen x g t Hg Hx. unfold P in *.
      apply bind_Normal in Hx as (arr & [-> _]%newRow_Normal & [= <-]).
      destruct (decide (x = r)) as [->|Hne].
      + rewrite lookup_insert_eq, bool_decide_eq_true_2; [done|]. apply elem_of_app. right. by left.
      + rewrite lookup_insert_ne, Hg by done.
        rewrite (bool_decide_ext (r ∈ seen ++ [x]) (r ∈ seen)); [done|].
        rewrite elem_of_app, list_elem_of_singleton. split; [intros [?|?]; [done|congruence] | by left]. }
  unfold P in HP. rewrite HP.
  rewrite (bool_decide_ext (r ∈ seqZ 0 rows) (0 ≤ r < rows)); [done|].
  rewrite elem_of_seqZ. lia.
Qed.

Lemma buildGrid_normal rows cols :
  rows ≤ 0 ∨ 0 ≤ cols ≤ 4294967295 → ∃ grid, buildGrid rows cols = Normal grid.
Proof.
  intros H. unfold buildGrid.
  destruct (forEachM_normal
              (λ (grid : gmap Z (gmap Z Cell)) (r : Z),
                 arr ← newRow cols; Normal (<[r := arr]> grid))
              (λ _, True) (seqZ 0 rows) ∅) as (g & Hg & _); [done | | by exists g].
  intros x s Hx _. apply elem_of_seqZ in Hx. unfold newRow.
  rewrite (proj2 (Z.ltb_ge cols 0)), (proj2 (Z.ltb_ge 4294967295 cols)) by lia. cbn. eauto.
Qed.

Lemma elem_of_set_add c x s : c ∈ set_add x s ↔ c = x ∨ c ∈ s.
Proof.
  unfold set_add. case_bool_decide as H.
  - split; [by right | by intros [->|?]].
  - rewrite elem_of_app, list_elem_of_singleton. tauto.
Qed.

Lemma NoDup_set_add x s : NoDup s → NoDup (set_add x s).
Proof.
  intros H. unfold set_add. case_bool_decide as Hx; [done|].
  apply NoDup_app. split; [done|]. split; [|apply NoDup_singleton].
  intros y Hy ->%list_elem_of_singleton. done.
Qed.

Lemma placedInv_init rows cols grid :
  buildGrid rows cols = Normal grid → placedInv rows cols [] (grid, []).
Proof.
  intros H. pose proof (buildGrid_rows _ _ _ H) as Hg.
  split; [|split; [|split; [|split]]]; cbn.
  - intros r. rewrite Hg. case_bool_decide; [by split; eauto | split; [by intros [? ?] | done]].
  - intros r c arr cell Hr Hc. rewrite Hg in Hr. case_bool_decide; [|done].
    injection Hr as <-. by rewrite lookup_empty in Hc.
  - intros cell Hin. by apply elem_of_nil in Hin.
  - intros c. split; [by intros ?%elem_of_nil | by intros (? & ?%elem_of_nil & _)].
  - apply NoDup_nil_2.
Qed.

Lemma placedInv_step rows cols seen cell st t :
  placedInv rows cols seen st → placeCell rows cols st cell = Normal t →
  placedInv rows cols (seen ++ [cell]) t.
Proof.
  intros (Hdom & Hstored & Hkept & Hbc & Hnd). unfold placeCell.
  destruct ((rowOf cell <? rows) && (colOf cell <? cols)) eqn:Eg.
  - apply andb_true_iff in Eg as [Er%Z.ltb_lt Ec%Z.ltb_lt].
    unfold gridRow. destruct (st.1 !! rowOf cell) as [arr|] eqn:Earr; [|done].
    cbn. intros [= <-]. cbn.
    assert (0 ≤ rowOf cell < rows) as Hrow by (apply Hdom; by rewrite Earr).
    split; [|split; [|split; [|split]]]; cbn.
    + intros r. rewrite <-Hdom. destruct (decide (rowOf cell = r)) as [<-|Hne].
      * rewrite lookup_insert_eq, Earr. split; eauto.
      * by rewrite lookup_insert_ne.
    + intros r c arr' cell' Hr Hc. destruct (decide (rowOf cell = r)) as [<-|Hne].
      * rewrite lookup_insert_eq in Hr. injection Hr as <-.
        destruct (decide (colOf cell = c)) as [<-|Hnc].
        -- rewrite lookup_insert_eq in Hc. injection Hc as <-.
           split; [apply elem_of_app; right; by left | done].
        -- rewrite lookup_insert_ne in Hc by done.
           destruct (Hstored _ _ _ _ Earr Hc) as (? & ? & ? & ?).
           split; [apply elem_of_app; by left | done].
      * rewrite lookup_insert_ne in Hr by done.
        destruct (Hstored _ _ _ _ Hr Hc) as (? & ? & ? & ?).
        split; [apply elem_of_app; by left | done].
    + intros cell' [Hin| ->%list_elem_of_singleton]%elem_of_app Hr' Hc'.
      * destruct (Hkept cell' Hin Hr' Hc') as (arr' & Harr' & Hsome).
        destruct (decide (rowOf cell = rowOf cell')) as [Heq|Hne].
        -- rewrite <-Heq, lookup_insert_eq. eexists; split; [done|].
           rewrite <-Heq, Earr in Harr'. injection Harr' as <-.
           destruct (decide (colOf cell = colOf cell')) as [<-|Hnc].
           ++ by rewrite lookup_insert_eq.
           ++ by rewrite lookup_insert_ne.
        -- rewrite lookup_insert_ne by done. eauto.
      * rewrite lookup_insert_eq. eexists; split; [done|]. by rewrite lookup_insert_eq.
    + intros c. destruct (0 <? rowOf cell) eqn:E0.
      * apply Z.ltb_lt in E0. rewrite elem_of_set_add, Hbc. split.
        -- intros [->|(cell' & Hin & ?)].
           ++ exists cell. split; [apply elem_of_app; right; by left | split; [done | lia]].
           ++ exists cell'. split; [apply elem_of_app; by left | done].
        -- intros (cell' & [Hin| ->%list_elem_of_singleton]%elem_of_app & Hcol & ?);
             [right; by exists cell' | by left].
      * apply Z.ltb_ge in E0. rewrite Hbc. split.
        -- intros (cell' & Hin & ?). exists cell'. split; [apply elem_of_app; by left | done].
        -- intros (cell' & [Hin| ->%list_elem_of_singleton]%elem_of_app & Hcol & ? & ?);
             [by exists cell' | lia].
    + destruct (0 <? rowOf cell); [by apply NoDup_set_add | done].
  - apply andb_false_iff in Eg. intros [= <-].
    split; [done|split; [|split; [|split; [|done]]]].
    + intros r c arr cell' Hr Hc. destruct (Hstored _ _ _ _ Hr Hc) as (? & ? & ? & ?).
      split; [apply elem_of_app; by left | done].
    + intros cell' [Hin| ->%list_elem_of_singleton]%elem_of_app Hr' Hc'; [by apply Hkept|].
      destruct Eg as [E%Z.ltb_ge|E%Z.ltb_ge]; lia.
    + intros c. rewrite Hbc. split.
      * intros (cell' & Hin & ?). exists cell'. split; [apply elem_of_app; by left | done].
      * intros (cell' & [Hin| ->%list_elem_of_singleton]%elem_of_app & Hcol & ? & ?);
          [by exists cell' |].
        destruct Eg as [E%Z.ltb_ge|E%Z.ltb_ge]; lia.
Qed.

Lemma placeCells_inv rows cols cells grid st :
  buildGrid rows cols = Normal grid →
  placeCells rows cols cells grid = Normal st →
  placedInv rows cols cells st.
Proof.
  intros Hg Hp. unfold placeCells in Hp.
  eapply (forEachM_inv _ (placedInv rows cols)); [| |exact Hp].
  - by apply placedInv_init.
  - intros seen x s t. apply placedInv_step.
Qed.

(** The cells that pass the bounds test have a row array to go to: the
    scan of the cells does not throw. *)
Lemma placeCells_normal rows cols cells grid :
  buildGrid rows cols = Normal grid →
  (∀ cell, cell ∈ cells → rowOf cell < rows → colOf cell < cols → 0 ≤ rowOf cell) →
  ∃ st, placeCells rows cols cells grid = Normal st.
Proof.
  intros Hg Hcells. unfold placeCells.
  destruct (forEachM_normal (placeCell rows cols)
              (λ st, ∀ r, is_Some (st.1 !! r) ↔ 0 ≤ r < rows) cells (grid, []))
    as (st & Hst & _); [| |by exists st].
  - intros r. cbn. rewrite (buildGrid_rows _ _ _ Hg).
    case_bool_decide; [by split; eauto | split; [by intros [? ?] | done]].
  - intros cell st Hin Hdom. unfold placeCell.
    destruct ((rowOf cell <? rows) && (colOf cell <? cols)) eqn:Eg; [|by eauto].
    apply andb_true_iff in Eg as [Er%Z.ltb_lt Ec%Z.ltb_lt].
    destruct (proj2 (Hdom (rowOf cell))) as [arr Harr]; [by split; [apply Hcells | ]|].
    unfold gridRow. rewrite Harr. cbn. eexists; split; [done|]. cbn.
    intros r. rewrite <-Hdom. destruct (decide (rowOf cell = r)) as [<-|Hne].
    + rewrite lookup_insert_eq, Harr. split; eauto.
    + by rewrite lookup_insert_ne.
Qed.

(** The scan throws on a cell that passes the bounds test with a negative
    row: when it returns normally there is none. *)
Lemma placeCells_rows_nonneg rows cols cells grid st :
  buildGrid rows cols = Normal grid →
  placeCells rows cols cells grid = Normal st →
  ∀ cell, cell ∈ cells → rowOf cell < rows → colOf cell < cols → 0 ≤ rowOf cell.
Proof.
  intros Hg Hp cell Hin Hr Hc.
  destruct (placeCells_inv _ _ _ _ _ Hg Hp) as (Hdom & _ & Hkept & _).
  destruct (Hkept cell Hin Hr Hc) as (arr & Harr & _).
  apply Hdom. by rewrite Harr.
Qed.

Lemma gridRow_placed rows cols seen st r :
  placedInv rows cols seen st → 0 ≤ r < rows → gridRow st.1 r = Normal (rowArray st r).
Proof.
  intros (Hdom & _) Hr. unfold gridRow, rowArray.
  by destruct (proj2 (Hdom r) Hr) as [arr ->].
Qed.

Lemma maxRowOf_normal rows cols seen st col :
  placedInv rows cols seen st → ∃ m, maxRowOf st.1 rows col = Normal m.
Proof.
  intros Hinv. unfold maxRowOf.
  destruct (forEachM_normal
              (λ (maxRow r : Z), arr ← gridRow st.1 r;
                 Normal (if bool_decide (is_Some (arr !! col)) then r else maxRow))
              (λ _, True) (seqZ 0 rows) 0) as (m & Hm & _); [done | | by exists m].
  intros r m Hr%elem_of_seqZ _.
  rewrite (gridRow_placed _ _ _ _ r Hinv) by lia. cbn. eauto.
Qed.

Lemma connectors_normal rows cols seen st :
  placedInv rows cols seen st → ∃ conns, connectors st.1 st.2 rows = Normal conns.
Proof.
  intros Hinv. unfold connectors.
  destruct (forEachM_normal
              (λ (acc : list Connector) (col : Z),
                 maxRow ← maxRowOf st.1 rows col;
                 Normal (if 0 <? maxRow then acc ++ [mkConnector col 0 maxRow] else acc))
              (λ _, True) st.2 []) as (conns & Hc & _); [done | | by exists conns].
  intros col acc _ _. destruct (maxRowOf_normal _ _ _ _ col Hinv) as [m ->]. cbn. eauto.
Qed.

(** The layout of a rung that is laid out: the grid was built, the cells
    were placed, and the rows and the connectors are read off the grid. *)
Lemma rungLayout_Normal rung layout :
  rungLayout rung = Normal layout →
  ∃ grid st,
    buildGrid (rungRows rung) (rungCols rung) = Normal grid
    ∧ placeCells (rungRows rung) (rungCols rung) (arr_or (rung_cells rung)) grid = Normal st
    ∧ layout_rows layout
      = map (λ r, (r, map (entryAt (rowArray st r) st.2 (rungCols rung) r)
                          (seqZ 0 (rungCols rung))))
            (seqZ 0 (rungRows rung))
    ∧ connectors st.1 st.2 (rungRows rung) = Normal (layout_connectors layout).
Proof.
  unfold rungLayout. intros H.
  apply bind_Normal in H as (grid & Hg & H).
  apply bind_Normal in H as (st & Hp & H).
  apply bind_Normal in H as (rws & Hr & H).
  apply bind_Normal in H as (conns & Hc & [= <-]).
  exists grid, st. split; [done|]. split; [done|]. split; [|done]. cbn.
  pose proof (placeCells_inv _ _ _ _ _ Hg Hp) as Hinv.
  rewrite (forEachM_collect _
             (λ r, (r, map (entryAt (rowArray st r) st.2 (rungCols rung) r)
                           (seqZ 0 (rungCols rung))))) in Hr.
  - by injection Hr as <-.
  - intros acc r Hin%elem_of_seqZ. unfold rowEntries.
    by rewrite (gridRow_placed _ _ _ _ r Hinv) by lia.
Qed.

(** A rung is laid out without an exception when its column count is an
    array length and no cell passes the bounds test with a negative row. *)
Lemma rungLayout_normal rung :
  rungRows rung ≤ 0 ∨ 0 ≤ rungCols rung ≤ 4294967295 →
  (∀ cell, cell ∈ arr_or (rung_cells rung) →
     rowOf cell < rungRows rung → colOf cell < rungCols rung → 0 ≤ rowOf cell) →
  ∃ layout, rungLayout rung = Normal layout.
Proof.
  intros Hcols Hcells. unfold rungLayout.
  destruct (buildGrid_normal _ _ Hcols) as [grid Hg]. rewrite Hg. cbn.
  destruct (placeCells_normal _ _ _ _ Hg Hcells) as [st Hp]. rewrite Hp. cbn.
  pose proof (placeCells_inv _ _ _ _ _ Hg Hp) as Hinv.
  rewrite (forEachM_collect _
             (λ r, (r, map (entryAt (rowArray st r) st.2 (rungCols rung) r)
                           (seqZ 0 (rungCols rung))))).
  - cbn. destruct (connectors_normal _ _ _ _ Hinv) as [conns ->]. cbn. eauto.
  - intros acc r Hin%elem_of_seqZ. unfold rowEntries.
    by rewrite (gridRow_placed _ _ _ _ r Hinv) by lia.
Qed.

Lemma hasLaterContent_spec arr cols c :
  hasLaterContent arr cols c = true ↔ ∃ cc, c < cc < cols ∧ is_Some (arr !! cc).
Proof.
  unfold hasLaterContent. rewrite existsb_exists. split.
  - intros (cc & Hin%list_elem_of_In%elem_of_seqZ & H%bool_decide_eq_true).
    exists cc. split; [lia | done].
  - intros (cc & Hcc & H). exists cc. split; [|by apply bool_decide_eq_true].
    apply list_elem_of_In, elem_of_seqZ. lia.
Qed.

Lemma layoutEntry_placed rung layout grid st r c :
  buildGrid (rungRows rung) (rungCols rung) = Normal grid →
  placeCells (rungRows rung) (rungCols rung) (arr_or (rung_cells rung)) grid = Normal st →
  layout_rows layout
    = map (λ r, (r, map (entryAt (rowArray st r) st.2 (rungCols rung) r)
                        (seqZ 0 (rungCols rung))))
          (seqZ 0 (rungRows rung)) →
  0 ≤ r < rungRows rung → 0 ≤ c < rungCols rung →
  layoutEntry layout r c = Some (entryAt (rowArray st r) st.2 (rungCols rung) r c).
Proof.
  intros Hg Hp Hrows Hr Hc. unfold layoutEntry. rewrite Hrows, list_lookup_fmap.
  rewrite lookup_seqZ_lt by lia. cbn. rewrite list_lookup_fmap, lookup_seqZ_lt by lia. cbn.
  by rewrite !Z.add_0_l, !Z2Nat.id by lia.
Qed.

(** In a rung that is laid out, an empty grid position on row 0 holds a
    horizontal filler; an empty position [(r, c)] on a branch row holds a
    filler exactly when a cell is placed in row [r] at a later column of the
    grid or a cell within the bounds is placed in column [c] on a row above
    0, and the inert placeholder otherwise. *)
Lemma empty_position_entry :
  ∀ (rung : Rung) (layout : Layout) (r c : Z),
    rungLayout rung = Normal layout →
    0 ≤ r < rungRows rung → 0 ≤ c < rungCols rung →
    (∀ cell, cell ∈ arr_or (rung_cells rung) → ¬ (rowOf cell = r ∧ colOf cell = c)) →
    ∃ e, layoutEntry layout r c = Some e
         ∧ (r = 0 → e = ESpacer r c)
         ∧ (0 < r →
            (e = ESpacer r c ↔
               (∃ cell, cell ∈ arr_or (rung_cells rung)
                        ∧ rowOf cell = r ∧ c < colOf cell < rungCols rung)
               ∨ (∃ cell, cell ∈ arr_or (rung_cells rung)
                          ∧ colOf cell = c ∧ 0 < rowOf cell < rungRows rung))
            ∧ (e = ESpacer r c ∨ e = EEmpty r c)).
Proof.
  intros rung layout r c HL Hr Hc Hempty.
  destruct (rungLayout_Normal _ _ HL) as (grid & st & Hg & Hp & Hrows & _).
  destruct (placeCells_inv _ _ _ _ _ Hg Hp) as (Hdom & Hstored & Hkept & Hbc & _).
  eexists. split; [by apply (layoutEntry_placed rung layout grid st)|].
  destruct (proj2 (Hdom r) Hr) as [arr Harr].
  assert (rowArray st r = arr) as -> by (unfold rowArray; by rewrite Harr).
  unfold entryAt.
  destruct (arr !! c) as [cell|] eqn:Ecell.
  { destruct (Hstored _ _ _ _ Harr Ecell) as (Hin & ? & ? & _). by destruct (Hempty cell Hin). }
  split.
  - intros ->. done.
  - intros H0. rewrite (proj2 (Z.eqb_neq r 0)) by lia.
    assert (hasLaterContent arr (rungCols rung) c || bool_decide (c ∈ st.2) = true ↔
            (∃ cell, cell ∈ arr_or (rung_cells rung)
                     ∧ rowOf cell = r ∧ c < colOf cell < rungCols rung)
            ∨ (∃ cell, cell ∈ arr_or (rung_cells rung)
                       ∧ colOf cell = c ∧ 0 < rowOf cell < rungRows rung)) as Hiff.
    { rewrite orb_true_iff, hasLaterContent_spec, bool_decide_eq_true, Hbc. split.
      - intros [(cc & Hcc & [cell Hcell])|(cell & Hin & ? & ? & _)].
        + destruct (Hstored _ _ _ _ Harr Hcell) as (Hin & ? & ? & _).
          left. exists cell. split; [done | split; [done | lia]].
        + right. by exists cell.
      - intros [(cell & Hin & <- & Hcc)|(cell & Hin & ? & ?)].
        + left. exists (colOf cell). split; [done|].
          destruct (Hkept cell Hin) as (arr' & Harr' & Hsome); [lia | lia |].
          rewrite Harr in Harr'. by injection Harr' as <-.
        + right. exists cell. split; [done | split; [done | split; [done | lia]]]. }
    destruct (hasLaterContent arr (rungCols rung) c || bool_decide (c ∈ st.2)).
    + split; [|by left]. by rewrite <-Hiff.
    + split; [|by right]. split; [done|]. intros H%Hiff. done.
Qed.


(** ** Branch connectors *)





(** ** Cells outside the grid *)


(** With the [LadSymbols] object of ladsymbols.js, a rung that has a cell
    inside its grid is not rendered at all: [createCellHtml] calls the
    missing [isBlockSymbol] member. *)
Lemma createRungHtml_needs_isBlockSymbol :
  createRungHtml LadSymbols_module example_rung
    = Throw (TypeError "LadSymbols.isBlockSymbol is not a function").
Proof. reflexivity. Qed.

(** C6 (the code departs from the claim). A cell at row -1 lies outside
    the grid, passes the bounds test of [createRungHtml] (which compares
    with the upper bounds only) and makes the rendering of its rung throw,
    with any symbol library: [grid[-1]] is undefined. *)
Theorem negative_row_throws :
  ∀ LS, createRungHtml LS rung_negative_row
        = Throw (TypeError "Cannot access a property of undefined").
Proof. intros LS. reflexivity. Qed.

(** C1 (the code departs from the claim). A cell at row 1 and column -1
    lies outside the grid and is not part of any row of the output, yet
    the rung is rendered with a connector at column -1 that spans rows 0
    to 1. *)
Theorem connector_at_negative_column :
  rungLayout rung_negative_col
    = Normal (mkLayout [(0, [ESpacer 0 0]); (1, [EEmpty 1 0])] [mkConnector (-1) 0 1])
  ∧ ∃ rowsHtml,
      createRungHtml LadSymbols_module rung_negative_col
        = Normal (rungHtml rung_negative_col rowsHtml (createBranchConnector (-1) 0 1)).
Proof.
  split; [reflexivity|].
  unfold createRungHtml.
  replace (rungLayout rung_negative_col)
    with (Normal (mkLayout [(0, [ESpacer 0 0]); (1, [EEmpty 1 0])] [mkConnector (-1) 0 1]))
    by reflexivity.
  cbn [mbind completion_bind layout_rows layout_connectors].
  destruct (concatM (rowHtml LadSymbols_module) [(0, [ESpacer 0 0]); (1, [EEmpty 1 0])])
    as [rowsHtml|e] eqn:E; [|by vm_compute in E].
  exists rowsHtml. reflexivity.
Qed.


(** ** Escaping *)

Lemma occ_app ch s1 s2 : occ ch (s1 +:+ s2) = (occ ch s1 + occ ch s2)%nat.
Proof. induction s1 as [|a s1 IH]; [done|]. simpl. rewrite IH. lia. Qed.

(** The escaped text holds no tag delimiter. *)
Lemma occ_escapeText ch s : angle ch → occ ch (escapeText s) = 0%nat.
Proof.
  intros Hch.
  assert (∀ n s, (String.length s ≤ n)%nat → occ ch (escapeText s) = 0%nat) as H.
  { induction n as [|n IH]; intros [|c t] Hlen; cbn in Hlen; try done; try lia.
    cbn [escapeText].
    destruct (Ascii.eqb c "&") eqn:E1;
      [rewrite occ_app, IH by lia; by destruct Hch as [-> | ->]|].
    destruct (Ascii.eqb c "<") eqn:E2;
      [rewrite occ_app, IH by lia; by destruct Hch as [-> | ->]|].
    destruct (Ascii.eqb c ">") eqn:E3;
      [rewrite occ_app, IH by lia; by destruct Hch as [-> | ->]|].
    assert (Ascii.eqb c ch = false) as Hc by (by destruct Hch as [-> | ->]).
    destruct (Ascii.eqb c "194") eqn:E4.
    - destruct t as [|c' t']; [cbn; by rewrite Hc|].
      destruct (Ascii.eqb c' "160") eqn:E5.
      + cbn in Hlen. rewrite occ_app, IH by lia. by destruct Hch as [-> | ->].
      + cbn [occ]. rewrite Hc, IH by lia. done.
    - cbn [occ]. rewrite Hc, IH by lia. done. }
  by apply (H (String.length s)).
Qed.

Lemma occ_escapeHtml ch s : angle ch → occ ch (escapeHtml s) = 0%nat.
Proof. intros H. unfold escapeHtml. destruct (truthy s); [by apply occ_escapeText | done]. Qed.

(** An integer is written with digits and a sign. *)
Lemma occ_Z_toString ch z : angle ch → occ ch (Z_toString z) = 0%nat.
Proof.
  intros Hch. unfold Z_toString.
  assert (∀ d, occ ch (NilEmpty.string_of_uint d) = 0%nat) as Hu.
  { induction d; cbn; rewrite ?IHd; by destruct Hch as [-> | ->]. }
  assert (∀ d, occ ch (NilZero.string_of_uint d) = 0%nat) as Hz.
  { intros d. destruct d; try apply Hu. by destruct Hch as [-> | ->]. }
  destruct (Z.to_int z) as [d|d]; cbn.
  - apply Hz.
  - rewrite Hz. by destruct Hch as [-> | ->].
Qed.

Lemma occ_spaces ch n : angle ch → occ ch (spaces n) = 0%nat.
Proof. intros Hch. induction n as [|n IH]; [done|]. cbn. rewrite IH. by destruct Hch as [-> | ->]. Qed.

Lemma occ_nl ch n : angle ch → occ ch (nl n) = 0%nat.
Proof.
  intros Hch. unfold nl. rewrite occ_app, occ_spaces by done. by destruct Hch as [-> | ->].
Qed.

Lemma occ_attr ch name value : angle ch → occ ch (attr name value) = (occ ch name + occ ch value)%nat.
Proof.
  intros Hch. unfold attr. rewrite !occ_app.
  replace (occ ch "=") with 0%nat by (by destruct Hch as [-> | ->]).
  replace (occ ch dq) with 0%nat by (by destruct Hch as [-> | ->]). lia.
Qed.

(** Rewriting an occurrence count down to the counts of the literals. *)
Ltac occ_split Hch :=
  rewrite ?occ_app, ?(occ_attr _ _ _ Hch), ?occ_app,
          ?(occ_nl _ _ Hch), ?(occ_escapeHtml _ _ Hch), ?(occ_Z_toString _ _ Hch).

(** Evaluating the counts of the literals, for either delimiter. *)
Ltac occ_literals Hch := destruct Hch as [-> | ->]; cbn; lia.

Lemma occ_createCellHtml ch LS cell html :
  angle ch → createCellHtml LS cell = Normal html →
  occ ch html = entryMarks ch LS (ECell cell).
Proof.
  intros Hch. unfold createCellHtml, isBlockSymbol, call_getSymbol, entryMarks,
    showsParams, showsAddress, drawnAsBlock, svgMarks.
  destruct (member_isBlockSymbol LS) as [isBlk|]; [|done].
  destruct (member_getSymbol LS) as [getSym|]; [|done]. cbn.
  intros [= <-].
  set (blk := isBlk _ || bool_decide (_ = "block")).
  occ_split Hch.
  assert (occ ch (match arr_or (cell_addrs cell) with
                  | [] => ""
                  | _ :: _ => attr "data-addresses" (escapeHtml (join "," (arr_or (cell_addrs cell))))
                  end) = 0%nat) as ->.
  { destruct (arr_or (cell_addrs cell)); [done|]. occ_split Hch. occ_literals Hch. }
  assert (occ ch (if blk then "ladder-cell ladder-block-cell" else "ladder-cell") = 0%nat) as ->.
  { destruct blk; occ_literals Hch. }
  assert (occ ch (if blk && bool_decide (arr_or (cell_params cell) ≠ [])
                  then "<span " +:+ attr "class" "block-params" +:+ ">"
                       +:+ escapeHtml (join " " (take 4 (arr_or (cell_params cell))))
                       +:+ "</span>"
                  else "")
          = if blk && bool_decide (arr_or (cell_params cell) ≠ []) then 2 else 0)%nat as ->.
  { destruct (blk && _); [|done]. occ_split Hch. occ_literals Hch. }
  assert (occ ch (if truthy (str_or (cell_addr cell) "")
                  then "<span " +:+ attr "class" "cell-address" +:+ ">"
                       +:+ escapeHtml (str_or (cell_addr cell) "") +:+ "</span>"
                  else match arr_or (cell_addrs cell) with
                       | [] => ""
                       | a0 :: _ => "<span " +:+ attr "class" "cell-address" +:+ ">"
                                    +:+ escapeHtml a0 +:+ "</span>"
                       end)
          = if truthy (str_or (cell_addr cell) "") || bool_decide (arr_or (cell_addrs cell) ≠ [])
            then 2 else 0)%nat as ->.
  { destruct (truthy (str_or (cell_addr cell) "")); cbn [orb].
    - occ_split Hch. occ_literals Hch.
    - destruct (arr_or (cell_addrs cell)) as [|a0 l]; [done|].
      rewrite bool_decide_eq_true_2 by done. occ_split Hch. occ_literals Hch. }
  destruct (blk && _), (truthy _ || _); occ_literals Hch.
Qed.

Lemma occ_entryHtml ch LS e html :
  angle ch → entryHtml LS e = Normal html → occ ch html = entryMarks ch LS e.
Proof.
  intros Hch. destruct e as [cell|r c|r c]; cbn [entryHtml].
  - by apply occ_createCellHtml.
  - unfold createSpacerHtml, call_getSymbol, entryMarks, svgMarks.
    destruct (member_getSymbol LS) as [getSym|]; [|done]. cbn. intros [= <-].
    occ_split Hch. occ_literals Hch.
  - intros [= <-]. unfold emptyHtml. occ_split Hch. occ_literals Hch.
Qed.

Lemma occ_concatM {A} ch (f : A → Completion string) (g : A → nat) xs html :
  (∀ x h, f x = Normal h → occ ch h = g x) →
  concatM f xs = Normal html → occ ch html = sum_list (map g xs).
Proof.
  intros Hf. revert html. induction xs as [|x xs IH]; intros html; cbn.
  - by intros [= <-].
  - intros (h & Hh & (t & Ht & [= <-])%bind_Normal)%bind_Normal.
    by rewrite occ_app, (Hf x h Hh), (IH t Ht).
Qed.

Lemma occ_rowHtml ch LS row html :
  angle ch → rowHtml LS row = Normal html →
  occ ch html = (2 + sum_list (map (entryMarks ch LS) row.2))%nat.
Proof.
  intros Hch. unfold rowHtml. intros (cellsHtml & Hcells & [= <-])%bind_Normal.
  occ_split Hch.
  rewrite (occ_concatM ch (entryHtml LS) (entryMarks ch LS) _ _
             (λ e h, occ_entryHtml ch LS e h Hch) Hcells).
  destruct (row.1 =? 0); occ_literals Hch.
Qed.

Lemma occ_connectors ch (conns : list Connector) :
  angle ch → occ ch (String.concat "" (map connectorHtml conns)) = (2 * length conns)%nat.
Proof.
  intros Hch.
  assert (∀ k, occ ch (connectorHtml k) = 2%nat) as Hk.
  { intros k. unfold connectorHtml, createBranchConnector. occ_split Hch. occ_literals Hch. }
  induction conns as [|k [|k' conns] IH]; [done | cbn; rewrite Hk; lia |].
  change (String.concat "" (map connectorHtml (k :: k' :: conns)))
    with (connectorHtml k +:+ "" +:+ String.concat "" (map connectorHtml (k' :: conns))).
  rewrite !occ_app, IH, Hk. cbn. lia.
Qed.

Lemma occ_rungHtml ch rung rowsHtml connectorsHtml :
  angle ch →
  occ ch (rungHtml rung rowsHtml connectorsHtml)
  = (14 + (if truthy (str_or (rung_comment rung) "") then 2 else 0)
     + occ ch rowsHtml + occ ch connectorsHtml)%nat.
Proof.
  intros Hch. unfold rungHtml, commentHtml. occ_split Hch.
  destruct (truthy (str_or (rung_comment rung) "")); occ_split Hch; occ_literals Hch.
Qed.

(** The markup of a rung is the markup of its layout. *)
Lemma createRungHtml_Normal LS rung html :
  createRungHtml LS rung = Normal html →
  ∃ layout rowsHtml,
    rungLayout rung = Normal layout
    ∧ concatM (rowHtml LS) (layout_rows layout) = Normal rowsHtml
    ∧ html = rungHtml rung rowsHtml
               (String.concat "" (map connectorHtml (layout_connectors layout))).
Proof.
  unfold createRungHtml.
  intros (layout & HL & (rowsHtml & Hrows & [= <-])%bind_Normal)%bind_Normal.
  by exists layout, rowsHtml.
Qed.

(** C10. In the markup of a rung, the text fields of the cells ([addr],
    the entries of [addrs], [opcode], [symbol], the entries of [params])
    and the comment of the rung are written through [escapeHtml], whose
    result holds neither [<] nor [>]; so the number of tag delimiters in
    the markup is the number the templates and the symbols write, whatever
    characters the text fields hold: they introduce no element. *)
Theorem text_fields_introduce_no_element :
  ∀ (LS : LadSymbolsObject) (rung : Rung) (html : string) (ch : ascii),
    angle ch →
    createRungHtml LS rung = Normal html →
    (∀ text, occ ch (escapeHtml text) = 0%nat)
    ∧ ∃ layout,
        rungLayout rung = Normal layout
        ∧ occ ch html
          = layoutMarks ch LS (truthy (str_or (rung_comment rung) "")) layout.
Proof.
  intros LS rung html ch Hch Hrun. split; [intros text; by apply occ_escapeHtml|].
  destruct (createRungHtml_Normal _ _ _ Hrun) as (layout & rowsHtml & HL & Hrows & ->).
  exists layout. split; [done|].
  rewrite occ_rungHtml, occ_connectors by done. unfold layoutMarks.
  by rewrite (occ_concatM ch (rowHtml LS)
                (λ row, (2 + sum_list (map (entryMarks ch LS) row.2))%nat) _ _
                (λ row h, occ_rowHtml ch LS row h Hch) Hrows).
Qed.

Lemma text_fields_introduce_no_element_witness :
  angle "<"
  ∧ ∃ html html',
      createRungHtml LadSymbols_complete example_rung = Normal html
      ∧ createRungHtml LadSymbols_complete hostile_rung = Normal html'
      ∧ occ "<" html' = occ "<" html.
Proof.
  split; [by left|].
  destruct (createRungHtml LadSymbols_complete example_rung) as [html|e] eqn:E;
    [|by vm_compute in E].
  destruct (createRungHtml LadSymbols_complete hostile_rung) as [html'|e] eqn:E';
    [|by vm_compute in E'].
  exists html, html'. split; [done|]. split; [done|].
  destruct (text_fields_introduce_no_element LadSymbols_complete example_rung html "<"
              (or_introl eq_refl) E) as (_ & layout & HL & ->).
  destruct (text_fields_introduce_no_element LadSymbols_complete hostile_rung html' "<"
              (or_introl eq_refl) E') as (_ & layout' & HL' & ->).
  vm_compute in HL, HL'. injection HL as <-. injection HL' as <-. by vm_compute.
Defined.

(** ** The layout in the markup *)

Lemma string_app_cons x (a b : string) : String x a +:+ b = String x (a +:+ b).
Proof. reflexivity. Qed.

Lemma string_app_assoc (a b c : string) : (a +:+ b) +:+ c = a +:+ (b +:+ c).
Proof. induction a as [|x a IH]; [done|]. by rewrite !string_app_cons, IH. Qed.

Lemma string_app_nil_r (a : string) : a +:+ "" = a.
Proof. induction a as [|x a IH]; [done|]. by rewrite string_app_cons, IH. Qed.

Lemma occursIn_refl s : occursIn s s.
Proof. exists "", "". simpl. by rewrite string_app_nil_r. Qed.

Lemma occursIn_app_l part s t : occursIn part s → occursIn part (s +:+ t).
Proof.
  intros (b & a & ->). exists b, (a +:+ t). by rewrite !string_app_assoc.
Qed.

Lemma occursIn_app_r part s t : occursIn part t → occursIn part (s +:+ t).
Proof.
  intros (b & a & ->). exists (s +:+ b), a. by rewrite !string_app_assoc.
Qed.

Lemma occursIn_trans a b c : occursIn a b → occursIn b c → occursIn a c.
Proof.
  intros Hab (pre & post & ->). by apply occursIn_app_r, occursIn_app_l.
Qed.

(** Finding a part in a concatenation of template pieces. *)
Ltac occurs_in :=
  solve [ eassumption | apply occursIn_refl
        | apply occursIn_app_l; occurs_in | apply occursIn_app_r; occurs_in ].

(** What a loop of [+=] wrote for an element of the list is part of the
    string it built. *)
Lemma concatM_occursIn {A} (f : A → Completion string) xs i x html :
  concatM f xs = Normal html → xs !! i = Some x →
  ∃ h, f x = Normal h ∧ occursIn h html.
Proof.
  revert i html. induction xs as [|y xs IH]; intros i html Hrun Hi; [done|].
  cbn in Hrun. apply bind_Normal in Hrun as (hy & Hy & (t & Ht & [= <-])%bind_Normal).
  destruct i as [|i]; cbn in Hi.
  - injection Hi as ->. exists hy. split; [done|]. apply occursIn_app_l, occursIn_refl.
  - destruct (IH i t Ht Hi) as (h & Hh & Hocc). exists h. split; [done|].
    by apply occursIn_app_r.
Qed.

Lemma rowHtml_occursIn LS row i e html :
  rowHtml LS row = Normal html → row.2 !! i = Some e →
  ∃ h, entryHtml LS e = Normal h ∧ occursIn h html.
Proof.
  unfold rowHtml. intros (cellsHtml & Hcells & [= <-])%bind_Normal Hi.
  destruct (concatM_occursIn _ _ _ _ _ Hcells Hi) as (h & Hh & Hocc).
  exists h. split; [done|]. occurs_in.
Qed.

Lemma rungHtml_rows_occursIn rung rowsHtml connectorsHtml :
  occursIn rowsHtml (rungHtml rung rowsHtml connectorsHtml).
Proof.
  unfold rungHtml. occurs_in.
Qed.

(** The markup of a rung holds the markup of every entry of its layout. *)
Lemma layoutEntry_occursIn LS rung layout rowsHtml r c e :
  concatM (rowHtml LS) (layout_rows layout) = Normal rowsHtml →
  layoutEntry layout r c = Some e →
  ∃ h, entryHtml LS e = Normal h
       ∧ occursIn h (rungHtml rung rowsHtml
                       (String.concat "" (map connectorHtml (layout_connectors layout)))).
Proof.
  intros Hrows He. unfold layoutEntry in He.
  destruct (layout_rows layout !! Z.to_nat r) as [row|] eqn:Hrow; [|done]. cbn in He.
  destruct (concatM_occursIn _ _ _ _ _ Hrows Hrow) as (hr & Hhr & Hocc).
  destruct (rowHtml_occursIn _ _ _ _ _ Hhr He) as (h & Hh & Hocc').
  exists h. split; [done|].
  eapply occursIn_trans; [exact Hocc'|].
  eapply occursIn_trans; [exact Hocc|]. apply rungHtml_rows_occursIn.
Qed.

(** ** Fillers and placeholders in the markup *)

Lemma scan_app st a b :
  tagsFrom st (a +:+ b) = tagsFrom st a ++ tagsFrom (endState st a) b
  ∧ endState st (a +:+ b) = endState (endState st a) b.
Proof.
  revert st. induction a as [|ch a IH]; intros st; [done|].
  rewrite string_app_cons. cbn [tagsFrom endState].
  destruct st as [tag|].
  - destruct (Ascii.eqb ch ">"); [|apply IH].
    destruct (IH None) as [-> ->]. done.
  - destruct (Ascii.eqb ch "<"); apply IH.
Qed.

Lemma Scan_app st a b ta tb st1 st2 :
  Scan st a ta st1 → Scan st1 b tb st2 → Scan st (a +:+ b) (ta ++ tb) st2.
Proof.
  unfold Scan. intros [<- <-] [<- <-]. apply scan_app.
Qed.

Lemma Scan_nil st : Scan st "" [] st.
Proof. done. Qed.

Lemma Scan_text s : occ "<" s = 0%nat → Scan None s [] None.
Proof.
  induction s as [|ch s IH]; [done|]. cbn [occ]. unfold Scan. cbn [tagsFrom endState].
  destruct (Ascii.eqb ch "<"); [done|]. intros H. by apply IH.
Qed.

Lemma Scan_inside tag s : occ ">" s = 0%nat → Scan (Some tag) s [] (Some (tag +:+ s)).
Proof.
  revert tag. induction s as [|ch s IH]; intros tag.
  - intros _. unfold Scan. cbn. by rewrite string_app_nil_r.
  - cbn [occ]. unfold Scan. cbn [tagsFrom endState].
    destruct (Ascii.eqb ch ">"); [done|]. intros H.
    destruct (IH (tag +:+ String ch "") H) as [-> ->].
    by rewrite string_app_assoc.
Qed.

Lemma Scan_close tag s tags st :
  Scan None s tags st → Scan (Some tag) (String ">" s) (tag :: tags) st.
Proof. by intros [<- <-]. Qed.

Lemma Scan_plain s : plainMarkup s → Scan None s (tagsOf s) None.
Proof. by intros [? _]. Qed.

Lemma angle_lt : angle "<".
Proof. by left. Qed.
Lemma angle_gt : angle ">".
Proof. by right. Qed.

(** Side conditions: a piece holds no [<], no [>]. *)
Ltac no_angle H :=
  solve [ reflexivity
        | occ_split H; reflexivity
        | repeat (match goal with |- context [if ?b then _ else _] => destruct b end);
          occ_split H; reflexivity
        | repeat (match goal with |- context [match ?l with [] => _ | _ :: _ => _ end] =>
                    destruct l end);
          occ_split H; reflexivity ].

(** The scan of a string literal from outside a tag, by computation. *)
Ltac scan_literal :=
  lazymatch goal with
  | |- Scan None ?s _ _ =>
      lazymatch s with
      | String _ _ =>
          let ts := eval vm_compute in (tagsFrom None s) in
          let st := eval vm_compute in (endState None s) in
          exact (conj (eq_refl : tagsFrom None s = ts) (eq_refl : endState None s = st))
      end
  end.

Ltac scan_atom :=
  first [ exact (Scan_nil _)
        | apply Scan_text; no_angle angle_lt
        | apply Scan_inside; unfold fillerTag, placeholderTag; no_angle angle_gt
        | apply Scan_close; scan_atom
        | scan_literal
        | apply Scan_plain; assumption
        | eassumption ].

Ltac scan :=
  lazymatch goal with
  | |- Scan _ (_ +:+ _) _ _ => eapply Scan_app; [scan_atom | scan]
  | |- Scan _ _ _ _ => scan_atom
  end.

Lemma plainMarkup_intro s tags :
  Scan None s tags None → List.filter isGridTag tags = [] → plainMarkup s.
Proof. intros [<- ?] ?. by split. Qed.

(** Evaluating [isGridTag] on the tags a scan has found. *)
Ltac grid_filter :=
  rewrite ?List.filter_app; cbn [List.filter app];
  repeat match goal with
         | |- context [isGridTag ?t] =>
             first [ replace (isGridTag t) with false by reflexivity
                   | replace (isGridTag t) with true by reflexivity ]
         end;
  cbn [List.filter app].

Lemma scan_emptyHtml r c : Scan None (emptyHtml r c) [placeholderTag r c; "/div"] None.
Proof.
  eassert (Scan None (emptyHtml r c) _ None) as H by (unfold emptyHtml; scan).
  destruct H as [H1 H2]. split; [|done]. rewrite H1. cbn [app].
  f_equal. unfold placeholderTag, attr.
  rewrite !string_app_assoc. reflexivity.
Qed.

Lemma plain_createCellHtml LS cell html :
  plainGraphics LS → createCellHtml LS cell = Normal html → plainMarkup html.
Proof.
  intros HLS. unfold createCellHtml, isBlockSymbol, call_getSymbol.
  destruct (member_isBlockSymbol LS) as [isBlk|]; [|done].
  destruct (member_getSymbol LS) as [getSym|] eqn:Eget; [|done]. cbn.
  intros [= <-].
  set (blk := isBlk _ || bool_decide (_ = "block")).
  pose proof (HLS getSym (str_or (cell_symbol cell) "il") Eget) as Hsvg.
  set (svg := getSym _ _) in *.
  set (params := if blk && _ then _ else _).
  set (address := if truthy _ then _ else _).
  assert (plainMarkup params) as Hparams.
  { unfold params. destruct (blk && _).
    - eapply plainMarkup_intro; [scan | by grid_filter].
    - by split. }
  assert (plainMarkup address) as Haddress.
  { unfold address. destruct (truthy _).
    - eapply plainMarkup_intro; [scan | by grid_filter].
    - destruct (arr_or (cell_addrs cell)); [by split|].
      eapply plainMarkup_intro; [scan | by grid_filter]. }
  eapply plainMarkup_intro; [scan|].
  grid_filter.
  destruct Hsvg as [_ Hs], Hparams as [_ Hp], Haddress as [_ Ha].
  unfold gridTags in Hs, Hp, Ha. by rewrite Hs, Hp, Ha.
Qed.

Lemma fillerTag_spacer r c :
  "div " +:+ attr "class" "ladder-spacer" +:+ " " +:+ attr "data-row" (Z_toString r)
  +:+ " " +:+ attr "data-col" (Z_toString c) = fillerTag r c.
Proof. unfold fillerTag, attr. rewrite !string_app_assoc. reflexivity. Qed.

Lemma createSpacerHtml_markup LS r c html :
  createSpacerHtml LS r c = Normal html →
  ∃ getSym, member_getSymbol LS = Some getSym
            ∧ html = fillerMarkup (getSym "hline" "MB_ladderoff") r c.
Proof.
  unfold createSpacerHtml, call_getSymbol.
  destruct (member_getSymbol LS) as [getSym|]; [|done]. cbn. intros [= <-].
  exists getSym. split; [done|]. unfold fillerMarkup, fillerTag, attr.
  rewrite !string_app_assoc. reflexivity.
Qed.

Lemma emptyHtml_markup r c : emptyHtml r c = placeholderMarkup r c.
Proof.
  unfold emptyHtml, placeholderMarkup, placeholderTag, attr.
  rewrite !string_app_assoc. reflexivity.
Qed.

Lemma isGridTag_filler r c : isGridTag (fillerTag r c) = true.
Proof. reflexivity. Qed.
Lemma isGridTag_placeholder r c : isGridTag (placeholderTag r c) = true.
Proof. reflexivity. Qed.

(** What the scan finds in the markup of an entry of the layout. *)
Lemma piece_entryHtml LS e html :
  plainGraphics LS → entryHtml LS e = Normal html →
  endState None html = None ∧ gridTags html = entryGridTags e.
Proof.
  intros HLS. destruct e as [cell|r c|r c]; cbn [entryHtml entryGridTags].
  - intros H. exact (plain_createCellHtml LS cell html HLS H).
  - intros (getSym & Hget & ->)%createSpacerHtml_markup.
    pose proof (HLS getSym "hline" Hget) as Hsvg. set (svg := getSym _ _) in *.
    eassert (Scan None (fillerMarkup svg r c) _ None) as [Ht He]
      by (unfold fillerMarkup; scan).
    split; [done|]. unfold gridTags, tagsOf. rewrite Ht. grid_filter.
    destruct Hsvg as [_ Hs]. unfold gridTags in Hs. by rewrite Hs.
  - intros [= <-]. destruct (scan_emptyHtml r c) as [Ht He].
    split; [done|]. unfold gridTags, tagsOf. rewrite Ht. cbn [List.filter].
    rewrite isGridTag_placeholder. done.
Qed.


Lemma gridTags_app a b :
  endState None a = None → gridTags (a +:+ b) = gridTags a ++ gridTags b.
Proof.
  intros Ha. unfold gridTags, tagsOf. destruct (scan_app None a b) as [-> _].
  by rewrite Ha, List.filter_app.
Qed.

Lemma endState_app a b :
  endState None a = None → endState None (a +:+ b) = endState None b.
Proof. intros Ha. destruct (scan_app None a b) as [_ ->]. by rewrite Ha. Qed.

Lemma piece_concatM {A} (f : A → Completion string) (g : A → list string) xs html :
  (∀ x h, f x = Normal h → endState None h = None ∧ gridTags h = g x) →
  concatM f xs = Normal html →
  endState None html = None ∧ gridTags html = flat_map g xs.
Proof.
  intros Hf. revert html. induction xs as [|x xs IH]; intros html; cbn.
  - by intros [= <-].
  - intros (h & Hh & (t & Ht & [= <-])%bind_Normal)%bind_Normal.
    destruct (Hf x h Hh) as [He Hg]. destruct (IH t Ht) as [He' Hg'].
    by rewrite endState_app, gridTags_app, Hg, Hg'.
Qed.

Lemma Scan_piece s : endState None s = None → Scan None s (tagsOf s) None.
Proof. done. Qed.

Lemma piece_rowHtml LS row html :
  plainGraphics LS → rowHtml LS row = Normal html →
  endState None html = None ∧ gridTags html = flat_map entryGridTags row.2.
Proof.
  intros HLS. unfold rowHtml. intros (cellsHtml & Hcells & [= <-])%bind_Normal.
  destruct (piece_concatM (entryHtml LS) entryGridTags _ _
              (λ e h, piece_entryHtml LS e h HLS) Hcells) as [He Hg].
  pose proof (Scan_piece _ He) as Hscan.
  eassert (Scan None _ _ None) as [Ht He'];
    [|split; [exact He'|]; unfold gridTags, tagsOf; rewrite Ht].
  { eapply Scan_app; [scan_atom|]. eapply Scan_app; [scan_atom|].
    eapply Scan_app; [scan_atom|]. eapply Scan_app; [scan_atom|].
    eapply Scan_app; [scan_atom|]. eapply Scan_app; [exact Hscan|]. scan_atom. }
  grid_filter. unfold gridTags in Hg. rewrite Hg.
  destruct (row.1 =? 0); grid_filter; by rewrite app_nil_r.
Qed.

Lemma plain_connectors (conns : list Connector) :
  plainMarkup (String.concat "" (map connectorHtml conns)).
Proof.
  assert (∀ k, plainMarkup (connectorHtml k)) as Hk.
  { intros k. unfold connectorHtml, createBranchConnector.
    eapply plainMarkup_intro; [scan | by grid_filter]. }
  induction conns as [|k [|k' conns] IH]; [by split | apply Hk |].
  change (String.concat "" (map connectorHtml (k :: k' :: conns)))
    with (connectorHtml k +:+ "" +:+ String.concat "" (map connectorHtml (k' :: conns))).
  destruct (Hk k) as [He Hg], IH as [He' Hg']. split.
  - by rewrite endState_app, endState_app.
  - by rewrite gridTags_app, gridTags_app, Hg, Hg'.
Qed.

Lemma piece_rungHtml rung rowsHtml connectorsHtml :
  endState None rowsHtml = None → plainMarkup connectorsHtml →
  gridTags (rungHtml rung rowsHtml connectorsHtml) = gridTags rowsHtml.
Proof.
  intros Hrows Hconn. unfold rungHtml. cbv zeta.
  pose proof (Scan_piece _ Hrows) as Hscan.
  assert (plainMarkup (commentHtml (str_or (rung_comment rung) ""))) as Hcomment.
  { unfold commentHtml. destruct (truthy _); [|by split].
    eapply plainMarkup_intro; [scan | by grid_filter]. }
  set (comment := commentHtml _) in *.
  eassert (Scan None _ _ None) as [Ht He];
    [|unfold gridTags at 1, tagsOf; rewrite Ht].
  { scan. }
  grid_filter.
  destruct Hcomment as [_ Hc], Hconn as [_ Hk]. unfold gridTags in *.
  by rewrite Hc, Hk, app_nil_r.
Qed.

Lemma gridTags_createRungHtml LS rung html :
  plainGraphics LS → createRungHtml LS rung = Normal html →
  ∃ layout,
    rungLayout rung = Normal layout
    ∧ gridTags html = flat_map (λ row : Z * list Entry, flat_map entryGridTags row.2)
                               (layout_rows layout).
Proof.
  intros HLS Hrun.
  destruct (createRungHtml_Normal _ _ _ Hrun) as (layout & rowsHtml & HL & Hrows & ->).
  exists layout. split; [done|].
  destruct (piece_concatM (rowHtml LS) (λ row, flat_map entryGridTags row.2) _ _
              (λ row h, piece_rowHtml LS row h HLS) Hrows) as [He Hg].
  by rewrite piece_rungHtml; [| |apply plain_connectors].
Qed.

(** The entries of the layout are the entries at the positions of the grid. *)
Lemma layout_entries rung layout e :
  rungLayout rung = Normal layout →
  (∃ row, row ∈ layout_rows layout ∧ e ∈ row.2) ↔
  ∃ r c, 0 ≤ r < rungRows rung ∧ 0 ≤ c < rungCols rung ∧ layoutEntry layout r c = Some e.
Proof.
  intros HL. destruct (rungLayout_Normal _ _ HL) as (grid & st & Hg & Hp & Hrows & _).
  split.
  - intros (row & Hrow & He). rewrite Hrows in Hrow.
    apply list_elem_of_fmap in Hrow as (r & -> & Hr%elem_of_seqZ). cbn in He.
    apply list_elem_of_fmap in He as (c & -> & Hc%elem_of_seqZ).
    exists r, c. split; [lia|]. split; [lia|].
    apply (layoutEntry_placed rung layout grid st); [done | done | done | lia | lia].
  - intros (r & c & Hr & Hc & He).
    rewrite (layoutEntry_placed rung layout grid st r c Hg Hp Hrows Hr Hc) in He.
    injection He as <-. eexists (r, _). split.
    + rewrite Hrows. apply list_elem_of_fmap. exists r. split; [done|].
      apply elem_of_seqZ. lia.
    + cbn. apply list_elem_of_fmap. exists c. split; [done|]. apply elem_of_seqZ. lia.
Qed.

Lemma layoutEntry_coordinates rung layout r c e :
  rungLayout rung = Normal layout →
  0 ≤ r < rungRows rung → 0 ≤ c < rungCols rung →
  layoutEntry layout r c = Some e →
  (∀ r' c', e = ESpacer r' c' → r' = r ∧ c' = c)
  ∧ (∀ r' c', e = EEmpty r' c' → r' = r ∧ c' = c).
Proof.
  intros HL Hr Hc He.
  destruct (rungLayout_Normal _ _ HL) as (grid & st & Hg & Hp & Hrows & _).
  rewrite (layoutEntry_placed rung layout grid st r c Hg Hp Hrows Hr Hc) in He.
  injection He as <-. unfold entryAt.
  destruct (rowArray st r !! c); [by split|].
  destruct (r =? 0); [split; [by intros ? ? [= <- <-] | done]|].
  destruct (_ || _); split; try done; by intros ? ? [= <- <-].
Qed.

Lemma string_app_inv_head (p a b : string) : p +:+ a = p +:+ b → a = b.
Proof.
  induction p as [|x p IH]; [done|]. rewrite !string_app_cons. intros [= H]. by apply IH.
Qed.

Lemma string_app_sep_inj (sep : ascii) (a a' b b' : string) :
  occ sep a = 0%nat → occ sep a' = 0%nat →
  a +:+ String sep b = a' +:+ String sep b' → a = a' ∧ b = b'.
Proof.
  revert a'. induction a as [|x a IH]; intros [|x' a']; cbn [occ].
  - intros _ _ [= ->]. done.
  - intros _ H. rewrite string_app_cons. intros [= <- _].
    by rewrite Ascii.eqb_refl in H.
  - intros H _. rewrite string_app_cons. intros [= -> _].
    by rewrite Ascii.eqb_refl in H.
  - intros Ha Ha'. rewrite !string_app_cons. intros [= <- H].
    destruct (Ascii.eqb x sep); [done|].
    destruct (IH a' Ha Ha' H) as [-> ->]. done.
Qed.

Lemma occ_dq_Z_toString z : occ "034" (Z_toString z) = 0%nat.
Proof.
  unfold Z_toString.
  assert (∀ d, occ "034" (NilEmpty.string_of_uint d) = 0%nat) as Hu.
  { induction d; cbn; by rewrite ?IHd. }
  assert (∀ d, occ "034" (NilZero.string_of_uint d) = 0%nat) as Hz.
  { intros d. destruct d; try apply Hu. done. }
  destruct (Z.to_int z) as [d|d]; cbn; [apply Hz | by rewrite Hz].
Qed.

Lemma Z_toString_inj a b : Z_toString a = Z_toString b → a = b.
Proof.
  unfold Z_toString. intros H. apply DecimalZ.to_int_inj.
  assert (∀ z, Z.to_int z ≠ Decimal.Pos Decimal.Nil ∧ Z.to_int z ≠ Decimal.Neg Decimal.Nil)
    as Hnn.
  { intros [|p|p]; cbn; split; try done; intros [= Hp];
      by apply DecimalPos.Unsigned.to_uint_nonnil in Hp. }
  destruct (Hnn a) as [Ha1 Ha2], (Hnn b) as [Hb1 Hb2].
  pose proof (NilZero.isi _ Ha1 Ha2) as Ea. pose proof (NilZero.isi _ Hb1 Hb2) as Eb.
  rewrite H in Ea. rewrite Ea in Eb. by injection Eb.
Qed.

Lemma coordinates_inj (p : string) r c r' c' :
  p +:+ " data-row=" +:+ dq +:+ Z_toString r +:+ dq
    +:+ " data-col=" +:+ dq +:+ Z_toString c +:+ dq
  = p +:+ " data-row=" +:+ dq +:+ Z_toString r' +:+ dq
      +:+ " data-col=" +:+ dq +:+ Z_toString c' +:+ dq →
  r = r' ∧ c = c'.
Proof.
  intros H. do 3 apply string_app_inv_head in H.
  apply (string_app_sep_inj "034") in H as [Hr H]; [|apply occ_dq_Z_toString..].
  do 2 apply (string_app_inv_head _) in H.
  apply (string_app_sep_inj "034") in H as [Hc _]; [|apply occ_dq_Z_toString..].
  split; by apply Z_toString_inj.
Qed.

Lemma fillerTag_inj r c r' c' : fillerTag r c = fillerTag r' c' → r = r' ∧ c = c'.
Proof.
  unfold fillerTag. intros H. do 3 apply string_app_inv_head in H.
  by apply (coordinates_inj dq).
Qed.

Lemma placeholderTag_inj r c r' c' :
  placeholderTag r c = placeholderTag r' c' → r = r' ∧ c = c'.
Proof.
  unfold placeholderTag. intros H. do 3 apply string_app_inv_head in H.
  by apply (coordinates_inj dq).
Qed.

Lemma filler_not_placeholder r c r' c' : fillerTag r c ≠ placeholderTag r' c'.
Proof.
  intros H.
  assert (String.prefix ("div class=" +:+ dq +:+ "ladder-spacer" +:+ dq) (fillerTag r c)
          = true) as H1 by reflexivity.
  rewrite H in H1. discriminate H1.
Qed.

Lemma elem_of_tagsOf_grid t html : isGridTag t = true → t ∈ tagsOf html ↔ t ∈ gridTags html.
Proof.
  intros Ht. unfold gridTags. rewrite !list_elem_of_In, List.filter_In.
  split; [intros ?; by split | by intros [? _]].
Qed.

(** The filler and placeholder tags of the markup of a rung are those of
    the entries of its layout. *)
Lemma grid_tag_entry LS rung html layout t :
  plainGraphics LS → createRungHtml LS rung = Normal html →
  rungLayout rung = Normal layout →
  isGridTag t = true →
  t ∈ tagsOf html ↔
  ∃ r c e, 0 ≤ r < rungRows rung ∧ 0 ≤ c < rungCols rung
           ∧ layoutEntry layout r c = Some e ∧ t ∈ entryGridTags e.
Proof.
  intros HLS Hrun HL Ht. rewrite (elem_of_tagsOf_grid _ _ Ht).
  destruct (gridTags_createRungHtml LS rung html HLS Hrun) as (layout' & HL' & ->).
  rewrite HL in HL'. injection HL' as <-.
  rewrite list_elem_of_In, List.in_flat_map. split.
  - intros (row & Hrow%list_elem_of_In & (e & He%list_elem_of_In & Hin%list_elem_of_In)%List.in_flat_map).
    destruct (proj1 (layout_entries rung layout e HL)) as (r & c & Hr & Hc & Hrc);
      [by exists row|].
    by exists r, c, e.
  - intros (r & c & e & Hr & Hc & Hrc & Hin).
    destruct (proj2 (layout_entries rung layout e HL)) as (row & Hrow & He);
      [by exists r, c|].
    exists row. split; [by apply list_elem_of_In|].
    apply List.in_flat_map. exists e. split; by apply list_elem_of_In.
Qed.

(** C2. In the markup of a rung whose symbol graphics are plain markup,
    an empty grid position [(r, c)] is written as follows. The tag of the
    horizontal filler at [(r, c)] is among the tags of the markup exactly
    when [r] is row 0, or a cell is placed in row [r] at a later column of
    the grid, or a cell within the bounds is placed in column [c] on a row
    above 0; the tag of the inert placeholder at [(r, c)] is among them
    exactly when [r] is a branch row and neither is the case. When the
    filler tag is there, the markup holds the filler element with the
    graphic of the horizontal line inside; when the placeholder tag is
    there, the markup holds the placeholder element, which has no content. *)
Theorem empty_position_filler :
  ∀ (LS : LadSymbolsObject) (rung : Rung) (html : string) (r c : Z),
    createRungHtml LS rung = Normal html →
    plainGraphics LS →
    0 ≤ r < rungRows rung → 0 ≤ c < rungCols rung →
    (∀ cell, cell ∈ arr_or (rung_cells rung) → ¬ (rowOf cell = r ∧ colOf cell = c)) →
    (fillerTag r c ∈ tagsOf html ↔ r = 0 ∨ needsFiller rung r c)
    ∧ (placeholderTag r c ∈ tagsOf html ↔ 0 < r ∧ ¬ needsFiller rung r c)
    ∧ (fillerTag r c ∈ tagsOf html →
       ∃ getSym, member_getSymbol LS = Some getSym
                 ∧ occursIn (fillerMarkup (getSym "hline" "MB_ladderoff") r c) html)
    ∧ (placeholderTag r c ∈ tagsOf html → occursIn (placeholderMarkup r c) html).
Proof.
  intros LS rung html r c Hrun HLS Hr Hc Hempty.
  destruct (createRungHtml_Normal _ _ _ Hrun) as (layout & rowsHtml & HL & Hrows & Hhtml).
  destruct (empty_position_entry rung layout r c HL Hr Hc Hempty) as (e & He & H0 & Hb).
  fold (needsFiller rung r c) in Hb.
  assert (∀ t, isGridTag t = true →
               (∀ r' c' e', layoutEntry layout r' c' = Some e' →
                            0 ≤ r' < rungRows rung → 0 ≤ c' < rungCols rung →
                            t ∈ entryGridTags e' → r' = r ∧ c' = c) →
               t ∈ tagsOf html ↔ t ∈ entryGridTags e) as Hat.
  { intros t Ht Hpos. rewrite (grid_tag_entry LS rung html layout t HLS Hrun HL Ht). split.
    - intros (r' & c' & e' & Hr' & Hc' & He' & Hin).
      destruct (Hpos r' c' e' He' Hr' Hc' Hin) as [-> ->].
      rewrite He in He'. by injection He' as <-.
    - intros Hin. by exists r, c, e. }
  assert (fillerTag r c ∈ tagsOf html ↔ e = ESpacer r c) as Hfiller.
  { rewrite Hat; [|apply isGridTag_filler|].
    - split.
      + destruct e as [cell|r' c'|r' c']; cbn; intros Hin.
        * by apply elem_of_nil in Hin.
        * apply list_elem_of_singleton in Hin. by destruct (fillerTag_inj _ _ _ _ Hin) as [-> ->].
        * apply list_elem_of_singleton in Hin. by destruct (filler_not_placeholder _ _ _ _ Hin).
      + intros ->. cbn. by apply list_elem_of_singleton.
    - intros r' c' e' He' Hr' Hc' Hin.
      destruct (layoutEntry_coordinates rung layout r' c' e' HL Hr' Hc' He') as [Hs Hp].
      destruct e' as [cell|r'' c''|r'' c'']; cbn in Hin.
      + by apply elem_of_nil in Hin.
      + apply list_elem_of_singleton in Hin.
        destruct (fillerTag_inj _ _ _ _ Hin) as [-> ->]. by destruct (Hs _ _ eq_refl).
      + apply list_elem_of_singleton in Hin. by destruct (filler_not_placeholder _ _ _ _ Hin). }
  assert (placeholderTag r c ∈ tagsOf html ↔ e = EEmpty r c) as Hplaceholder.
  { rewrite Hat; [|apply isGridTag_placeholder|].
    - split.
      + destruct e as [cell|r' c'|r' c']; cbn; intros Hin.
        * by apply elem_of_nil in Hin.
        * apply list_elem_of_singleton in Hin.
          symmetry in Hin. by destruct (filler_not_placeholder _ _ _ _ Hin).
        * apply list_elem_of_singleton in Hin.
          by destruct (placeholderTag_inj _ _ _ _ Hin) as [-> ->].
      + intros ->. cbn. by apply list_elem_of_singleton.
    - intros r' c' e' He' Hr' Hc' Hin.
      destruct (layoutEntry_coordinates rung layout r' c' e' HL Hr' Hc' He') as [Hs Hp].
      destruct e' as [cell|r'' c''|r'' c'']; cbn in Hin.
      + by apply elem_of_nil in Hin.
      + apply list_elem_of_singleton in Hin.
        symmetry in Hin. by destruct (filler_not_placeholder _ _ _ _ Hin).
      + apply list_elem_of_singleton in Hin.
        destruct (placeholderTag_inj _ _ _ _ Hin) as [-> ->]. by destruct (Hp _ _ eq_refl). }
  destruct (layoutEntry_occursIn LS rung layout rowsHtml r c e Hrows He) as (h & Hh & Hocc).
  rewrite <-Hhtml in Hocc.
  split; [|split; [|split]].
  - rewrite Hfiller. split.
    + intros ->. destruct (decide (r = 0)) as [?|Hne]; [by left|]. right.
      destruct (Hb ltac:(lia)) as [Hiff _]. by apply Hiff.
    + intros [->|Hneed]; [by apply H0|].
      destruct (decide (r = 0)) as [->|Hne]; [by apply H0|].
      destruct (Hb ltac:(lia)) as [Hiff _]. by apply Hiff.
  - rewrite Hplaceholder. split.
    + intros ->. destruct (decide (r = 0)) as [->|Hne]; [by specialize (H0 eq_refl)|].
      split; [lia|]. destruct (Hb ltac:(lia)) as [Hiff _]. intros Hneed%Hiff. done.
    + intros [Hpos Hnot]. destruct (Hb Hpos) as [Hiff [-> | ->]]; [|done].
      destruct Hnot. by apply Hiff.
  - intros ->%Hfiller. cbn in Hh.
    apply createSpacerHtml_markup in Hh as (getSym & Hget & ->). by exists getSym.
  - intros ->%Hplaceholder. cbn in Hh. injection Hh as <-. by rewrite <-emptyHtml_markup.
Qed.

(** The graphics of ladsymbols.js are [svg] markup: they close every tag
    and hold no [div]. *)
Lemma LadSymbols_plainGraphics : plainGraphics LadSymbols_complete.
Proof.
  intros getSym name [= <-]. unfold LadSymbols.getSymbol, LadSymbols.symbolPrims.
  assert (∀ prims, prims = LadSymbols.il
                   ∨ (∃ n, (n, prims) ∈ map_to_list LadSymbols.symbols) →
                   plainMarkup (LadSymbols.wrapSvg (LadSymbols.template prims "MB_ladderoff")
                                                   "MB_ladderoff")) as H.
  { intros prims [->|[n Hn]]; [by vm_compute|].
    unfold LadSymbols.symbols in Hn. rewrite map_to_list_to_map in Hn.
    - simpl in Hn.
      repeat (apply elem_of_cons in Hn as [[= _ ->]|Hn]; [by vm_compute|]).
      by apply elem_of_nil in Hn.
    - apply (bool_decide_unpack _). by vm_compute. }
  apply H. destruct (LadSymbols.symbols !! name) as [prims|] eqn:E; [|by left].
  right. exists name. by apply elem_of_map_to_list.
Qed.

Lemma empty_position_filler_witness :
  ∃ html,
    createRungHtml LadSymbols_complete example_rung = Normal html
    ∧ occursIn (fillerMarkup (LadSymbols.getSymbol "hline" "MB_ladderoff") 0 1) html
    ∧ (fillerTag 1 0 ∈ tagsOf html)
    ∧ (placeholderTag 1 0 ∉ tagsOf html)
    ∧ occursIn (placeholderMarkup 1 2) html
    ∧ (fillerTag 1 2 ∉ tagsOf html).
Proof.
  destruct (createRungHtml LadSymbols_complete example_rung) as [html|e] eqn:E;
    [|by vm_compute in E].
  exists html. split; [done|].
  assert (∀ r c, (r, c) ∈ [(0, 1); (1, 0); (1, 2)] →
                 ∀ cell, cell ∈ arr_or (rung_cells example_rung) →
                         ¬ (rowOf cell = r ∧ colOf cell = c)) as Hempty.
  { intros r c Hrc cell Hin [<- <-].
    repeat (apply elem_of_cons in Hin as [->|Hin];
            [repeat (apply elem_of_cons in Hrc as [[=]|Hrc]); by apply elem_of_nil in Hrc|]).
    by apply elem_of_nil in Hin. }
  assert (needsFiller example_rung 1 0) as Hneed10.
  { left. eexists. split; [do 2 (apply elem_of_cons; right); apply elem_of_cons; by left|].
    by vm_compute. }
  assert (¬ needsFiller example_rung 1 2) as Hneed12.
  { intros [(cell & Hin & Hrow & Hcol)|(cell & Hin & Hcol & Hrow)];
      unfold example_rung in Hin; cbn in Hin;
      repeat (apply elem_of_cons in Hin as [->|Hin];
              [unfold rowOf, colOf in *; cbn in *; lia|]);
      by apply elem_of_nil in Hin. }
  destruct (empty_position_filler LadSymbols_complete example_rung html 0 1 E
              LadSymbols_plainGraphics ltac:(by vm_compute) ltac:(by vm_compute)
              (Hempty 0 1 ltac:(apply elem_of_cons; by left)))
    as (Hf01 & _ & Hm01 & _).
  destruct (empty_position_filler LadSymbols_complete example_rung html 1 0 E
              LadSymbols_plainGraphics ltac:(by vm_compute) ltac:(by vm_compute)
              (Hempty 1 0 ltac:(apply elem_of_cons; right; apply elem_of_cons; by left)))
    as (Hf10 & Hp10 & _ & _).
  destruct (empty_position_filler LadSymbols_complete example_rung html 1 2 E
              LadSymbols_plainGraphics ltac:(by vm_compute) ltac:(by vm_compute)
              (Hempty 1 2 ltac:(do 2 (apply elem_of_cons; right); apply elem_of_cons; by left)))
    as (Hf12 & Hp12 & _ & Hm12).
  split; [|split; [|split; [|split]]].
  - destruct (Hm01 (proj2 Hf01 (or_introl eq_refl))) as (getSym & [= <-] & Hocc). exact Hocc.
  - apply (proj2 Hf10). by right.
  - intros [_ Hnot]%(proj1 Hp10). by apply Hnot.
  - apply Hm12, (proj2 Hp12). split; [lia | done].
  - intros [[=]|Hneed]%(proj1 Hf12). by apply Hneed12.
Defined.

(** * Further properties of the code *)

(** ** The grid renderer *)








Lemma concatM_normal {A} (f : A → Completion string) xs :
  (∀ x, x ∈ xs → ∃ h, f x = Normal h) → ∃ html, concatM f xs = Normal html.
Proof.
  induction xs as [|x xs IH]; intros H; cbn; [by eexists|].
  destruct (H x) as [h ->]; [by left|]. cbn.
  destruct IH as [t ->]; [intros y Hy; apply H; by right|]. cbn. by eexists.
Qed.

Lemma buildGrid_Normal_cols rows cols grid :
  buildGrid rows cols = Normal grid → rows ≤ 0 ∨ 0 ≤ cols ≤ 4294967295.
Proof.
  intros H. destruct (decide (rows ≤ 0)) as [?|Hrows]; [by left|]. right.
  unfold buildGrid in H. rewrite seqZ_cons in H by lia. cbn in H.
  apply bind_Normal in H as (g & (arr & Harr & _)%bind_Normal & _).
  by apply newRow_Normal in Harr as [_ ?].
Qed.

(** What the markup of an entry needs of the symbol library. *)
Lemma entryHtml_Normal_members LS e h :
  entryHtml LS e = Normal h →
  match e with
  | ECell _ => is_Some (member_getSymbol LS) ∧ is_Some (member_isBlockSymbol LS)
  | ESpacer _ _ => is_Some (member_getSymbol LS)
  | EEmpty _ _ => True
  end.
Proof.
  destruct e as [cell|r c|r c]; cbn; [| |done].
  - unfold createCellHtml, isBlockSymbol, call_getSymbol.
    destruct (member_isBlockSymbol LS); [|done].
    destruct (member_getSymbol LS); [|done]. by split.
  - unfold createSpacerHtml, call_getSymbol. by destruct (member_getSymbol LS).
Qed.

(** [createRungHtml] returns markup only if the column count is an array
    length (or there is no row), no cell passes the bounds test with a
    negative row, the symbol library has [getSymbol] when the grid has a
    position, and it has [isBlockSymbol] too when a cell lies inside the
    grid. *)
Theorem createRungHtml_returns_only_if :
  ∀ (LS : LadSymbolsObject) (rung : Rung) (html : string),
    createRungHtml LS rung = Normal html →
    (rungRows rung ≤ 0 ∨ 0 ≤ rungCols rung ≤ 4294967295)
    ∧ (∀ cell, cell ∈ arr_or (rung_cells rung) →
         rowOf cell < rungRows rung → colOf cell < rungCols rung → 0 ≤ rowOf cell)
    ∧ (0 < rungRows rung → 0 < rungCols rung → is_Some (member_getSymbol LS))
    ∧ (∀ cell, cell ∈ arr_or (rung_cells rung) →
         rowOf cell < rungRows rung → 0 ≤ colOf cell < rungCols rung →
         is_Some (member_getSymbol LS) ∧ is_Some (member_isBlockSymbol LS)).
Proof.
  intros LS rung html Hrun.
  destruct (createRungHtml_Normal _ _ _ Hrun) as (layout & rowsHtml & HL & Hrows & _).
  destruct (rungLayout_Normal _ _ HL) as (grid & st & Hg & Hp & Hlayout & _).
  destruct (placeCells_inv _ _ _ _ _ Hg Hp) as (Hdom & _ & Hkept & _).
  assert (∀ r c, 0 ≤ r < rungRows rung → 0 ≤ c < rungCols rung →
                 ∃ h, entryHtml LS (entryAt (rowArray st r) st.2 (rungCols rung) r c)
                      = Normal h) as Hentry.
  { intros r c Hr Hc.
    pose proof (layoutEntry_placed rung layout grid st r c Hg Hp Hlayout Hr Hc) as He.
    destruct (layoutEntry_occursIn LS rung layout rowsHtml r c _ Hrows He) as (h & Hh & _).
    by exists h. }
  split; [by eapply buildGrid_Normal_cols|].
  split; [by eapply placeCells_rows_nonneg|]. split.
  - intros Hr Hc. destruct (Hentry 0 0) as [h Hh]; [lia | lia |].
    apply entryHtml_Normal_members in Hh. unfold entryAt in Hh.
    destruct (rowArray st 0 !! 0); [by destruct Hh | done].
  - intros cell Hin Hr Hc.
    destruct (Hkept cell Hin Hr ltac:(lia)) as (arr & Harr & [cell' Hcell']).
    assert (0 ≤ rowOf cell) as Hr0 by (apply Hdom; by rewrite Harr).
    destruct (Hentry (rowOf cell) (colOf cell)) as [h Hh]; [lia | lia |].
    apply entryHtml_Normal_members in Hh. unfold entryAt, rowArray in Hh.
    rewrite Harr in Hh. cbn in Hh. by rewrite Hcell' in Hh.
Qed.

Lemma createRungHtml_returns_only_if_witness :
  ∃ html,
    createRungHtml LadSymbols_complete example_single_row = Normal html
    ∧ is_Some (member_isBlockSymbol LadSymbols_complete).
Proof.
  destruct (createRungHtml LadSymbols_complete example_single_row) as [html|e] eqn:E;
    [|by vm_compute in E].
  exists html. split; [done|].
  destruct (createRungHtml_returns_only_if LadSymbols_complete example_single_row html E)
    as (_ & _ & _ & Hcell).
  by destruct (Hcell (mkCell (Some 0) (Some 0) (Some "noc") None (Some "X1") (Some ["X1"])
                        None None)
                 ltac:(apply elem_of_cons; by left) ltac:(by vm_compute) ltac:(by vm_compute)).
Defined.

(** A rung with at least one row whose column count is negative, or above
    the largest array length, is not rendered: [new Array(cols)] throws a
    [RangeError], with any symbol library and whatever the cells. *)
Theorem bad_column_count_throws :
  ∀ (LS : LadSymbolsObject) (rung : Rung),
    0 < rungRows rung →
    rungCols rung < 0 ∨ 4294967295 < rungCols rung →
    createRungHtml LS rung = Throw (RangeError "Invalid array length").
Proof.
  intros LS rung Hrows Hcols. unfold createRungHtml, rungLayout, buildGrid.
  rewrite seqZ_cons by lia. cbn. unfold newRow.
  destruct Hcols as [H|H].
  - by rewrite (proj2 (Z.ltb_lt _ _) H).
  - rewrite (proj2 (Z.ltb_lt _ _) H). by rewrite orb_true_r.
Qed.

Lemma bad_column_count_throws_witness :
  createRungHtml LadSymbols_complete (mkRung 1 (Some []) None (Some 2) (Some (-3)))
    = Throw (RangeError "Invalid array length").
Proof.
  apply (bad_column_count_throws LadSymbols_complete); [by vm_compute | left; by vm_compute].
Defined.





(** ** The rung list *)

Lemma concatM_cons_Throw {A} (f : A → Completion string) x xs e :
  concatM f (x :: xs) = Throw e ↔
  f x = Throw e ∨ ((∃ h, f x = Normal h) ∧ concatM f xs = Throw e).
Proof.
  cbn. destruct (f x) as [h|e']; cbn.
  - destruct (concatM f xs) as [t|e'']; cbn.
    + split; [done | by intros [?|[_ ?]]].
    + split; [intros [= ->]; right; by eauto | by intros [?|[_ ?]]].
  - split; [by left | by intros [?|[[? ?] _]]].
Qed.

Lemma concatM_Throw {A} (f : A → Completion string) xs e :
  concatM f xs = Throw e ↔
  ∃ before x after, xs = before ++ x :: after
                    ∧ (∀ y, y ∈ before → ∃ h, f y = Normal h)
                    ∧ f x = Throw e.
Proof.
  induction xs as [|x xs IH].
  - split; [done|]. by intros ([|? ?] & ? & ? & ? & _).
  - rewrite concatM_cons_Throw, IH. split.
    + intros [Hx|[Hx (before & z & after & -> & Hb & Hz)]].
      * exists [], x, xs. split; [done|]. split; [|done]. by intros y ?%elem_of_nil.
      * exists (x :: before), z, after. split; [done|]. split; [|done].
        intros w [->|Hw]%elem_of_cons; [done | by apply Hb].
    + intros ([|y before] & z & after & Heq & Hb & Hz); injection Heq as -> ->.
      * by left.
      * right. split; [apply Hb; by left|]. exists before, z, after.
        split; [done|]. split; [|done]. intros w Hw. apply Hb. by right.
Qed.

(** [createRungList] throws only for a program with rung data and no error
    message, and then with the exception of the first rung that fails to
    render; for absent data, an error message or an empty rung list it
    returns a placeholder. *)
Theorem createRungList_throws_iff :
  ∀ (LS : LadSymbolsObject) (programData : option ProgramData) (st : State) (e : Exn),
    (createRungList LS programData st).2 = Throw e ↔
    ∃ p before rung after,
      programData = Some p
      ∧ subrdata p = Some (before ++ rung :: after)
      ∧ truthy (default "" (error p)) = false
      ∧ (∀ y, y ∈ before → ∃ h, createRungHtml LS y = Normal h)
      ∧ createRungHtml LS rung = Throw e.
Proof.
  intros LS [p|] st e; cbn.
  - destruct (subrdata p) as [rungs|] eqn:Hs.
    + destruct (truthy (default "" (error p))) eqn:Ht.
      * split; [done|]. by intros (q & ? & ? & ? & [= <-] & _ & ? & _); congruence.
      * destruct rungs as [|r rungs].
        -- split; [done|]. intros (q & before & ? & ? & [= <-] & Heq & _).
           rewrite Hs in Heq. by destruct before.
        -- rewrite (concatM_Throw (createRungHtml LS) (r :: rungs) e). split.
           ++ intros (before & x & after & Heq & Hb & Hx).
              exists p, before, x, after. by rewrite Hs, Heq.
           ++ intros (q & before & x & after & [= <-] & Heq & _ & Hb & Hx).
              exists before, x, after. split; [congruence | done].
    + split; [done|]. intros (q & ? & ? & ? & [= <-] & Heq & _). congruence.
  - split; [done|]. by intros (? & ? & ? & ? & ? & _).
Qed.

(** ** Program state *)

(** After any sequence of [setProgram] calls the current program is the
    last one set, and the monitored addresses are those of the last program
    that carried an [addresses] list (those of the starting state when none
    did). *)
Theorem setProgram_sequence :
  ∀ (programs : list (option ProgramData)) (st : State),
    let st' := foldl (λ s p, setProgram p s) st programs in
    currentProgram st' = default (currentProgram st) (last programs)
    ∧ getMonitorAddresses st'
      = default (currentAddresses st) (last (omap (λ p, p ≫= addresses) programs)).
Proof.
  intros programs st. cbn.
  induction programs as [|p programs IH] using rev_ind; [done|].
  rewrite foldl_snoc, last_snoc, omap_app, last_app. cbn.
  destruct IH as [_ IH]. split; [apply setProgram_currentProgram|].
  unfold setProgram, getMonitorAddresses in *.
  destruct p as [q|]; cbn; [|done]. by destruct (addresses q).
Qed.

(** ** Escaping, continued *)

Lemma string_app_nil_l (t : string) : "" +:+ t = t.
Proof. reflexivity. Qed.

(** The first character of an escaped text tells how the text starts. *)
Lemma escapeText_cons c t :
  (c = "&"%char ∧ escapeText (String c t) = "&amp;" +:+ escapeText t)
  ∨ (c = "<"%char ∧ escapeText (String c t) = "&lt;" +:+ escapeText t)
  ∨ (c = ">"%char ∧ escapeText (String c t) = "&gt;" +:+ escapeText t)
  ∨ (c = "194"%char ∧ ∃ t', t = String "160" t'
                            ∧ escapeText (String c t) = "&nbsp;" +:+ escapeText t')
  ∨ (c ≠ "&"%char ∧ c ≠ "<"%char ∧ c ≠ ">"%char
     ∧ (c = "194"%char → ∀ t', t ≠ String "160" t')
     ∧ escapeText (String c t) = String c (escapeText t)).
Proof.
  cbn [escapeText].
  destruct (Ascii.eqb c "&") eqn:E1; [apply Ascii.eqb_eq in E1; by left|].
  destruct (Ascii.eqb c "<") eqn:E2; [apply Ascii.eqb_eq in E2; by right; left|].
  destruct (Ascii.eqb c ">") eqn:E3; [apply Ascii.eqb_eq in E3; by right; right; left|].
  apply Ascii.eqb_neq in E1, E2, E3.
  destruct (Ascii.eqb c "194") eqn:E4.
  - apply Ascii.eqb_eq in E4. destruct t as [|c' t'].
    + do 4 right. by repeat split.
    + destruct (Ascii.eqb c' "160") eqn:E5.
      * apply Ascii.eqb_eq in E5. subst. right; right; right; left. split; [done|]. by exists t'.
      * apply Ascii.eqb_neq in E5. do 4 right. repeat split; try done.
        intros _ t'' [= ? ?]. done.
  - do 4 right. apply Ascii.eqb_neq in E4. by repeat split.
Qed.

(** Escaping loses nothing: two texts with the same escaped form are the
    same text. *)
Theorem escapeText_injective :
  ∀ s1 s2 : string, escapeText s1 = escapeText s2 → s1 = s2.
Proof.
  assert (∀ n s1 s2, (String.length s1 ≤ n)%nat →
                     escapeText s1 = escapeText s2 → s1 = s2) as H.
  { induction n as [|n IH]; intros [|c1 t1] [|c2 t2] Hlen Heq; cbn in Hlen; try lia; try done.
    - destruct (escapeText_cons c2 t2)
        as [[_ E]|[[_ E]|[[_ E]|[[_ (t' & _ & E)]|(_ & _ & _ & _ & E)]]]];
        rewrite E in Heq; done.
    - destruct (escapeText_cons c2 t2)
        as [[_ E]|[[_ E]|[[_ E]|[[_ (t' & _ & E)]|(_ & _ & _ & _ & E)]]]];
        rewrite E in Heq; done.
    - destruct (escapeText_cons c1 t1)
        as [[_ E]|[[_ E]|[[_ E]|[[_ (t' & _ & E)]|(_ & _ & _ & _ & E)]]]];
        rewrite E in Heq; done.
    - destruct (escapeText_cons c1 t1)
        as [[-> E1]|[[-> E1]|[[-> E1]|[[-> (t1' & -> & E1)]|(N1 & N2 & N3 & N4 & E1)]]]];
      destruct (escapeText_cons c2 t2)
        as [[-> E2]|[[-> E2]|[[-> E2]|[[-> (t2' & -> & E2)]|(M1 & M2 & M3 & M4 & E2)]]]];
      rewrite E1, E2 in Heq; repeat rewrite string_app_cons in Heq;
      rewrite ?string_app_nil_l in Heq; try discriminate Heq;
      simplify_eq; try done;
      repeat f_equal; (eapply IH; [|eassumption]); cbn in Hlen; lia. }
  intros s1 s2. by apply (H (String.length s1)).
Qed.

(** A text without [&], [<], [>] and without the byte 194 is written as it
    is. *)
Theorem escapeHtml_plain_text :
  ∀ s : string,
    occ "&" s = 0%nat → occ "<" s = 0%nat → occ ">" s = 0%nat → occ "194" s = 0%nat →
    escapeHtml s = s.
Proof.
  intros s. unfold escapeHtml. destruct (truthy s) eqn:Ht; [|by destruct s].
  clear Ht. induction s as [|c t IH]; [done|]. cbn [occ escapeText].
  destruct (Ascii.eqb c "&"); [done|]. destruct (Ascii.eqb c "<"); [done|].
  destruct (Ascii.eqb c ">"); [done|]. destruct (Ascii.eqb c "194"); [done|].
  cbn. intros H1 H2 H3 H4. by rewrite IH.
Qed.

Lemma escapeHtml_plain_text_witness : escapeHtml "DS100" = "DS100".
Proof. by apply escapeHtml_plain_text. Defined.

(** Double quotes pass through [escapeHtml] unchanged in number: a quote in
    a text field is written as a quote, also inside an attribute value. *)
Theorem escapeHtml_keeps_quotes :
  ∀ s : string, occ "034" (escapeHtml s) = occ "034" s.
Proof.
  intros s. unfold escapeHtml. destruct (truthy s) eqn:Ht; [|by destruct s]. clear Ht.
  assert (∀ n s, (String.length s ≤ n)%nat → occ "034" (escapeText s) = occ "034" s) as H.
  { clear s. induction n as [|n IH]; intros [|c t] Hlen; cbn in Hlen; try done; try lia.
    destruct (escapeText_cons c t)
      as [[-> E]|[[-> E]|[[-> E]|[[-> (t' & -> & E)]|(_ & _ & _ & _ & E)]]]];
      rewrite E, ?occ_app; cbn; rewrite IH by (cbn in Hlen; lia); done. }
  by apply (H (String.length s)).
Qed.

(** [escapeHtml] is injective: the markup of a text field determines the
    text. *)
Theorem escapeHtml_injective :
  ∀ s1 s2 : string, escapeHtml s1 = escapeHtml s2 → s1 = s2.
Proof.
  assert (∀ s, escapeHtml s = escapeText s) as H.
  { intros s. unfold escapeHtml. by destruct s. }
  intros s1 s2. rewrite !H. apply escapeText_injective.
Qed.

Lemma escapeHtml_injective_witness :
  escapeHtml "a<b" = escapeHtml "a<b" ∧ ("a<b" : string) = "a<b".
Proof.
  split; [reflexivity|]. apply (escapeHtml_injective "a<b" "a<b"). reflexivity.
Defined.

(** ** Joining and splitting the addresses *)

Lemma split_no_separator sep a : occ sep a = 0%nat → split sep a = [a].
Proof.
  induction a as [|c a IH]; [done|]. cbn.
  destruct (Ascii.eqb c sep); [done|]. cbn. intros H. by rewrite IH.
Qed.

Lemma split_app_separator sep a t :
  occ sep a = 0%nat → split sep (a +:+ String sep t) = a :: split sep t.
Proof.
  induction a as [|c a IH]; intros H.
  - rewrite string_app_nil_l. cbn. by rewrite Ascii.eqb_refl.
  - rewrite string_app_cons. cbn in *. destruct (Ascii.eqb c sep); [done|].
    by rewrite IH.
Qed.

Lemma split_join sep (l : list string) :
  l ≠ [] → Forall (λ a, occ sep a = 0%nat) l →
  split sep (join (String sep "") l) = l.
Proof.
  intros Hne Hl. induction Hl as [|a l Ha Hl IH]; [done|].
  destruct l as [|b l]; [by apply split_no_separator|].
  change (join (String sep "") (a :: b :: l))
    with (a +:+ String sep "" +:+ join (String sep "") (b :: l)).
  rewrite string_app_cons, string_app_nil_l, split_app_separator by done.
  by rewrite IH.
Qed.

(** Splitting at the commas and dropping the empty strings, as the live
    update does with the value of the attribute (line 295), undoes the
    [addresses.join(',')] of [createCellHtml] (line 89) on addresses that
    hold no comma: it gives the non-empty addresses, in order. The
    statement is about the joined string; the way of the string through
    the markup and the parser is not part of it. *)
Theorem parseAddresses_join :
  ∀ addrs : list string,
    Forall (λ a, occ "," a = 0%nat) addrs →
    parseAddresses (join "," addrs) = filter (λ a, truthy a = true) addrs.
Proof.
  intros addrs H. unfold parseAddresses. destruct addrs as [|a l]; [done|].
  by rewrite (split_join "," (a :: l)).
Qed.

Lemma parseAddresses_join_witness :
  parseAddresses (join "," ["T1"; ""; "CTD7"]) = ["T1"; "CTD7"].
Proof.
  apply (parseAddresses_join ["T1"; ""; "CTD7"]). by repeat constructor.
Defined.

(** ** The live update, continued *)

Lemma scanAddresses_ext D D' (l : list string) acc :
  (∀ a, a ∈ l → D !! a = D' !! a) →
  foldl (scanAddress D) acc l = foldl (scanAddress D') acc l.
Proof.
  revert acc. induction l as [|a l IH]; intros acc H; [done|]. cbn.
  assert (scanAddress D acc a = scanAddress D' acc a) as ->
    by (unfold scanAddress; by rewrite (H a) by (by left)).
  apply IH. intros b Hb. apply H. by right.
Qed.

Section LiveUpdateFrame.

Variable Number_toString : PrimFloat.float → string.
Variable Number_toFixed : PrimFloat.float → Z → string.

Local Abbreviation updateCell := (SubrDispControl.updateCell Number_toString Number_toFixed).
Local Abbreviation updateCellStates :=
  (SubrDispControl.updateCellStates Number_toString Number_toFixed).

(** The pass reads the snapshot at the monitored addresses only: two
    snapshots that agree on the addresses the cells of the page monitor
    leave the page in the same state. *)
Theorem updateCellStates_reads_monitored_only :
  ∀ (D D' : JsObject) (page : list CellElement),
    (∀ cell a, cell ∈ page → a ∈ monitored cell → D !! a = D' !! a) →
    updateCellStates D page = updateCellStates D' page.
Proof.
  intros D D' page H. unfold SubrDispControl.updateCellStates.
  apply map_ext_in. intros cell Hin%list_elem_of_In.
  destruct (decide (monitored cell = [])) as [Hm|Hm].
  - by rewrite !updateCell_unmonitored.
  - rewrite !updateCell_monitored by done. unfold scanAddresses.
    by rewrite (scanAddresses_ext D D' (monitored cell) (false, None) (λ a, H cell a Hin)).
Qed.

Lemma otherClasses_setStateClass isOn cl : otherClasses (setStateClass isOn cl) = otherClasses cl.
Proof.
  unfold otherClasses. rewrite setStateClass_unfold, classList_remove_app, classList_remove_idem.
  replace (classList_remove _ _ [stateTag isOn]) with (@nil string) by (by destruct isOn).
  apply app_nil_r.
Qed.

Lemma sameStructure_refl cell : sameStructure cell cell.
Proof.
  split; [done|]. split; [done|]. split.
  - by destruct (cell_svg cell).
  - by destruct (cell_value cell).
Qed.

Lemma restroke_element isOn (el : Element) :
  let el' := if isStroke el
             then mkElement (tagName el) (setStateClass isOn (classList el)) else el in
  tagName el' = tagName el
  ∧ otherClasses (classList el') = otherClasses (classList el)
  ∧ isStroke el' = isStroke el
  ∧ (isStroke el = false → el' = el).
Proof.
  cbn. destruct (isStroke el) eqn:E; [|done].
  split; [done|]. split; [apply otherClasses_setStateClass|]. split; [exact E | done].
Qed.

Lemma restroke_frame isOn (els : list Element) :
  let f := λ el, if isStroke el
                 then mkElement (tagName el) (setStateClass isOn (classList el)) else el in
  map tagName (map f els) = map tagName els
  ∧ map (λ el, otherClasses (classList el)) (map f els)
    = map (λ el, otherClasses (classList el)) els
  ∧ filter (λ el, isStroke el = false) (map f els) = filter (λ el, isStroke el = false) els.
Proof.
  intros f. rewrite !map_map. split; [|split].
  - apply map_ext. intros el. apply (restroke_element isOn el).
  - apply map_ext. intros el. apply (restroke_element isOn el).
  - induction els as [|el els IH]; [done|]. rewrite map_cons.
    destruct (restroke_element isOn el) as (_ & _ & Hs & Hid). fold (f el) in Hs, Hid.
    destruct (isStroke el) eqn:E.
    + by rewrite !filter_cons_False by congruence.
    + rewrite !filter_cons_True by congruence. by rewrite IH, Hid.
Qed.

Lemma applyState_sameStructure isOn dv cell :
  sameStructure cell (applyState Number_toString Number_toFixed isOn dv cell).
Proof.
  split; [done|]. split; [apply otherClasses_setStateClass|]. cbn [cell_svg cell_value applyState].
  split.
  - unfold applyState. cbn [cell_svg]. destruct (cell_svg cell) as [svg|]; [|done].
    cbn [fmap option_fmap option_map svg_classList svg_descendants].
    split; [apply otherClasses_setStateClass | apply restroke_frame].
  - unfold applyState. cbn [cell_value]. destruct (cell_value cell) as [v|]; [|done].
    cbn. by destruct dv.
Qed.

Lemma updateCell_sameStructure D cell : sameStructure cell (updateCell D cell).
Proof.
  destruct (decide (monitored cell = [])) as [Hm|Hm].
  - rewrite updateCell_unmonitored by done. apply sameStructure_refl.
  - rewrite updateCell_monitored by done. apply applyState_sameStructure.
Qed.

(** The pass keeps the page's elements, in order, and changes nothing of a
    cell but its state tags, the state tags of its graphic and strokes, and
    its value display; an element it does not monitor is left untouched. *)
Theorem updateCellStates_frame :
  ∀ (D : JsObject) (page : list CellElement),
    Forall2 sameStructure page (updateCellStates D page)
    ∧ Forall2 (λ cell cell', monitored cell' = monitored cell
                             ∧ (monitored cell = [] → cell' = cell))
              page (updateCellStates D page).
Proof.
  intros D page. unfold SubrDispControl.updateCellStates. split.
  - apply Forall2_fmap_r, Forall_Forall2_diag, Forall_forall. intros cell _.
    apply updateCell_sameStructure.
  - apply Forall2_fmap_r, Forall_Forall2_diag, Forall_forall. intros cell _.
    split; [apply monitored_updateCell | apply updateCell_unmonitored].
Qed.

End LiveUpdateFrame.

Lemma updateCellStates_reads_monitored_only_witness :
  updateCellStates ExampleHost.toString ExampleHost.toFixed
    (ExampleHost.snapshot {["X1" := JBool true; "Y9" := JNum 4%float]}) example_page
  = updateCellStates ExampleHost.toString ExampleHost.toFixed
      (ExampleHost.snapshot {["X1" := JBool true]}) example_page.
Proof.
  apply updateCellStates_reads_monitored_only. intros cell a Hcell Ha.
  repeat (apply elem_of_cons in Hcell as [->|Hcell];
          [repeat (apply elem_of_cons in Ha as [->|Ha]; [reflexivity|]);
           by apply elem_of_nil in Ha|]).
  by apply elem_of_nil in Hcell.
Defined.

(** ** The symbol library *)

(** The entries of the [symbols] object, in the order of their keys. *)
Lemma symbols_keys : map fst (map_to_list LadSymbols.symbols) ≡ₚ LadSymbols.getSymbolNames.
Proof.
  unfold LadSymbols.symbols. rewrite map_to_list_to_map; [done|].
  apply (bool_decide_unpack _). by vm_compute.
Qed.

(** [getSymbolNames] lists exactly the names that have a graphic of their
    own; every other name is drawn as the IL fallback, with any state
    class. (A name that [symbols] inherits from [Object.prototype] is not
    an unknown name for [symbols[symbolName]]: the statement leaves these
    names out.) *)
Theorem getSymbol_unknown_is_il :
  ∀ name : string,
    name ∉ objectPrototypeNames →
    (name ∈ LadSymbols.getSymbolNames ↔ is_Some (LadSymbols.symbols !! name))
    ∧ (name ∉ LadSymbols.getSymbolNames →
       ∀ stateClass, LadSymbols.getSymbol name stateClass
                     = LadSymbols.getSymbol "il" stateClass).
Proof.
  intros name _.
  assert (name ∈ LadSymbols.getSymbolNames ↔ is_Some (LadSymbols.symbols !! name)) as H.
  { rewrite <-symbols_keys, list_elem_of_fmap. split.
    - intros ([k v] & -> & Hkv%elem_of_map_to_list). by exists v.
    - intros [v Hv]. exists (name, v). split; [done | by apply elem_of_map_to_list]. }
  split; [exact H|]. intros Hnot stateClass.
  unfold LadSymbols.getSymbol, LadSymbols.symbolPrims.
  destruct (LadSymbols.symbols !! name) as [v|] eqn:E; [|done].
  destruct Hnot. apply H. by eexists.
Qed.

Lemma getSymbol_unknown_is_il_witness :
  ("ons" ∉ objectPrototypeNames)
  ∧ ("ons" ∉ LadSymbols.getSymbolNames)
  ∧ LadSymbols.getSymbol "ons" "MB_ladderon" = LadSymbols.getSymbol "il" "MB_ladderon".
Proof.
  assert ("ons" ∉ objectPrototypeNames) as H1 by (apply (bool_decide_unpack _); by vm_compute).
  assert ("ons" ∉ LadSymbols.getSymbolNames) as H2
    by (apply (bool_decide_unpack _); by vm_compute).
  split; [exact H1|]. split; [exact H2|].
  by apply (getSymbol_unknown_is_il "ons" H1).
Defined.

(** The names ladsymbols.js draws as the block rectangle (the graphic of
    [compare]) are exactly the names the earlier display library classifies
    as block symbols. *)
Theorem block_graphic_iff_block_symbol :
  ∀ name : string,
    LadSymbols.symbols !! name = Some LadSymbols.compare ↔ Legacy.isBlockSymbol name = true.
Proof.
  intros name. rewrite legacy_isBlockSymbol_spec. split.
  - unfold LadSymbols.symbols. intros H%elem_of_list_to_map_2. simpl in H.
    repeat (apply elem_of_cons in H as [Heq|H];
            [first [ injection Heq as -> Hv; by vm_compute in Hv
                   | injection Heq as ->; apply (bool_decide_unpack _); by vm_compute ]|]).
    by apply elem_of_nil in H.
  - apply blockSymbols_drawn_as_compare.
Qed.

(** * The renderers that group the cells by row *)

(** ** Grouping and sorting *)

Lemma pushByRow_lookup m cell r :
  default [] (Legacy.pushByRow m cell !! r)
  = default [] (m !! r) ++ (if decide (Legacy.rowOf cell = r) then [cell] else []).
Proof.
  unfold Legacy.pushByRow. destruct (decide (Legacy.rowOf cell = r)) as [<-|Hne].
  - by rewrite lookup_insert_eq.
  - rewrite lookup_insert_ne by done. by rewrite app_nil_r.
Qed.

(** After the grouping loop, the array stored for a row holds the cells of
    that row, in the order of the input. *)
Lemma groupByRow_lookup cells r :
  default [] (Legacy.groupByRow cells !! r) = filter (λ c, Legacy.rowOf c = r) cells.
Proof.
  unfold Legacy.groupByRow.
  assert (∀ m, default [] (foldl Legacy.pushByRow m cells !! r)
               = default [] (m !! r) ++ filter (λ c, Legacy.rowOf c = r) cells) as H.
  { induction cells as [|cell cells IH]; intros m; cbn [foldl].
    - by rewrite app_nil_r.
    - rewrite IH, pushByRow_lookup, filter_cons.
      destruct (decide (Legacy.rowOf cell = r)); by rewrite <-app_assoc. }
  by rewrite H, lookup_empty.
Qed.

Lemma insertByCol_perm x l : Legacy.insertByCol x l ≡ₚ x :: l.
Proof.
  induction l as [|c l IH]; cbn; [done|].
  destruct (_ <=? 0); [done|]. rewrite IH. apply Permutation_swap.
Qed.



Lemma sortByCol_perm l : Legacy.sortByCol l ≡ₚ l.
Proof.
  induction l as [|x l IH]; [done|]. cbn. by rewrite insertByCol_perm, IH.
Qed.



Lemma rowGroups_elem rung r rowCells :
  (r, rowCells) ∈ Legacy.rowGroups rung ↔
  0 ≤ r < rungRows rung
  ∧ rowCells = Legacy.sortByCol (filter (λ c, Legacy.rowOf c = r) (arr_or (rung_cells rung))).
Proof.
  unfold Legacy.rowGroups. rewrite list_elem_of_fmap. setoid_rewrite elem_of_seqZ.
  setoid_rewrite groupByRow_lookup. fold (rungRows rung). split.
  - intros (row & [= -> ->] & ?). split; [lia | done].
  - intros (? & ->). exists r. split; [done | lia].
Qed.



Lemma writtenCell_iff rung cell :
  writtenCell rung cell ↔
  cell ∈ arr_or (rung_cells rung) ∧ 0 ≤ Legacy.rowOf cell < rungRows rung.
Proof.
  unfold writtenCell. setoid_rewrite rowGroups_elem. split.
  - intros (r & rowCells & (Hr & ->) & Hin). rewrite sortByCol_perm in Hin.
    apply list_elem_of_filter in Hin as [<- Hin]. done.
  - intros (Hin & Hr). eexists (Legacy.rowOf cell), _. split; [done|].
    rewrite sortByCol_perm. by apply list_elem_of_filter.
Qed.


(** ** When the markup is produced *)

Lemma concatM_Normal_iff {A} (f : A → Completion string) xs :
  (∃ html, concatM f xs = Normal html) ↔ ∀ x, x ∈ xs → ∃ h, f x = Normal h.
Proof.
  split; [|apply concatM_normal].
  intros [html Hrun] x (i & Hi)%list_elem_of_lookup_1.
  destruct (concatM_occursIn _ _ _ _ _ Hrun Hi) as (h & Hh & _). by exists h.
Qed.

(** A renderer that writes the row groups of a rung, and whose cell
    markup is produced under a condition that is the same for every cell,
    produces the markup of the rung under that condition, or when no cell
    is written. *)
Lemma rowGroups_rendered (cellHtml : Cell → Completion string)
    (rowHtml : Z * list Cell → Completion string) (ready : Prop) rung :
  ready ∨ ¬ ready →
  (∀ cell, (∃ h, cellHtml cell = Normal h) ↔ ready) →
  (∀ row, (∃ h, rowHtml row = Normal h) ↔ (∃ h, concatM cellHtml row.2 = Normal h)) →
  (∃ html, concatM rowHtml (Legacy.rowGroups rung) = Normal html) ↔
  ready ∨ ∀ cell, cell ∈ arr_or (rung_cells rung) →
                  ¬ (0 ≤ Legacy.rowOf cell < rungRows rung).
Proof.
  intros Hdec Hcell Hrow. rewrite concatM_Normal_iff.
  setoid_rewrite Hrow. setoid_rewrite concatM_Normal_iff. setoid_rewrite Hcell.
  pose proof (writtenCell_iff rung) as Hw. split.
  - intros H. destruct Hdec as [?|Hno]; [by left|]. right. intros cell Hin Hr.
    destruct (proj2 (Hw cell) (conj Hin Hr)) as (r & rowCells & Hg & Hc).
    apply Hno, (H (r, rowCells) Hg cell Hc).
  - intros [?|Hnone] [r rowCells] Hg cell Hc; [done|]. exfalso.
    destruct (proj1 (Hw cell)) as [Hin Hr]; [by exists r, rowCells|].
    by apply (Hnone cell).
Qed.

Lemma legacy_createCellHtml_Normal LS cell :
  (∃ h, Legacy.createCellHtml LS cell = Normal h) ↔ is_Some (member_getSymbol LS).
Proof.
  unfold Legacy.createCellHtml, Legacy.call_getSymbol.
  destruct (member_getSymbol LS) as [getSym|]; cbn.
  - split; [by eexists | intros _; by eexists].
  - split; [by intros [? ?] | by intros [? ?]].
Qed.

Lemma bind_Normal_ret {A} (m : Completion A) (k : A → string) :
  (∃ h, (m ≫= λ a, Normal (k a)) = Normal h) ↔ ∃ a, m = Normal a.
Proof.
  destruct m as [a|e]; cbn; split; try by eexists.
  - by intros [? ?].
  - by intros [? ?].
Qed.

(** The earlier variant produces the markup of a rung exactly when the
    symbol library has [getSymbol], or the rung has no cell on one of its
    rows: whatever coordinates the cells carry, it does not fail on them,
    and it needs no [isBlockSymbol] from the library. *)
Theorem legacy_createRungHtml_returns_iff :
  ∀ (LS : LadSymbolsObject) (rung : Rung),
    (∃ html, Legacy.createRungHtml LS rung = Normal html) ↔
    is_Some (member_getSymbol LS)
    ∨ ∀ cell, cell ∈ arr_or (rung_cells rung) →
              ¬ (0 ≤ Legacy.rowOf cell < rungRows rung).
Proof.
  intros LS rung. unfold Legacy.createRungHtml. rewrite bind_Normal_ret.
  apply (rowGroups_rendered (Legacy.createCellHtml LS)).
  - destruct (member_getSymbol LS); [left; by eexists | right; by intros [? ?]].
  - apply legacy_createCellHtml_Normal.
  - intros row. unfold Legacy.rowHtml. apply bind_Normal_ret.
Qed.

Lemma grouped_createCellHtml_Normal LS cell :
  (∃ h, Grouped.createCellHtml LS cell = Normal h) ↔
  is_Some (member_getSymbol LS) ∧ is_Some (member_isBlockSymbol LS).
Proof.
  unfold Grouped.createCellHtml, Grouped.call_getSymbol, Grouped.isBlockSymbol.
  destruct (member_isBlockSymbol LS) as [isBlk|]; cbn.
  - destruct (member_getSymbol LS) as [getSym|]; cbn.
    + split; [intros _; split; by eexists | intros _; by eexists].
    + split; [by intros [? ?] | by intros [[? ?] _]].
  - split; [by intros [? ?] | by intros [_ [? ?]]].
Qed.

(** The variant of part_001 produces the markup of a rung exactly when
    the symbol library has both [getSymbol] and [isBlockSymbol], or the
    rung has no cell on one of its rows. With the library of
    ladsymbols.js, which has no [isBlockSymbol], only rungs that show no
    cell are rendered. *)
Theorem grouped_createRungHtml_returns_iff :
  ∀ (LS : LadSymbolsObject) (rung : Rung),
    (∃ html, Grouped.createRungHtml LS rung = Normal html) ↔
    (is_Some (member_getSymbol LS) ∧ is_Some (member_isBlockSymbol LS))
    ∨ ∀ cell, cell ∈ arr_or (rung_cells rung) →
              ¬ (0 ≤ Legacy.rowOf cell < rungRows rung).
Proof.
  intros LS rung. unfold Grouped.createRungHtml. rewrite bind_Normal_ret.
  apply (rowGroups_rendered (Grouped.createCellHtml LS)).
  - destruct (member_getSymbol LS), (member_isBlockSymbol LS);
      first [ left; split; by eexists | right; by intros [[? ?] [? ?]] ].
  - apply grouped_createCellHtml_Normal.
  - intros row. unfold Grouped.rowHtml. apply bind_Normal_ret.
Qed.

(** ** Escaping in the earlier variant *)

Lemma isAlnum_angle ch : angle ch → Legacy.isAlnum ch = false ∧ ch ≠ "_"%char.
Proof. by intros [-> | ->]. Qed.

Lemma occ_replaceNonAlnum_other c s :
  Legacy.isAlnum c = false → c ≠ "_"%char → occ c (Legacy.replaceNonAlnum s) = 0%nat.
Proof.
  intros Hc Hu. induction s as [|a s IH]; [done|]. cbn [Legacy.replaceNonAlnum].
  assert (Ascii.eqb "_" c = false) as Hu' by (by apply Ascii.eqb_neq).
  destruct (Legacy.isAlnum a) eqn:Ea.
  - cbn [occ]. rewrite IH.
    destruct (Ascii.eqb a c) eqn:E; [apply Ascii.eqb_eq in E; congruence | done].
  - repeat (destruct (_ <? _)%N); cbn [occ]; by rewrite ?Hu', IH.
Qed.

Lemma occ_replaceNonAlnum_alnum c s :
  Legacy.isAlnum c = true → occ c (Legacy.replaceNonAlnum s) = occ c s.
Proof.
  intros Hc. induction s as [|a s IH]; [done|]. cbn [Legacy.replaceNonAlnum].
  assert (Ascii.eqb "_" c = false) as Hu'.
  { apply Ascii.eqb_neq. by intros <-. }
  destruct (Legacy.isAlnum a) eqn:Ea.
  - cbn [occ]. by rewrite IH.
  - assert (Ascii.eqb a c = false) as Hac.
    { apply Ascii.eqb_neq. intros ->. congruence. }
    cbn [occ]. rewrite Hac.
    repeat (destruct (_ <? _)%N); cbn [occ]; by rewrite ?Hu', IH.
Qed.

(** The attribute names the earlier variant derives from the addresses
    ([data-addr-...]) are written in letters, digits and underscores only;
    every letter and digit of the address is kept, as often as it occurs;
    and a name that has been derived is left as it is when the replacement
    is applied again. *)
Theorem replaceNonAlnum_alphabet :
  ∀ (s : string),
    (∀ c, Legacy.isAlnum c = false → c ≠ "_"%char →
          occ c (Legacy.replaceNonAlnum s) = 0%nat)
    ∧ (∀ c, Legacy.isAlnum c = true →
            occ c (Legacy.replaceNonAlnum s) = occ c s)
    ∧ Legacy.replaceNonAlnum (Legacy.replaceNonAlnum s) = Legacy.replaceNonAlnum s.
Proof.
  intros s. split; [intros c; apply occ_replaceNonAlnum_other|].
  split; [intros c; apply occ_replaceNonAlnum_alnum|].
  induction s as [|a s IH]; [done|]. cbn [Legacy.replaceNonAlnum].
  destruct (Legacy.isAlnum a) eqn:Ea.
  - cbn [Legacy.replaceNonAlnum]. by rewrite Ea, IH.
  - repeat (destruct (_ <? _)%N); cbn [Legacy.replaceNonAlnum]; try done;
      change (Legacy.isAlnum "_") with false; cbn; by rewrite ?IH.
Qed.

Lemma occ_prop_toString ch n : angle ch → occ ch (Legacy.prop_toString n) = 0%nat.
Proof.
  intros Hch. destruct n as [v|]; [by apply occ_Z_toString | by destruct Hch as [-> | ->]].
Qed.

Lemma occ_join ch sep xs :
  occ ch sep = 0%nat → (∀ x, x ∈ xs → occ ch x = 0%nat) → occ ch (join sep xs) = 0%nat.
Proof.
  intros Hsep. induction xs as [|x [|y xs] IH]; intros Hxs; [done | |].
  - apply Hxs. by left.
  - change (join sep (x :: y :: xs)) with (x +:+ sep +:+ join sep (y :: xs)).
    rewrite !occ_app, Hsep, IH, (Hxs x) by (try (by left); intros z Hz; apply Hxs; by right).
    done.
Qed.

Lemma occ_legacy_dataAttrs ch addresses :
  angle ch →
  occ ch (join " " (map (λ a, attr ("data-addr-" +:+ Legacy.replaceNonAlnum a) "true")
                        addresses)) = 0%nat.
Proof.
  intros Hch. apply occ_join; [by destruct Hch as [-> | ->]|].
  intros x (a & -> & _)%list_elem_of_fmap. occ_split Hch.
  destruct (isAlnum_angle ch Hch) as [Ha Hu].
  rewrite (occ_replaceNonAlnum_other ch a Ha Hu). occ_literals Hch.
Qed.

Lemma occ_legacy_createCellHtml ch LS cell html :
  angle ch → Legacy.createCellHtml LS cell = Normal html →
  occ ch html = legacyCellMarks ch LS cell.
Proof.
  intros Hch. unfold Legacy.createCellHtml, Legacy.call_getSymbol, legacyCellMarks,
    legacyBlock, svgMarks.
  destruct (member_getSymbol LS) as [getSym|]; [|done]. cbn.
  intros [= <-].
  set (blk := bool_decide (_ = "block") || _).
  occ_split Hch. rewrite (occ_legacy_dataAttrs _ _ Hch), !(occ_prop_toString _ _ Hch).
  assert (occ ch (if blk then "ladder-block" else "ladder-cell") = 0%nat) as ->.
  { destruct blk; occ_literals Hch. }
  assert (occ ch (if Legacy.isBlockSymbol (str_or (cell_symbol cell) "il") then ""
                  else getSym (str_or (cell_symbol cell) "il") "MB_ladderoff")
          = if Legacy.isBlockSymbol (str_or (cell_symbol cell) "il") then 0
            else occ ch (getSym (str_or (cell_symbol cell) "il") "MB_ladderoff"))%nat as ->.
  { by destruct (Legacy.isBlockSymbol _). }
  assert (occ ch (if blk
                  then nl 16 +:+ "<span " +:+ attr "class" "block-title" +:+ ">"
                       +:+ escapeHtml (str_or (cell_opcode cell) "") +:+ "</span>"
                       +:+ nl 16 +:+ "<span " +:+ attr "class" "block-params" +:+ ">"
                       +:+ escapeHtml (join " " (take 3 (arr_or (cell_params cell))))
                       +:+ "</span>" +:+ nl 12
                  else "")
          = if blk then 4 else 0)%nat as ->.
  { destruct blk; [|done]. occ_split Hch. occ_literals Hch. }
  assert (occ ch (if truthy (str_or (cell_addr cell) "")
                  then "<span " +:+ attr "class" "cell-address" +:+ ">"
                       +:+ escapeHtml (str_or (cell_addr cell) "") +:+ "</span>"
                  else "")
          = if truthy (str_or (cell_addr cell) "") then 2 else 0)%nat as ->.
  { destruct (truthy _); [|done]. occ_split Hch. occ_literals Hch. }
  destruct (Legacy.isBlockSymbol _), blk, (truthy _); occ_literals Hch.
Qed.

Lemma occ_legacy_rowHtml ch LS row html :
  angle ch → Legacy.rowHtml LS row = Normal html → occ ch html = legacyRowMarks ch LS row.
Proof.
  intros Hch. unfold Legacy.rowHtml, legacyRowMarks.
  intros (cellsHtml & Hcells & [= <-])%bind_Normal.
  occ_split Hch.
  rewrite (occ_concatM ch (Legacy.createCellHtml LS) (legacyCellMarks ch LS) _ _
             (λ c h, occ_legacy_createCellHtml ch LS c h Hch) Hcells).
  destruct (row.1 =? 0); occ_split Hch; occ_literals Hch.
Qed.

(** In the markup the earlier variant writes for a rung, every text field
    of a cell and the comment are written through [escapeHtml], and the
    addresses that become attribute names through the replacement of
    every other character by an underscore; so the number of tag
    delimiters in the markup is the number the templates and the symbols
    write, whatever characters the fields hold. *)
Theorem legacy_text_fields_introduce_no_element :
  ∀ (LS : LadSymbolsObject) (rung : Rung) (html : string) (ch : ascii),
    angle ch →
    Legacy.createRungHtml LS rung = Normal html →
    occ ch html = legacyRungMarks ch LS rung.
Proof.
  intros LS rung html ch Hch. unfold Legacy.createRungHtml, legacyRungMarks.
  intros (cellsHtml & Hrows & [= <-])%bind_Normal.
  unfold Legacy.rungHtml. occ_split Hch.
  rewrite (occ_concatM ch (Legacy.rowHtml LS) (legacyRowMarks ch LS) _ _
             (λ row h, occ_legacy_rowHtml ch LS row h Hch) Hrows).
  destruct (truthy (str_or (rung_comment rung) "")); occ_split Hch; occ_literals Hch.
Qed.

Lemma legacy_text_fields_introduce_no_element_witness :
  ∃ html,
    Legacy.createRungHtml LadSymbols_module hostile_rung = Normal html
    ∧ occ "<" html = legacyRungMarks "<" LadSymbols_module hostile_rung.
Proof.
  destruct (Legacy.createRungHtml LadSymbols_module hostile_rung) as [html|e] eqn:E;
    [|by vm_compute in E].
  exists html. split; [done|].
  apply (legacy_text_fields_introduce_no_element LadSymbols_module hostile_rung html "<");
    [by left | exact E].
Defined.

(** ** The live update of the earlier variant *)

Section LegacyLive.

Variable Number_toString : PrimFloat.float → string.
Variable Number_toFixed : PrimFloat.float → Z → string.

Local Abbreviation legacyUpdateCell :=
  (LegacyUpdate.updateCell Number_toString Number_toFixed).
Local Abbreviation legacyUpdateCellStates :=
  (LegacyUpdate.updateCellStates Number_toString Number_toFixed).
Local Abbreviation legacyApplyState :=
  (LegacyUpdate.applyState Number_toString Number_toFixed).
Local Abbreviation formatValue := (SubrDispControl.formatValue Number_toString Number_toFixed).

Lemma legacy_updateCell_unmonitored D cell :
  LegacyUpdate.monitored cell = [] → legacyUpdateCell D cell = cell.
Proof. intros H. unfold LegacyUpdate.updateCell. by rewrite H. Qed.

Lemma legacy_updateCell_monitored D cell :
  LegacyUpdate.monitored cell ≠ [] →
  legacyUpdateCell D cell
    = legacyApplyState (scanAddresses D (LegacyUpdate.monitored cell)).1
        (scanAddresses D (LegacyUpdate.monitored cell)).2 cell.
Proof.
  intros H. unfold LegacyUpdate.updateCell.
  destruct (LegacyUpdate.monitored cell) as [|a l]; [done|].
  by destruct (scanAddresses D (a :: l)).
Qed.

Lemma legacy_monitored_applyState isOn dv cell :
  LegacyUpdate.monitored (legacyApplyState isOn dv cell) = LegacyUpdate.monitored cell.
Proof.
  unfold LegacyUpdate.monitored, LegacyUpdate.applyState. cbn.
  assert (∀ c, c = "ladder-cell" ∨ c = "ladder-block" →
               c ∈ setStateClass isOn (LegacyUpdate.block_classList cell)
               ↔ c ∈ LegacyUpdate.block_classList cell) as H
    by (intros c [-> | ->]; by apply elem_of_setStateClass).
  by rewrite (bool_decide_ext _ _ (H "ladder-cell" (or_introl eq_refl))),
             (bool_decide_ext _ _ (H "ladder-block" (or_intror eq_refl))).
Qed.

Lemma legacy_monitored_updateCell D cell :
  LegacyUpdate.monitored (legacyUpdateCell D cell) = LegacyUpdate.monitored cell.
Proof.
  destruct (decide (LegacyUpdate.monitored cell = [])) as [H|H].
  - by rewrite legacy_updateCell_unmonitored.
  - by rewrite legacy_updateCell_monitored, legacy_monitored_applyState.
Qed.

Lemma legacy_monitored_updates snapshots cell :
  LegacyUpdate.monitored (foldl (λ c D, legacyUpdateCell D c) cell snapshots)
  = LegacyUpdate.monitored cell.
Proof.
  induction snapshots as [|D snapshots IH] using rev_ind; [done|].
  by rewrite foldl_snoc, legacy_monitored_updateCell.
Qed.

(** The earlier live update never hides or clears a value: after any
    sequence of snapshots, the value span of an element shows the value
    the most recent snapshot that had one to display gave it, however
    many snapshots without one came later; it is as it was before the
    first pass when no snapshot had one. *)
Theorem legacy_value_history :
  ∀ (snapshots : list JsObject) (cell : LegacyUpdate.BlockElement),
    spanShown (foldl (λ c D, legacyUpdateCell D c) cell snapshots)
    = (λ shown0,
         match last (omap (λ D, (scanAddresses D (LegacyUpdate.monitored cell)).2)
                          snapshots) with
         | Some v => (formatValue v, "block")
         | None => shown0
         end) <$> spanShown cell.
Proof.
  intros snapshots cell.
  induction snapshots as [|D snapshots IH] using rev_ind.
  - cbn. unfold spanShown. by destruct (LegacyUpdate.block_value cell).
  - rewrite foldl_snoc, omap_app, last_app. cbn [omap].
    set (cell' := foldl _ cell snapshots) in *.
    assert (LegacyUpdate.monitored cell' = LegacyUpdate.monitored cell) as Hm
      by apply legacy_monitored_updates.
    destruct (decide (LegacyUpdate.monitored cell = [])) as [H|H].
    + rewrite legacy_updateCell_unmonitored by congruence. rewrite IH, H. by cbn.
    + rewrite legacy_updateCell_monitored by congruence. rewrite Hm.
      destruct (scanAddresses D (LegacyUpdate.monitored cell)) as [isOn [v|]] eqn:E;
        cbn; rewrite E; cbn.
      * unfold spanShown in *.
        destruct (LegacyUpdate.block_value cell'), (LegacyUpdate.block_value cell);
          by cbn in *.
      * unfold spanShown in *. rewrite <-IH.
        by destruct (LegacyUpdate.block_value cell').
Qed.

Lemma restate_overrides isOn isOn' cl :
  LegacyUpdate.restate isOn (LegacyUpdate.restate isOn' cl) = LegacyUpdate.restate isOn cl.
Proof.
  unfold LegacyUpdate.restate. destruct (LegacyUpdate.hasStateClass cl) eqn:E; [|by rewrite E].
  assert (LegacyUpdate.hasStateClass (setStateClass isOn' cl) = true) as ->.
  { unfold LegacyUpdate.hasStateClass. rewrite setStateClass_unfold.
    destruct isOn'; cbn.
    - apply orb_true_iff. right. apply bool_decide_eq_true_2, elem_of_app. right. by left.
    - apply orb_true_iff. left. apply bool_decide_eq_true_2, elem_of_app. right. by left. }
  apply setStateClass_overrides.
Qed.

(** A pass of the earlier live update repeated on the same snapshot
    changes nothing more; and the classes a pass leaves, on the element
    and on its descendants, are those the last snapshot alone gives,
    whatever snapshot was applied before. *)
Theorem legacy_updateCellStates_idempotent :
  ∀ (dataValues : JsObject) (page : list LegacyUpdate.BlockElement),
    legacyUpdateCellStates dataValues (legacyUpdateCellStates dataValues page)
      = legacyUpdateCellStates dataValues page
    ∧ ∀ earlier : JsObject,
        map (λ c, (LegacyUpdate.block_classList c, LegacyUpdate.block_descendants c,
                   LegacyUpdate.span_classList <$> LegacyUpdate.block_value c))
            (legacyUpdateCellStates dataValues (legacyUpdateCellStates earlier page))
        = map (λ c, (LegacyUpdate.block_classList c, LegacyUpdate.block_descendants c,
                     LegacyUpdate.span_classList <$> LegacyUpdate.block_value c))
              (legacyUpdateCellStates dataValues page).
Proof.
  intros D page. unfold LegacyUpdate.updateCellStates.
  assert (∀ D' cell,
            let c2 := legacyUpdateCell D (legacyUpdateCell D' cell) in
            let c1 := legacyUpdateCell D cell in
            LegacyUpdate.block_classList c2 = LegacyUpdate.block_classList c1
            ∧ LegacyUpdate.block_data_addresses c2 = LegacyUpdate.block_data_addresses c1
            ∧ LegacyUpdate.block_descendants c2 = LegacyUpdate.block_descendants c1
            ∧ LegacyUpdate.span_classList <$> LegacyUpdate.block_value c2
              = LegacyUpdate.span_classList <$> LegacyUpdate.block_value c1
            ∧ (D' = D → LegacyUpdate.block_value c2 = LegacyUpdate.block_value c1)) as Hcell.
  { intros D' cell. cbn zeta.
    destruct (decide (LegacyUpdate.monitored cell = [])) as [H|H].
    - rewrite (legacy_updateCell_unmonitored D' cell) by done. done.
    - rewrite (legacy_updateCell_monitored D (legacyUpdateCell D' cell))
        by (by rewrite legacy_monitored_updateCell).
      rewrite legacy_monitored_updateCell, (legacy_updateCell_monitored D' cell),
        (legacy_updateCell_monitored D cell) by done.
      destruct (scanAddresses D (LegacyUpdate.monitored cell)) as [isOn dv] eqn:E.
      destruct (scanAddresses D' (LegacyUpdate.monitored cell)) as [isOn' dv'] eqn:E'.
      cbn. split; [apply setStateClass_overrides|]. split; [done|]. split.
      { rewrite map_map. apply map_ext. intros el. cbn. by rewrite restate_overrides. }
      split.
      { destruct (LegacyUpdate.block_value cell) as [v|]; [|done]. cbn.
        destruct dv, dv'; cbn; by rewrite restate_overrides. }
      intros ->. rewrite E in E'. injection E' as <- <-.
      destruct (LegacyUpdate.block_value cell) as [v|]; [|done]. cbn.
      destruct dv; cbn; by rewrite restate_overrides. }
  split.
  - rewrite map_map. apply map_ext. intros cell.
    destruct (Hcell D cell) as (H1 & H2 & H3 & _ & H5). cbn zeta in *.
    specialize (H5 eq_refl).
    destruct (legacyUpdateCell D (legacyUpdateCell D cell)), (legacyUpdateCell D cell).
    cbn in *. congruence.
  - intros D'. rewrite !map_map. apply map_ext. intros cell.
    destruct (Hcell D' cell) as (H1 & _ & H3 & H4 & _). cbn zeta in *. cbn.
    by rewrite H1, H3, H4.
Qed.

End LegacyLive.
